(** * FormEase: field detection, fusion and ordering

    A shallow embedding of the field pipeline of FormEase
    (src/formease/field_detector.py, llm_extractor.py, field_ordering.py,
    validators.py, models.py) and the properties its specification states
    about it.

    Modelling conventions.
    - A Python [int] is a [Z]; [//] by a positive constant is [Z.div]
      (both round towards minus infinity), [int(x)] of a float truncates
      towards zero ([Z.quot]).
    - A Python [str] is a [string], one [ascii] per code point; the model
      covers the code points U+0000..U+00FF, and the character predicates
      below ([isspace], [isdigit], [is_word], [lower]) follow CPython's
      Unicode tables on that range.
    - A [float] confidence is a rational ([Qc]): the program only stores and
      compares confidences ([>]), and the finite floats embed in the
      rationals with their order.
    - [FormField] objects that are only read are plain records; where the
      program assigns to an attribute of an object shared with its caller
      ([order_fields]) the objects live in a store indexed by references. *)

From Stdlib Require Import Ascii String ZArith QArith Qabs Qcanon Lia.
From Stdlib Require Import Decimal DecimalNat DecimalString.
From stdpp Require Import base numbers list strings gmap sorting.

Open Scope string_scope.
Open Scope list_scope.

(** ** Python strings *)

Module PyStr.

Definition code (c : ascii) : N := N_of_ascii c.

Definition in_range (lo hi : N) (c : ascii) : bool :=
  ((lo <=? code c) && (code c <=? hi))%N.

(** [str.isspace] on one character, also the class [\s] of [re]. *)
Definition isspace (c : ascii) : bool :=
  in_range 9 13 c || in_range 28 32 c
  || (code c =? 133)%N || (code c =? 160)%N.

(** The class [\d] of [re]: decimal digits only. *)
Definition isdecimal (c : ascii) : bool := in_range 48 57 c.

(** [str.isdigit] on one character: the decimal digits and the
    superscript digits U+00B2, U+00B3, U+00B9. *)
Definition isdigit_char (c : ascii) : bool :=
  isdecimal c || (code c =? 178)%N || (code c =? 179)%N || (code c =? 185)%N.

Definition isupper_char (c : ascii) : bool :=
  in_range 65 90 c || in_range 192 214 c || in_range 216 222 c.

Definition isalpha_char (c : ascii) : bool :=
  in_range 65 90 c || in_range 97 122 c
  || (code c =? 170)%N || (code c =? 181)%N || (code c =? 186)%N
  || in_range 192 214 c || in_range 216 246 c || in_range 248 255 c.

(** The class [\w] of [re]: alphanumeric (letters, digits, and the
    numeric characters U+00BC..U+00BE) or underscore. *)
Definition is_word (c : ascii) : bool :=
  isalpha_char c || isdigit_char c || in_range 188 190 c
  || (code c =? 95)%N.

Definition lower_char (c : ascii) : ascii :=
  if isupper_char c then ascii_of_N (code c + 32) else c.

(** [str.lower] *)
Fixpoint lower (s : string) : string :=
  match s with
  | EmptyString => EmptyString
  | String c s' => String (lower_char c) (lower s')
  end.

Fixpoint lstrip (s : string) : string :=
  match s with
  | EmptyString => EmptyString
  | String c s' => if isspace c then lstrip s' else s
  end.

Fixpoint rstrip (s : string) : string :=
  match s with
  | EmptyString => EmptyString
  | String c s' =>
      match rstrip s' with
      | EmptyString => if isspace c then EmptyString else String c EmptyString
      | r => String c r
      end
  end.

(** [str.strip] without argument *)
Definition strip (s : string) : string := rstrip (lstrip s).

(** [str.isdigit]: non-empty and every character a digit. *)
Fixpoint all_digits (s : string) : bool :=
  match s with
  | EmptyString => true
  | String c s' => isdigit_char c && all_digits s'
  end.

Definition isdigit (s : string) : bool :=
  match s with
  | EmptyString => false
  | _ => all_digits s
  end.

(** [s.replace(c, empty)] for a one-character [c]: every [c] is dropped. *)
Fixpoint remove_char (c : ascii) (s : string) : string :=
  match s with
  | EmptyString => EmptyString
  | String x s' =>
      if Ascii.eqb x c then remove_char c s' else String x (remove_char c s')
  end.

(** Truth value of a string: non-empty. *)
Definition truthy (s : string) : bool :=
  match s with EmptyString => false | _ => true end.

End PyStr.

(** ** Regular expressions

    The fragment of Python's [re] the program uses, with the backtracking
    order of [re]: alternatives left to right, quantifiers greedy.  The
    matcher threads the character before the current position ([None] at
    the start of the subject), which [\b] and [^] inspect. *)

Module Re.

Inductive regex : Type :=
| Eps : regex
| Lit : ascii → regex                 (* a literal character *)
| Cls : (ascii → bool) → regex        (* a character set *)
| Cat : regex → regex → regex
| Alt : regex → regex → regex
| Star : regex → regex                (* r* *)
| Bol : regex                         (* ^ *)
| Eol : regex                         (* $ *)
| Wordb : regex.                      (* \b *)

Definition Opt (r : regex) : regex := Alt r Eps.       (* r? *)
Definition Plus (r : regex) : regex := Cat r (Star r). (* r+ *)

(** r{n} and r{m,n} *)
Fixpoint Rep (n : nat) (r : regex) : regex :=
  match n with O => Eps | S n' => Cat r (Rep n' r) end.
Fixpoint RepOpt (n : nat) (r : regex) : regex :=
  match n with O => Eps | S n' => Opt (Cat r (RepOpt n' r)) end.
Definition RepRange (m n : nat) (r : regex) : regex :=
  Cat (Rep m r) (RepOpt (n - m) r).

(** A literal word, character by character. *)
Fixpoint Str (s : string) : regex :=
  match s with
  | EmptyString => Eps
  | String c EmptyString => Lit c
  | String c s' => Cat (Lit c) (Str s')
  end.

Definition Seq (rs : list regex) : regex := foldr Cat Eps rs.

Definition one_of (s : string) (c : ascii) : bool :=
  existsb (Ascii.eqb c) (list_ascii_of_string s).

(** Under [(?i)] a literal matches either case. *)
Definition lit_match (icase : bool) (p x : ascii) : bool :=
  if icase then Ascii.eqb (PyStr.lower_char p) (PyStr.lower_char x)
  else Ascii.eqb p x.

Definition word_before (prev : option ascii) : bool :=
  match prev with Some c => PyStr.is_word c | None => false end.

Definition word_after (s : string) : bool :=
  match s with String c _ => PyStr.is_word c | EmptyString => false end.

(** [$] matches at the end and before a newline that ends the subject. *)
Definition at_end (s : string) : bool :=
  match s with
  | EmptyString => true
  | String c EmptyString => (PyStr.code c =? 10)%N
  | _ => false
  end.

Section Exec.
Context {R : Type}.
Variable icase : bool.

Definition orelse (a b : option R) : option R :=
  match a with Some x => Some x | None => b end.

(** The iterations of [r*], at most [n] more: another match of the body
    that consumes something, then the rest of the iterations, and the
    continuation [k] when that fails. *)
Fixpoint star_loop
         (body : option ascii → string →
                 (option ascii → string → option R) → option R)
         (k : option ascii → string → option R)
         (n : nat) (prev : option ascii) (s : string) : option R :=
  orelse
    match n with
    | O => None
    | S n' =>
        body prev s
             (λ prev' s',
                if (String.length s' <? String.length s)%nat
                then star_loop body k n' prev' s' else None)
    end
    (k prev s).

(** [exec r prev s k]: match [r] at the front of [s], then continue
    with [k] on what is left; the first success in backtracking order
    is the result. *)
Fixpoint exec (r : regex) (prev : option ascii) (s : string)
         (k : option ascii → string → option R) {struct r} : option R :=
  match r with
  | Eps => k prev s
  | Lit p =>
      match s with
      | String x s' => if lit_match icase p x then k (Some x) s' else None
      | EmptyString => None
      end
  | Cls p =>
      match s with
      | String x s' => if p x then k (Some x) s' else None
      | EmptyString => None
      end
  | Cat r1 r2 => exec r1 prev s (λ prev' s', exec r2 prev' s' k)
  | Alt r1 r2 => orelse (exec r1 prev s k) (exec r2 prev s k)
  | Star r1 => star_loop (exec r1) k (String.length s) prev s
  | Bol => match prev with None => k prev s | Some _ => None end
  | Eol => if at_end s then k prev s else None
  | Wordb =>
      if xorb (word_before prev) (word_after s) then k prev s else None
  end.
End Exec.

(** The match of [r] at the current position: what is left after it. *)
Definition match_here (icase : bool) (r : regex) (prev : option ascii)
           (s : string) : option string :=
  exec icase r prev s (λ _ s', Some s').

Fixpoint search_from (icase : bool) (r : regex) (prev : option ascii)
         (s : string) : bool :=
  match match_here icase r prev s with
  | Some _ => true
  | None =>
      match s with
      | EmptyString => false
      | String c s' => search_from icase r (Some c) s'
      end
  end.

(** [bool(re.search(r, s))] *)
Definition search (icase : bool) (r : regex) (s : string) : bool :=
  search_from icase r None s.

(** [bool(re.match(r, s))] *)
Definition match_ (icase : bool) (r : regex) (s : string) : bool :=
  match match_here icase r None s with Some _ => true | None => false end.

(** [re.sub(r, repl, s)]: the non-overlapping matches from left to right
    are replaced; after an empty match one character is copied. *)
Fixpoint sub_from (fuel : nat) (icase : bool) (r : regex) (repl : string)
         (prev : option ascii) (s : string) : string :=
  match fuel with
  | O => s
  | S fuel' =>
      match match_here icase r prev s with
      | Some rest =>
          if (String.length rest <? String.length s)%nat
          then
            let consumed := String.length s - String.length rest in
            let last := String.get (consumed - 1) s in
            repl +:+ sub_from fuel' icase r repl last rest
          else
            match s with
            | EmptyString => repl
            | String c s' =>
                repl +:+ String c (sub_from fuel' icase r repl (Some c) s')
            end
      | None =>
          match s with
          | EmptyString => EmptyString
          | String c s' => String c (sub_from fuel' icase r repl (Some c) s')
          end
      end
  end.

Definition sub (icase : bool) (r : regex) (repl s : string) : string :=
  sub_from (S (String.length s)) icase r repl None s.

End Re.

(** ** models.py *)

Module Models.

Inductive FieldType : Type :=
| TEXT | NUMBER | DATE | EMAIL | PHONE | CHECKBOX | NRIC.

(** A bounding box is the tuple [(x1, y1, x2, y2)]. *)
Definition bbox : Type := (Z * Z * Z * Z)%type.

Record FormField : Type := mkFormField {
  field_id : string;
  page_index : Z;
  label_text : string;
  field_type : FieldType;
  target_bbox : bbox;
  label_bbox : bbox;
  required : bool;
  confidence : Qc;
  answer : string;
  validation_hint : string
}.

(** The assignment [f.field_id = v]. *)
Definition set_field_id (v : string) (f : FormField) : FormField :=
  mkFormField v (page_index f) (label_text f) (field_type f)
              (target_bbox f) (label_bbox f) (required f) (confidence f)
              (answer f) (validation_hint f).

#[global] Instance FieldType_eq_dec : EqDecision FieldType.
Proof. solve_decision. Defined.

(** The [==] of the dataclass: component-wise equality. *)
#[global] Instance FormField_eq_dec : EqDecision FormField.
Proof. solve_decision. Defined.

#[global] Instance FormField_inhabited : Inhabited FormField :=
  populate (mkFormField EmptyString 0 EmptyString TEXT (0, 0, 0, 0)%Z
                        (0, 0, 0, 0)%Z false (Q2Qc 0) EmptyString
                        EmptyString).

End Models.

(** ** Floating point: an integer times the constant 0.8

    [w * 0.8] converts the integer [w] to the nearest double and rounds the
    product of the two doubles to the nearest double, ties going to the
    even mantissa.  A double is given by a mantissa [m] and an exponent
    [e] and has the value [m * 2^e].  The conversion of a width of 2^1024
    or more raises OverflowError; widths that large are outside this
    development. *)

Module PyFloat.
Local Open Scope Z_scope.

(** [n / d] rounded to the nearest integer, a tie to the even one
    ([d] positive). *)
Definition round_div (n d : Z) : Z :=
  let q := n / d in
  match 2 * (n mod d) ?= d with
  | Lt => q
  | Gt => q + 1
  | Eq => if Z.even q then q else q + 1
  end.

(** The largest [k] with [2^k <= n / d] ([n] and [d] positive). *)
Definition log2_floor (n d : Z) : Z :=
  let k := Z.log2 n - Z.log2 d in
  if d * 2 ^ Z.max 0 k <=? n * 2 ^ Z.max 0 (- k) then k else k - 1.

(** The double nearest to [n / d]: a mantissa of 53 bits. *)
Definition nearest (n d : Z) : Z * Z :=
  let e := log2_floor n d - 52 in
  (round_div (n * 2 ^ Z.max 0 (- e)) (d * 2 ^ Z.max 0 e), e).

(** The double [0.8] is [mantissa_0_8 * 2^-52]
    (0x1.999999999999ap-1). *)
Definition mantissa_0_8 : Z := 3602879701896397.

(** [int(w * 0.8)] for a positive integer [w]. *)
Definition int_mul_0_8_pos (w : Z) : Z :=
  let '(m, e) := nearest w 1 in
  let '(m', e') := nearest (m * mantissa_0_8 * 2 ^ Z.max 0 (e - 52))
                           (2 ^ Z.max 0 (52 - e)) in
  (m' * 2 ^ Z.max 0 e') / 2 ^ Z.max 0 (- e').

(** [int(w * 0.8)]: the sign goes through the conversion and the
    product, and [int] rounds towards zero. *)
Definition int_mul_0_8 (w : Z) : Z :=
  match w with
  | 0 => 0
  | Zpos _ => int_mul_0_8_pos w
  | Zneg _ => - int_mul_0_8_pos (- w)
  end.

End PyFloat.

(** ** field_detector.py *)

Module FieldDetector.
Import Models Re.

(** [\bw\b] for a literal word [w]. *)
Definition word (w : string) : regex := Seq [Wordb; Str w; Wordb].

Definition ws : regex := Cls PyStr.isspace.   (* \s *)

(** [LABEL_PATTERNS]: the dictionary in its insertion order, which is the
    order its [items()] are iterated in.  Every pattern carries [(?i)]. *)
Definition LABEL_PATTERNS : list (FieldType * list regex) :=
  [ (TEXT,
     [ word "name"; word "address"; word "occupation";
       word "nationality"; word "company";
       (* \borganis?ation\b *)
       Seq [Wordb; Str "organi"; Opt (Str "s"); Str "ation"; Wordb];
       word "gender"; word "sex"; word "race"; word "religion";
       word "signature";
       (* \bremarks?\b *)
       Seq [Wordb; Str "remark"; Opt (Str "s"); Wordb];
       word "purpose" ]);
    (EMAIL,
     [ (* \be[-\s]?mail\b *)
       Seq [Wordb; Str "e";
            Opt (Cls (λ c, one_of "-" c || PyStr.isspace c));
            Str "mail"; Wordb] ]);
    (PHONE,
     [ word "phone";
       (* \btel(?:ephone)?\b *)
       Seq [Wordb; Str "tel"; Opt (Str "ephone"); Wordb];
       word "mobile";
       (* \bcontact\s*(?:no|number)\b *)
       Seq [Wordb; Str "contact"; Star ws;
            Alt (Str "no") (Str "number"); Wordb];
       word "fax" ]);
    (DATE,
     [ word "date"; word "dob";
       (* \bdate\s*of\s*birth\b *)
       Seq [Wordb; Str "date"; Star ws; Str "of"; Star ws; Str "birth";
            Wordb];
       word "expiry";
       (* \bissue\s*date\b *)
       Seq [Wordb; Str "issue"; Star ws; Str "date"; Wordb] ]);
    (NRIC,
     [ word "nric"; word "fin";
       (* \bic\s*no\b *)
       Seq [Wordb; Str "ic"; Star ws; Str "no"; Wordb] ]);
    (NUMBER,
     [ word "age";
       (* \bpostal\s*code\b *)
       Seq [Wordb; Str "postal"; Star ws; Str "code"; Wordb];
       word "zip";
       (* \bunit\s*no\b *)
       Seq [Wordb; Str "unit"; Star ws; Str "no"; Wordb];
       word "block" ]) ].

(** The two nested loops of [classify_label] over a pattern table: the
    first type one of whose patterns is found in [text]. *)
Fixpoint classify_in (table : list (FieldType * list regex))
         (text : string) : option FieldType :=
  match table with
  | [] => None
  | (ftype, patterns) :: rest =>
      if existsb (λ pat, search true pat text) patterns
      then Some ftype
      else classify_in rest text
  end.

Definition classify_label (text : string) : option FieldType :=
  classify_in LABEL_PATTERNS text.

(** (?i)\*|\brequired\b|\bmandatory\b *)
Definition is_required (label_text : string) : bool :=
  search true (Alt (Str "*") (Alt (word "required") (word "mandatory")))
         label_text.

Definition clean_label (text : string) : string :=
  (* [:\*]+$ *)
  let text := sub false (Cat (Plus (Cls (one_of ":*"))) Eol) EmptyString
                  (PyStr.strip text) in
  (* \s+ *)
  let text := sub false (Plus ws) " " text in
  PyStr.strip text.

(** On a tuple of Python ints [int] is the identity. *)
Definition _int_bbox (b : bbox) : bbox := b.

(** [(a + b) / 2], a true division. *)
Definition center (a b : Z) : Q := inject_Z (a + b) / 2.

Definition Qltb (x y : Q) : bool := negb (Qle_bool y x).

(** One iteration of the loop of [find_nearest_input_region] on the pair
    [(best, best_dist)]. *)
Definition nearest_step (label_bbox : bbox) (st : option bbox * Z)
           (region : bbox) : option bbox * Z :=
  let '(lx1, ly1, lx2, ly2) := label_bbox in
  let label_center_y := center ly1 ly2 in
  let '(best, best_dist) := st in
  let '(rx1, ry1, rx2, ry2) := region in
  let region_center_y := center ry1 ry2 in
  if Qltb (Qabs (region_center_y - label_center_y)) 30
     && (lx2 <? rx1)%Z
  then
    let dist := (rx1 - lx2)%Z in
    if (dist <? best_dist)%Z then (Some region, dist) else st
  else if (ly2 <? ry1)%Z && (Z.abs (rx1 - lx1) <? 100)%Z
  then
    let dist := (ry1 - ly2)%Z in
    if (dist <? best_dist)%Z then (Some region, dist) else st
  else st.

Definition find_nearest_input_region (label_bbox : bbox)
           (input_regions : list bbox) (max_distance : Z) : option bbox :=
  fst (fold_left (nearest_step label_bbox) input_regions
                 (None, max_distance)).

(** [int(page_width * 0.8)]: the product is taken in floating point and
    [int] drops the fraction.  For a width from 0 to 2^50 that is the
    floor of [8 * page_width / 10]; from 2^50 on the rounding of the
    product shows ([int_08_floor], [int_08_beyond]). *)
Definition int_08 (page_width : Z) : Z := PyFloat.int_mul_0_8 page_width.

Definition infer_answer_region (label_bbox : bbox) (page_width : Z) : bbox :=
  let '(lx1, ly1, lx2, ly2) := label_bbox in
  let h := (ly2 - ly1)%Z in
  let target_x2 := Z.min (lx2 + 400) (int_08 page_width) in
  _int_bbox ((lx2 + 10)%Z, ly1, target_x2, ly2).

(** The target of a label as [detect_fields] and [detect_fields_llm]
    resolve it: the nearest region within the default distance of 200,
    and the inferred region when there is none. *)
Definition target_region (label_bbox : bbox) (input_regions : list bbox)
           (page_width : Z) : bbox :=
  match find_nearest_input_region label_bbox input_regions 200 with
  | Some target => target
  | None => infer_answer_region label_bbox page_width
  end.

End FieldDetector.

(** ** validators.py *)

Module Validators.
Import Models Re.

Definition digit : regex := Cls PyStr.isdecimal.        (* \d *)
Definition sep : regex := Cls (one_of "/-").            (* [/\-] *)
(** [^@\s] *)
Definition not_at_space : regex :=
  Cls (λ c, negb (one_of "@" c || PyStr.isspace c)).

(** ^[^@\s]+@[^@\s]+\.[^@\s]+$ *)
Definition email_re : regex :=
  Seq [Bol; Plus not_at_space; Str "@"; Plus not_at_space; Str ".";
       Plus not_at_space; Eol].

(** [\s\-\+\(\)] *)
Definition phone_strip_re : regex :=
  Cls (λ c, PyStr.isspace c || one_of "-+()" c).

Definition date_res : list regex :=
  [ (* ^\d{1,2}[/\-]\d{1,2}[/\-]\d{2,4}$ *)
    Seq [Bol; RepRange 1 2 digit; sep; RepRange 1 2 digit; sep;
         RepRange 2 4 digit; Eol];
    (* ^\d{4}[/\-]\d{1,2}[/\-]\d{1,2}$ *)
    Seq [Bol; Rep 4 digit; sep; RepRange 1 2 digit; sep;
         RepRange 1 2 digit; Eol] ].

(** ^[STFGM]\d{7}[A-Z]$ *)
Definition nric_re : regex :=
  Seq [Bol; Cls (one_of "STFGM"); Rep 7 digit; Cls (PyStr.in_range 65 90);
       Eol].

(** [str.upper] on the characters U+0000..U+00FF, the characters of the
    strings here.  U+00DF becomes "SS"; U+00B5 and U+00FF, whose upper
    case lies beyond U+00FF, stand for it (neither they nor their upper
    case belong to a class of [nric_re], the only reader).  Beyond
    U+00FF, and so outside these strings, U+017F and U+0131 have the
    upper cases "S" and "I": what is stated of the NRIC check is stated
    of the upper-cased answer, by this name. *)
Fixpoint upper (s : string) : string :=
  match s with
  | EmptyString => EmptyString
  | String c s' =>
      if (PyStr.code c =? 223)%N then "SS" +:+ upper s'
      else if PyStr.in_range 97 122 c || PyStr.in_range 224 246 c
              || PyStr.in_range 248 254 c
      then String (ascii_of_N (PyStr.code c - 32)) (upper s')
      else String c (upper s')
  end.

Definition validate_field (field_type : FieldType) (answer : string)
  : bool * option string :=
  if negb (PyStr.truthy (PyStr.strip answer)) then (true, None)
  else
    let answer := PyStr.strip answer in
    match field_type with
    | EMAIL =>
        if negb (match_ false email_re answer)
        then (false,
              Some "Please enter a valid email address (must contain @).")
        else (true, None)
    | PHONE =>
        let digits := sub false phone_strip_re EmptyString answer in
        if negb (PyStr.isdigit digits)
           || (String.length digits <? 7)%nat
           || (15 <? String.length digits)%nat
        then (false,
              Some "Please enter a valid phone number (7–15 digits).")
        else (true, None)
    | DATE =>
        if negb (existsb (λ p, match_ false p answer) date_res)
        then (false,
              Some "Please enter a valid date (DD/MM/YYYY or YYYY-MM-DD).")
        else (true, None)
    | NRIC =>
        if negb (match_ false nric_re (upper answer))
        then (false, Some "Please enter a valid NRIC/FIN (e.g., S1234567A).")
        else (true, None)
    | NUMBER =>
        let cleaned :=
          PyStr.remove_char ","%char
            (PyStr.remove_char "-"%char
               (PyStr.remove_char "."%char answer)) in
        if negb (PyStr.isdigit cleaned)
        then (false, Some "Please enter a number.")
        else (true, None)
    | _ => (true, None)
    end.

End Validators.

(** ** llm_extractor.py: fusion *)

Module LlmExtractor.
Import Models.

(** [f.label_text.strip().lower()] *)
Definition label_key (f : FormField) : string :=
  PyStr.lower (PyStr.strip (label_text f)).

(** [l.remove(x)]: the first element equal to [x] is dropped; [None]
    stands for the [ValueError] raised when there is none. *)
Fixpoint list_remove (x : FormField) (l : list FormField)
  : option (list FormField) :=
  match l with
  | [] => None
  | y :: l' =>
      if decide (y = x) then Some l' else cons y <$> list_remove x l'
  end.

(** [{key(f): f for f in heuristic}]: a later field replaces an earlier
    one under the same key. *)
Definition seen_of (heuristic : list FormField) : gmap string FormField :=
  fold_left (λ seen f, <[label_key f := f]> seen) heuristic ∅.

(** One iteration of the loop over the external fields, on the pair
    [(merged, seen)]. *)
Definition merge_step (st : list FormField * gmap string FormField)
           (f : FormField)
  : option (list FormField * gmap string FormField) :=
  let '(merged, seen) := st in
  let key := label_key f in
  if negb (PyStr.truthy key) then Some st
  else
    match seen !! key with
    | None => Some (merged ++ [f], <[key := f]> seen)
    | Some existing =>
        if bool_decide (confidence existing < confidence f)%Qc
        then
          merged' ← list_remove existing merged;
          Some (merged' ++ [f], <[key := f]> seen)
        else Some st
    end.

Fixpoint merge_loop (st : list FormField * gmap string FormField)
         (llm : list FormField)
  : option (list FormField * gmap string FormField) :=
  match llm with
  | [] => Some st
  | f :: rest => st' ← merge_step st f; merge_loop st' rest
  end.

Definition merge_fields (heuristic llm : list FormField)
  : option (list FormField) :=
  match llm with
  | [] => Some heuristic
  | _ => fst <$> merge_loop (heuristic, seen_of heuristic) llm
  end.

End LlmExtractor.

(** ** field_ordering.py *)

Module FieldOrdering.
Import Models.

(** A reference to a [FormField] object, and the store of the objects. *)
Definition ref : Type := nat.
Abbreviation store := (gmap nat FormField).

Definition sort_key (f : FormField) : Z * Z * Z :=
  let '(x1, y1, x2, y2) := label_bbox f in
  let row := (y1 `div` 20)%Z in
  (page_index f, row, x1).

(** [<] on the key tuples: lexicographic. *)
Definition key_lt (a b : Z * Z * Z) : bool :=
  let '(a1, a2, a3) := a in
  let '(b1, b2, b3) := b in
  (a1 <? b1)%Z
  || ((a1 =? b1)%Z && ((a2 <? b2)%Z || ((a2 =? b2)%Z && (a3 <? b3)%Z))).

(** [sorted(l, key=key)], a stable sort: an element goes before the first
    element that is not smaller, so elements with equal keys keep the
    order they came in. *)
Fixpoint insert_by {A} (key : A → Z * Z * Z) (x : A) (l : list A) : list A :=
  match l with
  | [] => [x]
  | y :: l' =>
      if key_lt (key y) (key x) then y :: insert_by key x l' else x :: l
  end.

Definition sorted {A} (key : A → Z * Z * Z) (l : list A) : list A :=
  foldr (insert_by key) [] l.

(** [f"{i:03d}"]: decimal, padded with zeros to three digits at least. *)
Definition zero_pad (width : nat) (d : uint) : uint :=
  Nat.iter (width - nb_digits d) D0 d.

Definition format_03d (i : nat) : string :=
  NilEmpty.string_of_uint (zero_pad 3 (Nat.to_uint i)).

Definition new_id (i : nat) : string := "f" +:+ format_03d i.

(** The loop [for i, f in enumerate(ordered): f.field_id = ...], counting
    from [i]. *)
Fixpoint assign_ids (h : store) (i : nat) (ordered : list ref) : store :=
  match ordered with
  | [] => h
  | f :: rest => assign_ids (alter (set_field_id (new_id i)) f h) (S i) rest
  end.

(** [order_fields]: the store after the call and the list returned. *)
Definition order_fields (h : store) (fields : list ref) : store * list ref :=
  let ordered := sorted (λ f, sort_key (h !!! f)) fields in
  (assign_ids h 0 ordered, ordered).

(** The identifiers a reader of the store sees along a list. *)
Definition ids_of (h : store) (l : list ref) : list string :=
  (λ f, field_id (h !!! f)) <$> l.

End FieldOrdering.
From Stdlib Require Import Qround Lqa.

(** ** Python's [sorted], [min] and [max] *)

Module PySort.

(** [sorted(l, key=key)] for keys compared by [lt]: stable, an element
    goes before the first element whose key is not smaller. *)
Fixpoint insert_by {A K} (lt : K → K → bool) (key : A → K) (x : A)
         (l : list A) : list A :=
  match l with
  | [] => [x]
  | y :: l' =>
      if lt (key y) (key x) then y :: insert_by lt key x l' else x :: l
  end.

Definition sorted {A K} (lt : K → K → bool) (key : A → K) (l : list A)
  : list A :=
  foldr (insert_by lt key) [] l.

(** [<] on pairs of integers: lexicographic. *)
Definition pair_lt (a b : Z * Z) : bool :=
  (a.1 <? b.1)%Z || ((a.1 =? b.1)%Z && (a.2 <? b.2)%Z).

(** [min(l)] and [max(l)]; [None] stands for the [ValueError] raised on
    an empty sequence. *)
Definition py_min (l : list Z) : option Z :=
  match l with
  | [] => None
  | x :: l' => Some (fold_left Z.min l' x)
  end.

Definition py_max (l : list Z) : option Z :=
  match l with
  | [] => None
  | x :: l' => Some (fold_left Z.max l' x)
  end.

End PySort.

(** ** models.py: OCR blocks and pages *)

Module Ocr.

Record OcrBlock : Type := mkOcrBlock {
  text : string;
  bbox : Models.bbox;
  confidence : Qc;
  level : Z;
  block_num : Z;
  line_num : Z;
  word_num : Z
}.

Record PageData : Type := mkPageData {
  page_index : Z;
  image_bytes : string;
  width : Z;
  height : Z;
  ocr_blocks : list OcrBlock;
  dpi : Z
}.

End Ocr.

(** ** field_detector.py: lines, boxes, regions and the detection loop *)

Module Lines.
Import Ocr.

(** One iteration of the first loop of [group_into_lines]:
    [lines_dict.setdefault(key, []).append(b)] for a word-level block. *)
Definition add_word (lines_dict : gmap (Z * Z) (list OcrBlock))
           (b : OcrBlock) : gmap (Z * Z) (list OcrBlock) :=
  if (level b =? 5)%Z
  then
    let key := (block_num b, line_num b) in
    <[key := default [] (lines_dict !! key) ++ [b]]> lines_dict
  else lines_dict.

Definition lines_dict_of (blocks : list OcrBlock)
  : gmap (Z * Z) (list OcrBlock) :=
  fold_left add_word blocks ∅.

(** [w.bbox[0]] *)
Definition left_edge (w : OcrBlock) : Z := (bbox w).1.1.1.

Definition group_into_lines (blocks : list OcrBlock)
  : list (list OcrBlock) :=
  let lines_dict := lines_dict_of blocks in
  (λ key, PySort.sorted Z.ltb left_edge (lines_dict !!! key))
    <$> PySort.sorted PySort.pair_lt id (map_to_list lines_dict).*1.

(** [merge_bboxes]; [None] stands for the [ValueError] of [min] and [max]
    on no box at all. *)
Definition merge_bboxes (bboxes : list Models.bbox) : option Models.bbox :=
  x1 ← PySort.py_min ((λ b : Models.bbox, b.1.1.1) <$> bboxes);
  y1 ← PySort.py_min ((λ b : Models.bbox, b.1.1.2) <$> bboxes);
  x2 ← PySort.py_max ((λ b : Models.bbox, b.1.2) <$> bboxes);
  y2 ← PySort.py_max ((λ b : Models.bbox, b.2) <$> bboxes);
  Some (FieldDetector._int_bbox (x1, y1, x2, y2)).

End Lines.

Module Regions.

(** What the OpenCV calls give for the image bytes when they return,
    taken as given: [None] when [imdecode] yields no image; otherwise
    the segments [(x1, y1, x2, y2)] of [HoughLinesP] ([None] when it
    finds none) and the rectangles [(x, y, w, h)] that [boundingRect]
    gives for the external contours.  The calls can also raise
    ([cv2.imdecode] does on an empty buffer) and the source does not
    catch that: a raise is no value of this type, and what is stated
    with [cv] is stated of the calls that return.  Pixel coordinates are
    far inside the range of the 32-bit integers of numpy, so their
    arithmetic is that of [Z]. *)
Definition CvResult : Type :=
  option (option (list (Z * Z * Z * Z)) * list (Z * Z * Z * Z)).

(** The body of the loop over the segments. *)
Definition underline_region (line : Z * Z * Z * Z) : list Models.bbox :=
  let '(x1, y1, x2, y2) := line in
  if (Z.abs (y2 - y1) <? 5)%Z
  then [FieldDetector._int_bbox (Z.min x1 x2, (y1 - 25)%Z, Z.max x1 x2, y1)]
  else [].

(** The body of the loop over the contours; [w / max(h, 1)] is a true
    division. *)
Definition box_region (rect : Z * Z * Z * Z) : list Models.bbox :=
  let '(x, y, w, h) := rect in
  let aspect := (inject_Z w / inject_Z (Z.max h 1))%Q in
  if FieldDetector.Qltb 2 aspect && (80 <? w)%Z
     && ((15 <? h)%Z && (h <? 80)%Z)
  then [FieldDetector._int_bbox (x, y, (x + w)%Z, (y + h)%Z)]
  else [].

Definition detect_input_regions (cv : string → CvResult)
           (image_bytes : string) : list Models.bbox :=
  match cv image_bytes with
  | None => []
  | Some (lines, rects) =>
      let regions :=
        match lines with
        | Some lines => flat_map underline_region lines
        | None => []
        end in
      regions ++ flat_map box_region rects
  end.

End Regions.

Module Detect.
Import Models.

(** [sep.join(l)] *)
Definition join (sep : string) (l : list string) : string :=
  match l with
  | [] => EmptyString
  | x :: l' => fold_left (λ acc y, acc +:+ sep +:+ y) l' x
  end.

Section DetectFields.
(** OpenCV as in [Regions] (its calls returning), and the
    floating-point [round(sum(cs) / len(cs), 2)] of a non-empty list
    of confidences, both taken as given. *)
Variable cv : string → Regions.CvResult.
Variable round_mean : list Qc → Qc.

(** One iteration of the loop of [detect_fields] on the list [fields];
    [None] stands for an exception of the loop ([ValueError] of
    [merge_bboxes], [ZeroDivisionError] of the mean). *)
Definition detect_line (page : Ocr.PageData)
           (input_regions : list bbox) (fields : list FormField)
           (line_words : list Ocr.OcrBlock) : option (list FormField) :=
  let line_text := join " " (Ocr.text <$> line_words) in
  match FieldDetector.classify_label line_text with
  | None => Some fields
  | Some field_type =>
      line_bbox ← Lines.merge_bboxes (Ocr.bbox <$> line_words);
      let target :=
        FieldDetector.target_region line_bbox input_regions
                                    (Ocr.width page) in
      avg_conf ← match line_words with
                 | [] => None
                 | _ => Some (round_mean (Ocr.confidence <$> line_words))
                 end;
      Some (fields
            ++ [mkFormField (FieldOrdering.new_id (length fields))
                            (Ocr.page_index page)
                            (FieldDetector.clean_label line_text)
                            field_type target line_bbox
                            (FieldDetector.is_required line_text)
                            avg_conf EmptyString EmptyString])
  end.

Fixpoint detect_loop (page : Ocr.PageData) (input_regions : list bbox)
         (fields : list FormField) (lines : list (list Ocr.OcrBlock))
  : option (list FormField) :=
  match lines with
  | [] => Some fields
  | line_words :: rest =>
      fields' ← detect_line page input_regions fields line_words;
      detect_loop page input_regions fields' rest
  end.

Definition detect_fields (page : Ocr.PageData)
  : option (list FormField) :=
  let lines := Lines.group_into_lines (Ocr.ocr_blocks page) in
  let input_regions :=
    Regions.detect_input_regions cv (Ocr.image_bytes page) in
  detect_loop page input_regions [] lines.

End DetectFields.

End Detect.

(** ** llm_extractor.py: the filters and the loop over the raw fields *)

Module LlmFilters.
Import Models Re.

(** [FieldType.value] *)
Definition value (ft : FieldType) : string :=
  match ft with
  | TEXT => "text" | NUMBER => "number" | DATE => "date"
  | EMAIL => "email" | PHONE => "phone" | CHECKBOX => "checkbox"
  | NRIC => "nric"
  end.

(** The members of the enumeration, in the order of their definition. *)
Definition members : list FieldType :=
  [TEXT; NUMBER; DATE; EMAIL; PHONE; CHECKBOX; NRIC].

(** [FieldType(v)]; [None] stands for its [ValueError]. *)
Definition FieldType_of_value (v : string) : option FieldType :=
  List.find (λ ft, String.eqb (value ft) v) members.

Definition _FIELD_TYPE_VALUES : gset string :=
  list_to_set (value <$> [TEXT; NUMBER; DATE; EMAIL; PHONE; CHECKBOX; NRIC]).

Definition _field_type_from_value (v : string) : FieldType :=
  match FieldType_of_value v with
  | Some ft => ft
  | None => TEXT
  end.

(** [round(v)] of a number: to the nearest integer, a tie to the even
    one.  A float is taken by its exact value. *)
Definition py_round (v : Q) : Z :=
  let f := Qfloor v in
  match (v - inject_Z f ?= 1 # 2)%Q with
  | Lt => f
  | Gt => (f + 1)%Z
  | Eq => if Z.even f then f else (f + 1)%Z
  end.

Definition _as_int_bbox (values : list Q) : bbox :=
  match py_round <$> values with
  | [a; b; c; d] => (a, b, c, d)
  | _ => (0, 0, 0, 0)%Z
  end.

(** [s.split(sep)] for a one-character separator. *)
Fixpoint split_char (sep : ascii) (s : string) : list string :=
  match s with
  | EmptyString => [EmptyString]
  | String c s' =>
      if Ascii.eqb c sep then EmptyString :: split_char sep s'
      else
        match split_char sep s' with
        | piece :: pieces => String c piece :: pieces
        | [] => [String c EmptyString]
        end
  end.

(** [_ENV_STOP_LABELS], from the value of FORMEASE_STOP_LABELS (the
    empty string when the variable is not set). *)
Definition stop_labels_of (env : string) : gset string :=
  list_to_set
    ((λ s, PyStr.lower (PyStr.strip s))
       <$> filter (λ s, PyStr.truthy (PyStr.strip s) = true)
                  (split_char "|"%char env)).

(** [re.split(r, s)] for a pattern that matches no empty string, as
    [\s+]: the pieces between the matches, from left to right; [piece]
    is the piece being read, reversed. *)
Fixpoint split_from (fuel : nat) (icase : bool) (r : regex)
         (prev : option ascii) (piece : string) (s : string)
  : list string :=
  match fuel with
  | O => [String.rev piece +:+ s]
  | S fuel' =>
      match s with
      | EmptyString => [String.rev piece]
      | String c s' =>
          match match_here icase r prev s with
          | Some rest =>
              if (String.length rest <? String.length s)%nat
              then
                let consumed := String.length s - String.length rest in
                let last := String.get (consumed - 1) s in
                String.rev piece
                :: split_from fuel' icase r last EmptyString rest
              else
                split_from fuel' icase r (Some c) (String c piece) s'
          | None => split_from fuel' icase r (Some c) (String c piece) s'
          end
      end
  end.

Definition split (icase : bool) (r : regex) (s : string) : list string :=
  split_from (S (String.length s)) icase r None EmptyString s.

(** [c in s] for a one-character [c]. *)
Definition char_in (c : ascii) (s : string) : bool :=
  existsb (Ascii.eqb c) (list_ascii_of_string s).

(** [s.endswith(c)] for a one-character [c]. *)
Fixpoint endswith (c : ascii) (s : string) : bool :=
  match s with
  | EmptyString => false
  | String x EmptyString => Ascii.eqb x c
  | String _ s' => endswith c s'
  end.

(** [len([w for w in re.split(r"\s+", t) if w])] *)
Definition word_count (t : string) : nat :=
  length (filter (λ w, PyStr.truthy w = true)
                 (split false (Plus (Cls PyStr.isspace)) t)).

(** ^(The|This|These|Those)\b *)
Definition sentence_start : regex :=
  Seq [Bol;
       Alt (Str "The") (Alt (Str "This") (Alt (Str "These") (Str "Those")));
       Wordb].

Definition _looks_like_instruction (text : string) : bool :=
  let t := PyStr.strip text in
  let word_count := word_count t in
  if (9 <=? word_count)%nat && negb (char_in ":"%char t)
     && negb (char_in "_"%char t)
  then true
  else if endswith "."%char t && (6 <=? word_count)%nat then true
  else if char_in ","%char t && (6 <=? word_count)%nat
          && negb (char_in "_"%char t)
  then true
  else if match_ false sentence_start t && (6 <=? word_count)%nat then true
  else false.

(** An item of the list the service returns, by the keys the loop reads;
    [None] is a key that is missing. *)
Record RawItem : Type := mkRawItem {
  raw_label_text : option string;
  raw_field_type : option string;
  raw_label_bbox : option (list Q);
  raw_required : option bool;
  raw_confidence : option Q
}.

(** The float [0.7], by its exact value. *)
Definition float_0_7 : Q := 3152519739159347 # 4503599627370496.

Section Loop.
(** The stop labels, and the floating-point [round(x, 2)], taken as
    given. *)
Variable stop_labels : gset string.
Variable round2 : Q → Qc.

(** One iteration of the loop over [enumerate(raw_fields)] in
    [detect_fields_llm], on the list [fields]. *)
Definition llm_item (page : Ocr.PageData) (input_regions : list bbox)
           (fields : list FormField) (idx : nat) (item : RawItem)
  : list FormField :=
  let label_text :=
    FieldDetector.clean_label
      (PyStr.strip (default EmptyString (raw_label_text item))) in
  if negb (PyStr.truthy label_text) then fields
  else if bool_decide (PyStr.lower (PyStr.strip label_text) ∈ stop_labels)
  then fields
  else if _looks_like_instruction label_text then fields
  else
    let field_type :=
      _field_type_from_value (default "text" (raw_field_type item)) in
    let label_bbox := _as_int_bbox (default [] (raw_label_bbox item)) in
    if bool_decide (label_bbox = (0, 0, 0, 0)%Z) then fields
    else
      let found :=
        FieldDetector.find_nearest_input_region label_bbox input_regions
                                                200 in
      let target :=
        match found with
        | Some target => target
        | None =>
            FieldDetector.infer_answer_region label_bbox (Ocr.width page)
        end in
      let inferred :=
        match found with Some _ => false | None => true end in
      if inferred
         && negb (bool_decide
                    (is_Some (FieldDetector.classify_label label_text)))
      then fields
      else
        let required := default false (raw_required item) in
        let required :=
          if negb required then FieldDetector.is_required label_text
          else required in
        let confidence := default float_0_7 (raw_confidence item) in
        fields
        ++ [mkFormField ("llm" +:+ FieldOrdering.format_03d idx)
                        (Ocr.page_index page) label_text field_type
                        target label_bbox required (round2 confidence)
                        EmptyString EmptyString].

Fixpoint llm_loop (page : Ocr.PageData) (input_regions : list bbox)
         (fields : list FormField) (idx : nat) (raw_fields : list RawItem)
  : list FormField :=
  match raw_fields with
  | [] => fields
  | item :: rest =>
      llm_loop page input_regions
               (llm_item page input_regions fields idx item) (S idx) rest
  end.

(** [detect_fields_llm] from the point where the service has
    answered: [raw_fields] is the list under the key "fields" of its
    answer, [cv] is OpenCV as in [Regions]. *)
Definition fields_of_raw (cv : string → Regions.CvResult)
           (page : Ocr.PageData) (raw_fields : list RawItem)
  : list FormField :=
  let input_regions :=
    Regions.detect_input_regions cv (Ocr.image_bytes page) in
  llm_loop page input_regions [] 0 raw_fields.

End Loop.

End LlmFilters.

(** ** translator.py *)

Module Translator.

Definition LANG_MAP : gmap string string :=
  <["zh" := "zh-CN"]> (<["ms" := "ms"]> (<["ta" := "ta"]>
    (<["en" := "en"]> ∅))).

(** The dictionary [_cache], from (text, target language) to the
    translation. *)
Abbreviation cache := (gmap (string * string) string).

(** [translate_text] on the cache, which it returns as it leaves it.
    [service dl_lang text] is what
    [GoogleTranslator(source="en", target=dl_lang).translate(text)]
    does at this call: [None] when it raises. *)
Definition translate_text (service : string → string → option string)
           (_cache : cache) (text target_lang : string) : string * cache :=
  if String.eqb target_lang "en" || negb (PyStr.truthy (PyStr.strip text))
  then (text, _cache)
  else
    let cache_key := (text, target_lang) in
    match _cache !! cache_key with
    | Some cached => (cached, _cache)
    | None =>
        let dl_lang := default target_lang (LANG_MAP !! target_lang) in
        match service dl_lang text with
        | Some result => (result, <[cache_key := result]> _cache)
        | None => (text, _cache)
        end
    end.

End Translator.

(** ** JSON values, as [json.loads] gives them *)

Module Json.

(** A number as parsed; [NotFinite] is NaN, Infinity or -Infinity. *)
Inductive number : Type :=
| Finite (q : Q)
| NotFinite.

#[local] Set Warnings "-register-all".
Inductive value : Type :=
| JNull
| JBool (b : bool)
| JNum (n : number)
| JStr (s : string)
| JArr (items : list value)
| JObj (members : list (string * value)).

(** [bool(v)] *)
Definition truthy (v : value) : bool :=
  match v with
  | JNull => false
  | JBool b => b
  | JNum (Finite q) => negb (Qeq_bool q 0)
  | JNum NotFinite => true
  | JStr s => PyStr.truthy s
  | JArr items => match items with [] => false | _ => true end
  | JObj members => match members with [] => false | _ => true end
  end.

(** Lists and dicts cannot be keys of a dict. *)
Definition hashable (v : value) : bool :=
  match v with
  | JArr _ | JObj _ => false
  | _ => true
  end.

(** The value under [key] in the dict of an object: of members with the
    same key the last one counts; [None] when there is none. *)
Definition get (members : list (string * value)) (key : string)
  : option value :=
  snd <$> List.find (λ kv, String.eqb (fst kv) key) (rev members).

End Json.

(** ** app.py: the route /validate

    A session is taken by the list [doc.fields], the only part of the
    document the route reads.  [body] is what
    [request.get_json(silent=True)] returns: [None] when the request
    holds no JSON that parses. *)

Module App.
Import Models Json.

(** [Error500] is the answer to an exception that the route does not
    catch. *)
Inductive response : Type :=
| Error404 (error : string)
| Error500
| Validation (valid : bool) (message confirmation : option string).

(** [data = request.get_json(silent=True) or {}], by the members of the
    dict; [None] when [data] is no dict, so that [data.get] raises
    AttributeError. *)
Definition request_data (body : option value)
  : option (list (string * value)) :=
  match body with
  | None => Some []
  | Some v =>
      if truthy v
      then match v with JObj members => Some members | _ => None end
      else Some []
  end.

(** [sessions.get(session_id)] for a hashable [session_id]: the keys of
    [sessions] are strings. *)
Definition session_of (sessions : gmap string (list FormField))
           (session_id : option value) : option (list FormField) :=
  match session_id with
  | Some (JStr s) => sessions !! s
  | _ => None
  end.

(** [next((f for f in doc.fields if f.field_id == field_id), None)] *)
Definition find_field (fields : list FormField) (field_id : option value)
  : option FormField :=
  match field_id with
  | Some (JStr field_id) =>
      List.find (λ f, String.eqb (Models.field_id f) field_id) fields
  | _ => None
  end.

Definition validate (sessions : gmap string (list FormField))
           (body : option value) : response :=
  match request_data body with
  | None => Error500
  | Some data =>
      let session_id := get data "session_id" in
      let field_id := get data "field_id" in
      let answer := default (JStr EmptyString) (get data "answer") in
      if negb (hashable (default JNull session_id))
      then Error500                  (* TypeError: unhashable type *)
      else
        match session_of sessions session_id with
        | None => Error404 "Session not found."
        | Some fields =>
            match find_field fields field_id with
            | None => Error404 "Field not found."
            | Some field =>
                match answer with
                | JStr answer =>
                    if required field
                       && negb (PyStr.truthy (PyStr.strip answer))
                    then Validation false (Some "This field is required.")
                                    None
                    else
                      let '(is_valid, error_msg) :=
                        Validators.validate_field (field_type field)
                                                  answer in
                      Validation
                        is_valid error_msg
                        (if is_valid && PyStr.truthy (PyStr.strip answer)
                         then Some ("You entered: " +:+ answer)
                         else None)
                | _ => Error500      (* AttributeError: no [strip] *)
                end
            end
        end
  end.

End App.

(** * Vocabulary of the properties *)

Section OrderVocabulary.
Import Models FieldOrdering.

(** Lexicographic [≤] on the keys. *)
Definition key_le (a b : Z * Z * Z) : Prop :=
  let '(a1, a2, a3) := a in
  let '(b1, b2, b3) := b in
  (a1 < b1 ∨ (a1 = b1 ∧ (a2 < b2 ∨ (a2 = b2 ∧ a3 ≤ b3))))%Z.

Definition by_key {A} (key : A → Z * Z * Z) (x y : A) : Prop :=
  key_le (key x) (key y).

(** Every adjacent pair of keys is in lexicographic [≤] order. *)
Definition nondecreasing (keys : list (Z * Z * Z)) : Prop :=
  ∀ i a b, keys !! i = Some a → keys !! S i = Some b → key_le a b.

(** The keys [(pageIndex, y1 div 20, x1)] a reader of the store sees. *)
Definition keys_of (h : store) (l : list ref) : list (Z * Z * Z) :=
  (λ f, sort_key (h !!! f)) <$> l.

Definition shared : FormField :=
  mkFormField "f007" 0 "Name" TEXT (130, 95, 400, 121)%Z
              (50, 100, 120, 120)%Z false (Q2Qc (9 # 10))
              EmptyString EmptyString.

Definition two_fields : store :=
  <[0 := mkFormField "llm000" 0 "Age" NUMBER (130, 140, 400, 160)%Z
                     (50, 140, 120, 160)%Z false (Q2Qc (7 # 10))
                     EmptyString EmptyString]>
    (<[1 := shared]> ∅).

End OrderVocabulary.

Section RegexVocabulary.

(** The continuation [k] yields [x] on some suffix no longer than [s]. *)
Definition reaches {R} (k : option ascii → string → option R) (s : string)
           (x : R) : Prop :=
  ∃ prev' s', k prev' s' = Some x ∧ (String.length s' ≤ String.length s)%nat.

End RegexVocabulary.

Section ClassifierVocabulary.
Import Models Re FieldDetector.

(** The priority order of the types. *)
Definition priority : list FieldType :=
  [TEXT; EMAIL; PHONE; DATE; NRIC; NUMBER].

(** The patterns a table lists under a type; none when it has no entry. *)
Definition patterns_in (table : list (FieldType * list regex))
           (t : FieldType) : list regex :=
  match List.find (λ e, bool_decide (e.1 = t)) table with
  | Some e => e.2
  | None => []
  end.

(** Some pattern of type [t] is found in [text]. *)
Definition matches_in (table : list (FieldType * list regex))
           (t : FieldType) (text : string) : bool :=
  existsb (λ pat, search true pat text) (patterns_in table t).

Definition matches (t : FieldType) (text : string) : bool :=
  matches_in LABEL_PATTERNS t text.

End ClassifierVocabulary.

Section PhoneVocabulary.
Import Re.

(** [s] without the characters of a class. *)
Fixpoint without (p : ascii → bool) (s : string) : string :=
  match s with
  | EmptyString => EmptyString
  | String c s' => if p c then without p s' else String c (without p s')
  end.

(** White space, dash, plus sign and parentheses. *)
Definition phone_ignored (c : ascii) : bool :=
  PyStr.isspace c || one_of "-+()" c.

(** What is left of the answer is all digits, 7 to 15 of them. *)
Definition phone_rule (answer : string) : bool :=
  let rest := without phone_ignored answer in
  PyStr.all_digits rest
  && (7 <=? String.length rest)%nat && (String.length rest <=? 15)%nat.

End PhoneVocabulary.

Section AssociatorVocabulary.
Import Models FieldDetector.

(** Same row: vertical centres less than 30 apart, candidate to the
    right of the label. *)
Definition same_row (label region : bbox) : bool :=
  let '(lx1, ly1, lx2, ly2) := label in
  let '(rx1, ry1, rx2, ry2) := region in
  Qltb (Qabs (center ry1 ry2 - center ly1 ly2)) 30 && (lx2 <? rx1)%Z.

(** Below: candidate top under the label bottom, left edges less than
    100 apart. *)
Definition below (label region : bbox) : bool :=
  let '(lx1, ly1, lx2, ly2) := label in
  let '(rx1, ry1, rx2, ry2) := region in
  (ly2 <? ry1)%Z && (Z.abs (rx1 - lx1) <? 100)%Z.

(** Horizontal gap [candidate.x1 − label.x2]. *)
Definition gap_right (label region : bbox) : Z :=
  let '(lx1, ly1, lx2, ly2) := label in
  let '(rx1, ry1, rx2, ry2) := region in
  (rx1 - lx2)%Z.

(** Vertical gap [candidate.y1 − label.y2]. *)
Definition gap_below (label region : bbox) : Z :=
  let '(lx1, ly1, lx2, ly2) := label in
  let '(rx1, ry1, rx2, ry2) := region in
  (ry1 - ly2)%Z.

(** The distance the loop measures a candidate by: the horizontal gap of
    a same-row candidate, the vertical gap of any other candidate that
    lies below, and none otherwise. *)
Definition region_distance (label region : bbox) : option Z :=
  if same_row label region then Some (gap_right label region)
  else if below label region then Some (gap_below label region)
  else None.

(** [regions !! i] is the first candidate of least distance, and that
    distance [d] is under [cap]. *)
Definition first_nearest (label : bbox) (regions : list bbox) (cap : Z)
           (i : nat) (c : bbox) (d : Z) : Prop :=
  regions !! i = Some c
  ∧ region_distance label c = Some d
  ∧ (d < cap)%Z
  ∧ ∀ j c' d', regions !! j = Some c' → region_distance label c' = Some d' →
      (d ≤ d')%Z ∧ (j < i → (d < d')%Z).

(** No candidate has a distance under [cap]. *)
Definition none_within (label : bbox) (regions : list bbox) (cap : Z) : Prop :=
  ∀ c d, c ∈ regions → region_distance label c = Some d → (cap ≤ d)%Z.



Definition box_x1 (b : bbox) : Z := b.1.1.1.
Definition box_y1 (b : bbox) : Z := b.1.1.2.
Definition box_x2 (b : bbox) : Z := b.1.2.
Definition box_y2 (b : bbox) : Z := b.2.

(** The label "Name:" of the specification's scenario, a box beside it
    and slightly lower, and a box under it. *)
Definition name_label : bbox := (50, 100, 120, 120)%Z.

(** A label that ends beyond 80% of a page 1000 wide. *)
Definition label_at_edge : bbox := (700, 100, 810, 120)%Z.

(** A page 2^51 + 3 wide, and a label on it whose right edge is 9 short
    of the floor of 80% of that width. *)
Definition wide_page : Z := (2 ^ 51 + 3)%Z.
Definition label_on_wide_page : bbox :=
  (1801439850948100, 100, 1801439850948191, 120)%Z.

End AssociatorVocabulary.

Section FusionVocabulary.
Import Models LlmExtractor.

Definition keys (l : list FormField) : list string := label_key <$> l.

(** [seen] maps every key to the one field of [merged] under it. *)
Definition indexed (merged : list FormField)
           (seen : gmap string FormField) : Prop :=
  ∀ k f, seen !! k = Some f ↔ f ∈ merged ∧ label_key f = k.

(** [merged] holds an entry under the key of [c] whose confidence is not
    below that of [c]. *)
Definition covers (merged : list FormField) (c : FormField) : Prop :=
  ∃ s, s ∈ merged ∧ label_key s = label_key c
       ∧ (confidence c ≤ confidence s)%Qc.

(** [merged] is the working list once the external fields [taken]
    have been gone through, from the heuristic list on. *)
Definition working (heuristic taken merged : list FormField) : Prop :=
  ∃ seen,
    merge_loop (heuristic, seen_of heuristic) taken = Some (merged, seen).

(** What going through the external field [e] makes of the working list
    [merged]: nothing when the key of [e] is empty; [e] at the end when no
    entry has its key; and when the entry [x] has it, [e] at the end in
    place of [x] if the confidence of [e] is strictly higher, and nothing
    otherwise. *)
Definition step_outcome (merged : list FormField) (e : FormField)
           (merged' : list FormField) : Prop :=
  (label_key e = EmptyString ∧ merged' = merged)
  ∨ (label_key e ≠ EmptyString
     ∧ (∀ x, x ∈ merged → label_key x ≠ label_key e)
     ∧ merged' = merged ++ [e])
  ∨ (label_key e ≠ EmptyString
     ∧ ∃ l1 x l2,
         merged = l1 ++ x :: l2 ∧ label_key x = label_key e
         ∧ (((confidence x < confidence e)%Qc
             ∧ merged' = (l1 ++ l2) ++ [e])
            ∨ ((confidence e ≤ confidence x)%Qc ∧ merged' = merged))).

Definition blank_heuristic : FormField :=
  mkFormField "f000" 0 EmptyString TEXT (130, 95, 400, 121)%Z
              (50, 100, 120, 120)%Z false (Q2Qc (1 # 2))
              EmptyString EmptyString.
Definition blank_external : FormField :=
  mkFormField "llm000" 0 "  " TEXT (130, 95, 400, 121)%Z
              (50, 100, 120, 120)%Z false (Q2Qc (9 # 10))
              EmptyString EmptyString.

Definition name_heuristic : FormField :=
  mkFormField "f000" 0 "Name" TEXT (130, 95, 400, 121)%Z
              (50, 100, 120, 120)%Z false (Q2Qc (1 # 2))
              EmptyString EmptyString.
Definition age_heuristic : FormField :=
  mkFormField "f001" 0 "Age" NUMBER (130, 135, 400, 161)%Z
              (50, 140, 120, 160)%Z false (Q2Qc (4 # 5))
              EmptyString EmptyString.
Definition name_external : FormField :=
  mkFormField "llm000" 0 " NAME" TEXT (130, 95, 400, 121)%Z
              (50, 100, 120, 120)%Z true (Q2Qc (9 # 10))
              EmptyString EmptyString.
Definition age_external : FormField :=
  mkFormField "llm001" 0 "age" NUMBER (130, 135, 400, 161)%Z
              (50, 140, 120, 160)%Z true (Q2Qc (4 # 5))
              EmptyString EmptyString.

(** A second external field under the key of [name_external], of lower
    confidence than it and of higher confidence than [name_heuristic]. *)
Definition name_external_low : FormField :=
  mkFormField "llm002" 0 "name " TEXT (130, 95, 400, 121)%Z
              (50, 100, 120, 120)%Z false (Q2Qc (7 # 10))
              EmptyString EmptyString.

End FusionVocabulary.

Section LinesVocabulary.
Import Ocr Lines.

(** [x] is not after [y] in the order of the keys. *)
Definition le_key {A K} (lt : K → K → bool) (key : A → K) (x y : A) : Prop :=
  lt (key y) (key x) = false.

(** The (block, line) key of a block. *)
Definition line_key (b : OcrBlock) : Z * Z := (block_num b, line_num b).

Definition is_word (b : OcrBlock) : Prop := level b = 5%Z.

(** The words of a list of blocks that carry the line key [k]. *)
Definition words_of (k : Z * Z) (blocks : list OcrBlock) : list OcrBlock :=
  filter (λ b, is_word b ∧ line_key b = k) blocks.

(** The keys of the dictionary of lines, sorted. *)
Definition line_keys (blocks : list OcrBlock) : list (Z * Z) :=
  PySort.sorted PySort.pair_lt id (map_to_list (lines_dict_of blocks)).*1.

(** A box with its corners in order. *)
Definition well_formed (b : Models.bbox) : Prop :=
  (box_x1 b ≤ box_x2 b ∧ box_y1 b ≤ box_y2 b)%Z.

(** Box [a] lies within box [b]. *)
Definition within (a b : Models.bbox) : Prop :=
  (box_x1 b ≤ box_x1 a ∧ box_y1 b ≤ box_y1 a
   ∧ box_x2 a ≤ box_x2 b ∧ box_y2 a ≤ box_y2 b)%Z.

End LinesVocabulary.

Section RegionsVocabulary.

(** A band 25 high over an underline. *)
Definition underline_shaped (r : Models.bbox) : Prop :=
  (box_x1 r ≤ box_x2 r ∧ box_y2 r - box_y1 r = 25)%Z.

(** A box more than 80 wide, between 16 and 79 high, and more than twice
    as wide as high. *)
Definition box_shaped (r : Models.bbox) : Prop :=
  (80 < box_x2 r - box_x1 r
   ∧ 15 < box_y2 r - box_y1 r < 80
   ∧ 2 * (box_y2 r - box_y1 r) < box_x2 r - box_x1 r)%Z.

End RegionsVocabulary.

Section DetectVocabulary.
Import Models.

(** The text of a line: its words joined by single spaces. *)
Definition line_text (line : list Ocr.OcrBlock) : string :=
  Detect.join " " (Ocr.text <$> line).

(** The line is classified as a label. *)
Definition classified (line : list Ocr.OcrBlock) : Prop :=
  is_Some (FieldDetector.classify_label (line_text line)).

(** Field [f] carries what [detect_fields] reads off the line. *)
Definition from_line (round_mean : list Qc → Qc) (page : Ocr.PageData)
           (input_regions : list bbox) (line : list Ocr.OcrBlock)
           (f : FormField) : Prop :=
  FieldDetector.classify_label (line_text line) = Some (field_type f)
  ∧ label_text f = FieldDetector.clean_label (line_text line)
  ∧ required f = FieldDetector.is_required (line_text line)
  ∧ Lines.merge_bboxes (Ocr.bbox <$> line) = Some (label_bbox f)
  ∧ target_bbox f
    = FieldDetector.target_region (label_bbox f) input_regions
                                  (Ocr.width page)
  ∧ page_index f = Ocr.page_index page
  ∧ confidence f = round_mean (Ocr.confidence <$> line)
  ∧ answer f = EmptyString.

End DetectVocabulary.

Section DetectExamples.

Definition word_at (t : string) (x y : Z) (block line : Z) : Ocr.OcrBlock :=
  Ocr.mkOcrBlock t (x, y, x + 40, y + 20)%Z (Q2Qc (9 # 10)) 5 block line 1.

(** A page with the lines "Full Name:", "hello" and "Age". *)
Definition sample_page : Ocr.PageData :=
  Ocr.mkPageData 0 "png" 1000 1400
                 [ word_at "Name:" 100 100 1 1; word_at "Full" 50 100 1 1;
                   word_at "hello" 50 200 1 2; word_at "Age" 50 300 2 1 ]
                 300.

(** An underline beside the first line and a box under the last. *)
Definition sample_cv (image_bytes : string) : Regions.CvResult :=
  Some (Some [(150, 121, 400, 120)%Z], [(50, 330, 200, 30)%Z]).

Definition sample_mean (cs : list Qc) : Qc := Q2Qc (9 # 10).

Definition sample_fields : list Models.FormField :=
  [ Models.mkFormField "f000" 0 "Full Name" Models.TEXT
                       (150, 96, 400, 121)%Z (50, 100, 140, 120)%Z false
                       (Q2Qc (9 # 10)) EmptyString EmptyString;
    Models.mkFormField "f001" 0 "Age" Models.NUMBER
                       (50, 330, 250, 360)%Z (50, 300, 90, 320)%Z false
                       (Q2Qc (9 # 10)) EmptyString EmptyString ].

End DetectExamples.

Section StringVocabulary.

(** The string is empty or starts with a character that is no white
    space. *)
Definition no_lead_space (s : string) : Prop :=
  match s with
  | EmptyString => True
  | String c _ => PyStr.isspace c = false
  end.

(** Every character of the string is in the class. *)
Fixpoint all_chars (p : ascii → bool) (s : string) : bool :=
  match s with
  | EmptyString => true
  | String c s' => p c && all_chars p s'
  end.

(** Some character of the string is in the class. *)
Fixpoint has_char (p : ascii → bool) (s : string) : bool :=
  match s with
  | EmptyString => false
  | String c s' => p c || has_char p s'
  end.

(** A digit, or one of the separators that the NUMBER check drops. *)
Definition number_char (c : ascii) : bool :=
  PyStr.isdigit_char c || Re.one_of ".-," c.

End StringVocabulary.

Section LlmVocabulary.
Import Models LlmFilters.

(** [z] is an integer nearest to [v]. *)
Definition nearest_int (v : Q) (z : Z) : Prop :=
  (Qabs (inject_Z z - v) <= 1 # 2)%Q.

(** The identifier given to the item at position [idx]. *)
Definition llm_id (idx : nat) : string :=
  "llm" +:+ FieldOrdering.format_03d idx.

(** The field [f] is the one read from [item], the item at position
    [idx] of the list the service returned. *)
Definition from_item (round2 : Q → Qc) (page : Ocr.PageData)
           (input_regions : list bbox) (idx : nat) (item : RawItem)
           (f : FormField) : Prop :=
  f = mkFormField
        (llm_id idx) (Ocr.page_index page)
        (FieldDetector.clean_label
           (PyStr.strip (default EmptyString (raw_label_text item))))
        (_field_type_from_value (default "text" (raw_field_type item)))
        (FieldDetector.target_region
           (_as_int_bbox (default [] (raw_label_bbox item)))
           input_regions (Ocr.width page))
        (_as_int_bbox (default [] (raw_label_bbox item)))
        (default false (raw_required item)
         || FieldDetector.is_required
              (FieldDetector.clean_label
                 (PyStr.strip (default EmptyString (raw_label_text item)))))
        (round2 (default float_0_7 (raw_confidence item)))
        EmptyString EmptyString.

(** The label passes the filters of the loop. *)
Definition label_kept (stop_labels : gset string) (label : string) : Prop :=
  label ≠ EmptyString
  ∧ PyStr.strip label = label
  ∧ (PyStr.lower label ∉ stop_labels)
  ∧ _looks_like_instruction label = false.

(** What the loop requires of a field to keep it: a label that passes
    the filters, a label box that is not the zero box, and a target that
    was detected, or else was inferred for a label that classifies. *)
Definition item_kept (stop_labels : gset string) (page : Ocr.PageData)
           (input_regions : list bbox) (f : FormField) : Prop :=
  label_kept stop_labels (label_text f)
  ∧ label_bbox f ≠ (0, 0, 0, 0)%Z
  ∧ (target_bbox f ∈ input_regions
     ∨ (none_within (label_bbox f) input_regions 200
        ∧ target_bbox f
          = FieldDetector.infer_answer_region (label_bbox f)
                                              (Ocr.width page)
        ∧ is_Some (FieldDetector.classify_label (label_text f)))).

(** The positions [idxs] are those of [raw_fields] from which the fields
    [fields] were read, one each, in order. *)
Definition read_from (round2 : Q → Qc) (page : Ocr.PageData)
           (input_regions : list bbox) (raw_fields : list RawItem)
           (idxs : list nat) (fields : list FormField) : Prop :=
  Forall2 (λ idx f, ∃ item, raw_fields !! idx = Some item
                            ∧ from_item round2 page input_regions idx item f)
          idxs fields.

(** The number of maximal runs of characters that are no white space;
    [in_word] tells whether the character before was one of a run. *)
Fixpoint words_from (in_word : bool) (s : string) : nat :=
  match s with
  | EmptyString => 0
  | String c s' =>
      if PyStr.isspace c then words_from false s'
      else (if in_word then 0 else 1) + words_from true s'
  end.

Definition words (s : string) : nat := words_from false s.

(** The string without its leading characters of the class. *)
Fixpoint skip (p : ascii → bool) (s : string) : string :=
  match s with
  | EmptyString => EmptyString
  | String c s' => if p c then skip p s' else s
  end.

Definition is_Some_b {A} (a : option A) : bool :=
  match a with Some _ => true | None => false end.

(** The last character of [w], or [prev] when [w] is empty. *)
Fixpoint last_char (prev : option ascii) (w : string) : option ascii :=
  match w with
  | EmptyString => prev
  | String c w' => last_char (Some c) w'
  end.

(** What is left of [s] after its prefix [w], when [w] is one. *)
Fixpoint after_prefix (w s : string) : option string :=
  match w with
  | EmptyString => Some s
  | String a w' =>
      match s with
      | String b s' => if Ascii.eqb a b then after_prefix w' s' else None
      | EmptyString => None
      end
  end.

(** [s] starts with the word [w]: with its characters, and no word
    character follows them. *)
Definition starts_with_word (w s : string) : bool :=
  match after_prefix w s with
  | Some rest => negb (Re.word_after rest)
  | None => false
  end.

(** [_looks_like_instruction] in terms of the number of words. *)
Definition instruction_like (t : string) : bool :=
  ((9 <=? words t)%nat && negb (char_in ":" t) && negb (char_in "_" t))
  || ((6 <=? words t)%nat
      && (endswith "." t
          || (char_in "," t && negb (char_in "_" t))
          || existsb (λ w, starts_with_word w t)
                     ["The"; "This"; "These"; "Those"])).

Definition sample_item : RawItem :=
  mkRawItem (Some " Full  Name: ") (Some "text")
            (Some [50 # 1; 199 # 2; 281 # 2; 120 # 1]) None None.

Definition sample_round2 (q : Q) : Qc := Q2Qc q.

End LlmVocabulary.

Section CleanVocabulary.

(** The first success of [k] after a run of characters of the class,
    the longest run tried first. *)
Fixpoint greedy {R} (p : ascii → bool)
         (k : option ascii → string → option R) (prev : option ascii)
         (s : string) : option R :=
  match s with
  | String x s' =>
      if p x then Re.orelse (greedy p k (Some x) s') (k prev s)
      else k prev s
  | EmptyString => k prev s
  end.

(** Every maximal run of white space replaced by one space; [in_run]
    tells whether the character before was white space. *)
Fixpoint collapse (in_run : bool) (s : string) : string :=
  match s with
  | EmptyString => EmptyString
  | String c s' =>
      if PyStr.isspace c
      then if in_run then collapse true s' else String " " (collapse true s')
      else String c (collapse false s')
  end.

(** The string without its final run of characters of the class; a run
    is final when it ends the string, or stands before a newline that
    ends it. *)
Fixpoint without_final (p : ascii → bool) (s : string) : string :=
  match s with
  | EmptyString => EmptyString
  | String c s' =>
      if p c && Re.at_end (skip p s') then skip p s'
      else String c (without_final p s')
  end.

(** No white space but single spaces between other characters;
    [after_space] tells whether the character before was a space, or
    there was none. *)
Fixpoint spaced (after_space : bool) (s : string) : bool :=
  match s with
  | EmptyString => negb after_space
  | String c s' =>
      if PyStr.isspace c
      then Ascii.eqb c " " && negb after_space && spaced true s'
      else spaced false s'
  end.

(** As [spaced], but the string may end in a space. *)
Fixpoint spaces_single (after_space : bool) (s : string) : bool :=
  match s with
  | EmptyString => true
  | String c s' =>
      if PyStr.isspace c
      then Ascii.eqb c " " && negb after_space && spaces_single true s'
      else spaces_single false s'
  end.

Definition single_spaced (s : string) : bool :=
  match s with EmptyString => true | _ => spaced true s end.

(** The last character of the string is of the class. *)
Fixpoint ends_in (p : ascii → bool) (s : string) : bool :=
  match s with
  | EmptyString => false
  | String c EmptyString => p c
  | String _ s' => ends_in p s'
  end.

End CleanVocabulary.

Section ServiceExamples.

(** A translation service that answers, and one that is down. *)
Definition sample_service (dl_lang text : string) : option string :=
  Some (dl_lang +:+ ":" +:+ text).

Definition service_down (dl_lang text : string) : option string := None.

Definition sample_sessions : gmap string (list Models.FormField) :=
  {[ "s1" := sample_fields ]}.

(** A request for the field "f001" of the session "s1" whose answer is
    a number, not a string. *)
Definition number_answer : Json.value :=
  Json.JObj [("session_id", Json.JStr "s1"); ("field_id", Json.JStr "f001");
             ("answer", Json.JNum (Json.Finite 12))].

End ServiceExamples.

Section ShapeVocabulary.

(** The number of leading characters of the class. *)
Fixpoint run_length (p : ascii → bool) (s : string) : nat :=
  match s with
  | EmptyString => 0
  | String c s' => if p c then S (run_length p s') else 0
  end.

(** What follows the leading run of the class, when the run has between
    [lo] and [hi] characters. *)
Definition run_then (p : ascii → bool) (lo hi : nat) (s : string)
  : option string :=
  if (lo <=? run_length p s)%nat && (run_length p s <=? hi)%nat
  then Some (skip p s) else None.

(** What follows the first character, when it is of the class. *)
Definition char_then (q : ascii → bool) (s : string) : option string :=
  match s with
  | String x s' => if q x then Some s' else None
  | EmptyString => None
  end.

(** Digits, a separator, digits, a separator, digits, and then [fin];
    the three runs of digits are as long as the bounds say. *)
Definition date_order (fin : string → bool) (lo1 hi1 lo2 hi2 lo3 hi3 : nat)
           (s : string) : bool :=
  match
    ((((run_then PyStr.isdecimal lo1 hi1 s
        ≫= char_then (Re.one_of "/-"))
       ≫= run_then PyStr.isdecimal lo2 hi2)
      ≫= char_then (Re.one_of "/-"))
     ≫= run_then PyStr.isdecimal lo3 hi3)
  with
  | Some rest => fin rest
  | None => false
  end.

Definition is_empty (s : string) : bool := negb (PyStr.truthy s).

(** D/M/Y with one or two digits for day and month and two to four for
    the year, or Y/M/D with four digits for the year; the separators are
    "/" or "-", each on its own. *)
Definition date_like (s : string) : bool :=
  date_order is_empty 1 2 1 2 2 4 s || date_order is_empty 4 4 1 2 1 2 s.

(** One of the letters S, T, F, G, M, seven decimal digits, a letter A
    to Z, and then the end as [$] takes it: nothing more, or one newline
    and nothing more. *)
Definition nric_shape (u : string) : bool :=
  match
    (char_then (Re.one_of "STFGM") u ≫= run_then PyStr.isdecimal 7 7)
    ≫= char_then (PyStr.in_range 65 90)
  with
  | Some rest => Re.at_end rest
  | None => false
  end.

(** [test] holds of the string, or of what is left of it after some of
    its leading characters of the class. *)
Fixpoint any_split (p : ascii → bool) (test : string → bool) (s : string)
  : bool :=
  test s
  || match s with
     | String x s' => p x && any_split p test s'
     | EmptyString => false
     end.

(** A character that is neither "@" nor white space. *)
Definition mail_char (c : ascii) : bool :=
  negb (Re.one_of "@" c || PyStr.isspace c).

(** A "." , a character of the class, and then only characters of the
    class up to [fin]. *)
Definition dot_tail (fin : string → bool) (t : string) : bool :=
  match char_then (Ascii.eqb ".") t ≫= char_then mail_char with
  | Some rest => fin (skip mail_char rest)
  | None => false
  end.

(** Some "." of the string has a character after it. *)
Fixpoint dot_not_last (t : string) : bool :=
  match t with
  | EmptyString => false
  | String c t' => (Ascii.eqb c "." && PyStr.truthy t') || dot_not_last t'
  end.

(** Some "." of the string is neither its first nor its last
    character. *)
Definition has_mid_dot (d : string) : bool :=
  match d with
  | EmptyString => false
  | String _ d' => dot_not_last d'
  end.

(** local@domain: neither part has an "@" or white space, the local
    part is not empty, and the domain has a "." that is neither its
    first nor its last character. *)
Definition email_like (s : string) : bool :=
  match
    run_then mail_char 1 (String.length s) s ≫= char_then (Ascii.eqb "@")
  with
  | Some domain => all_chars mail_char domain && has_mid_dot domain
  | None => false
  end.

End ShapeVocabulary.

Section RequiredVocabulary.

(** [test] holds at some position of the string: of the character
    before the position and of what follows it. *)
Fixpoint occurs (test : option ascii → string → bool)
         (prev : option ascii) (s : string) : bool :=
  test prev s
  || match s with
     | String c s' => occurs test (Some c) s'
     | EmptyString => false
     end.

(** What is left of [s] after its prefix [w], compared without regard
    to case, and the last character read. *)
Fixpoint after_prefix_ci (w : string) (prev : option ascii) (s : string)
  : option (option ascii * string) :=
  match w with
  | EmptyString => Some (prev, s)
  | String a w' =>
      match s with
      | String x s' =>
          if Re.lit_match true a x then after_prefix_ci w' (Some x) s'
          else None
      | EmptyString => None
      end
  end.

(** The word [w] stands here, in any case, with no word character
    before it or after it. *)
Definition word_here (w : string) (prev : option ascii) (s : string)
  : bool :=
  negb (Re.word_before prev)
  && match after_prefix_ci w prev s with
     | Some (_, rest) => negb (Re.word_after rest)
     | None => false
     end.

Definition required_like (s : string) : bool :=
  has_char (Ascii.eqb "*") s
  || occurs (word_here "required") None s
  || occurs (word_here "mandatory") None s.

End RequiredVocabulary.

(** * Lemmas *)

(** ** The matcher consumes, and the fuel of [sub] is enough *)

Section RegexFuel.
Import Re.
Context {R : Type} (icase : bool).

Lemma orelse_some (a b : option R) (x : R) :
  orelse a b = Some x → a = Some x ∨ (a = None ∧ b = Some x).
Proof. destruct a; simpl; auto. Qed.

Lemma star_loop_reaches
      (body : option ascii → string →
              (option ascii → string → option R) → option R)
      (k : option ascii → string → option R) (n : nat) :
  (∀ prev s k' x, body prev s k' = Some x → reaches k' s x) →
  ∀ prev s x, star_loop body k n prev s = Some x → reaches k s x.
Proof.
  intros Hbody. induction n as [|n IH]; intros prev s x H;
    cbn [star_loop] in H; apply orelse_some in H as [H|[_ H]].
  - done.
  - by exists prev, s.
  - apply Hbody in H as (prev' & s' & H & Hlen).
    destruct (Nat.ltb_spec (String.length s') (String.length s)); [|done].
    apply IH in H as (prev'' & s'' & H & Hlen').
    exists prev'', s''. split; [done|lia].
  - by exists prev, s.
Qed.

Lemma exec_reaches (r : regex) :
  ∀ prev s (k : option ascii → string → option R) x,
    exec icase r prev s k = Some x → reaches k s x.
Proof.
  induction r as [|p|p|r1 IH1 r2 IH2|r1 IH1 r2 IH2|r1 IH1| | |];
    intros prev s k x H; cbn [exec] in H.
  - by exists prev, s.
  - destruct s as [|c s]; [done|]. destruct (lit_match icase p c); [|done].
    exists (Some c), s. split; [done|]. simpl. lia.
  - destruct s as [|c s]; [done|]. destruct (p c); [|done].
    exists (Some c), s. split; [done|]. simpl. lia.
  - apply IH1 in H as (prev1 & s1 & H & Hlen1).
    apply IH2 in H as (prev2 & s2 & H & Hlen2).
    exists prev2, s2. split; [done|lia].
  - apply orelse_some in H as [H|[_ H]]; [by apply IH1 in H|by apply IH2 in H].
  - by apply (star_loop_reaches _ _ _ IH1) in H.
  - destruct prev; [done|]. by exists None, s.
  - destruct (at_end s); [|done]. by exists prev, s.
  - destruct (xorb _ _); [|done]. by exists prev, s.
Qed.

End RegexFuel.

Section SubFuel.
Import Re.

Lemma match_here_length (icase : bool) (r : regex) (prev : option ascii)
      (s rest : string) :
  match_here icase r prev s = Some rest →
  (String.length rest ≤ String.length s)%nat.
Proof.
  intros H. apply exec_reaches in H as (prev' & s' & [= <-] & Hlen). done.
Qed.

(** Any fuel above the length of the subject gives the same result. *)
Lemma sub_from_fuel (icase : bool) (r : regex) (repl : string)
      (fuel1 fuel2 : nat) :
  ∀ prev s,
    String.length s < fuel1 → String.length s < fuel2 →
    sub_from fuel1 icase r repl prev s = sub_from fuel2 icase r repl prev s.
Proof.
  revert fuel2. induction fuel1 as [|fuel1 IH]; intros fuel2 prev s H1 H2;
    [lia|].
  destruct fuel2 as [|fuel2]; [lia|]. cbn [sub_from].
  destruct (match_here icase r prev s) as [rest|] eqn:Hm.
  - destruct (Nat.ltb_spec (String.length rest) (String.length s)).
    + f_equal. apply IH; lia.
    + destruct s as [|c s]; [done|]. simpl in H1, H2.
      do 2 f_equal. apply IH; lia.
  - destruct s as [|c s]; [done|]. simpl in H1, H2.
    f_equal. apply IH; lia.
Qed.

End SubFuel.

(** ** Sorting by key *)

Section SortBy.
Import FieldOrdering.
Context {A : Type} (key : A → Z * Z * Z).

Lemma key_lt_false (a b : Z * Z * Z) : key_lt b a = false ↔ key_le a b.
Proof.
  destruct a as [[a1 a2] a3], b as [[b1 b2] b3]. unfold key_lt, key_le.
  destruct (Z.ltb_spec b1 a1), (Z.eqb_spec b1 a1), (Z.ltb_spec b2 a2),
    (Z.eqb_spec b2 a2), (Z.ltb_spec b3 a3); simpl; split; intros; try lia;
    try discriminate; try reflexivity.
Qed.

Lemma key_lt_true (a b : Z * Z * Z) : key_lt a b = true → key_le a b.
Proof.
  destruct a as [[a1 a2] a3], b as [[b1 b2] b3]. unfold key_lt, key_le.
  destruct (Z.ltb_spec a1 b1), (Z.eqb_spec a1 b1), (Z.ltb_spec a2 b2),
    (Z.eqb_spec a2 b2), (Z.ltb_spec a3 b3); simpl; intros; try lia;
    try discriminate.
Qed.

Lemma key_le_trans (a b c : Z * Z * Z) : key_le a b → key_le b c → key_le a c.
Proof.
  destruct a as [[a1 a2] a3], b as [[b1 b2] b3], c as [[c1 c2] c3].
  unfold key_le. lia.
Qed.

Lemma insert_by_perm (x : A) (l : list A) : insert_by key x l ≡ₚ x :: l.
Proof.
  induction l as [|y l IH]; simpl; [done|].
  destruct (key_lt (key y) (key x)); [|done].
  rewrite IH. apply perm_swap.
Qed.

Lemma sorted_perm (l : list A) : sorted key l ≡ₚ l.
Proof.
  induction l as [|x l IH]; simpl; [done|].
  rewrite insert_by_perm. by f_equiv.
Qed.

Lemma insert_by_hdrel (a x : A) (l : list A) :
  by_key key a x → HdRel (by_key key) a l →
  HdRel (by_key key) a (insert_by key x l).
Proof.
  intros Hax Hl. destruct l as [|y l]; simpl; [by constructor|].
  destruct (key_lt (key y) (key x)); constructor; [|done].
  by inversion Hl.
Qed.

Lemma insert_by_sorted (x : A) (l : list A) :
  Sorted (by_key key) l → Sorted (by_key key) (insert_by key x l).
Proof.
  induction 1 as [|y l Hs IH Hhd]; simpl.
  - repeat constructor.
  - destruct (key_lt (key y) (key x)) eqn:Hlt.
    + constructor; [done|].
      apply insert_by_hdrel; [|done]. by apply key_lt_true.
    + constructor; [by constructor|].
      constructor. by apply key_lt_false.
Qed.

Lemma sorted_Sorted (l : list A) : Sorted (by_key key) (sorted key l).
Proof.
  induction l as [|x l IH]; simpl; [constructor|].
  by apply insert_by_sorted.
Qed.

Lemma Sorted_adjacent (R : A → A → Prop) (l : list A) (i : nat) (x y : A) :
  Sorted R l → l !! i = Some x → l !! S i = Some y → R x y.
Proof.
  intros Hs. revert i. induction Hs as [|a l Hs IH Hhd]; intros i Hx Hy.
  - done.
  - destruct i as [|i]; simpl in *.
    + injection Hx as ->. destruct l as [|b l]; [done|].
      simpl in Hy. injection Hy as ->. by inversion Hhd.
    + by apply (IH i).
Qed.

(** The sort is stable: the elements of any one key come out in the
    order they went in. *)
Lemma insert_by_filter (k : Z * Z * Z) (x : A) (l : list A) :
  Sorted (by_key key) l →
  filter (λ y, key y = k) (insert_by key x l)
  = filter (λ y, key y = k) (x :: l).
Proof.
  induction 1 as [|y l Hs IH Hhd]; simpl; [done|].
  destruct (key_lt (key y) (key x)) eqn:Hlt; [|done].
  rewrite !filter_cons in *.
  destruct (decide (key y = k)) as [Hy|Hy], (decide (key x = k)) as [Hx|Hx];
    try (rewrite IH; done).
  rewrite Hx, <- Hy in Hlt.
  assert (key_lt (key y) (key y) = false) as Hirr
      by (apply key_lt_false; destruct (key y) as [[? ?] ?]; simpl; lia).
  congruence.
Qed.

Lemma sorted_stable (k : Z * Z * Z) (l : list A) :
  filter (λ y, key y = k) (sorted key l) = filter (λ y, key y = k) l.
Proof.
  induction l as [|x l IH]; simpl; [done|].
  rewrite insert_by_filter by apply sorted_Sorted.
  rewrite !filter_cons. by rewrite IH.
Qed.

End SortBy.

(** ** Identifiers *)

Section Identifiers.
Import FieldOrdering.

Lemma of_uint_iter_D0 (n : nat) (d : uint) :
  Nat.of_uint (Nat.iter n D0 d) = Nat.of_uint d.
Proof. induction n as [|n IH]; simpl; [done|]. exact IH. Qed.

Lemma format_03d_inj (i j : nat) : format_03d i = format_03d j → i = j.
Proof.
  unfold format_03d, zero_pad. intros H.
  assert (Some (Nat.iter (3 - nb_digits (Nat.to_uint i)) D0 (Nat.to_uint i))
          = Some (Nat.iter (3 - nb_digits (Nat.to_uint j)) D0 (Nat.to_uint j)))
    as Hd by (rewrite <- !NilEmpty.usu; by rewrite H).
  injection Hd as Hd. apply (f_equal Nat.of_uint) in Hd.
  by rewrite !of_uint_iter_D0, !Unsigned.of_to in Hd.
Qed.

Lemma new_id_inj (i j : nat) : new_id i = new_id j → i = j.
Proof. unfold new_id. intros H. apply format_03d_inj. by injection H. Qed.

Lemma new_ids_NoDup (i n : nat) : NoDup (new_id <$> seq i n).
Proof.
  apply NoDup_fmap_2; [|apply NoDup_seq].
  intros a b. apply new_id_inj.
Qed.

Example new_id_examples :
  new_id <$> [0; 1; 2; 10; 99; 100; 999; 1000]
  = ["f000"; "f001"; "f002"; "f010"; "f099"; "f100"; "f999"; "f1000"].
Proof. reflexivity. Qed.

End Identifiers.

(** ** The store under [assign_ids] *)

Section AssignIds.
Import Models FieldOrdering.

Lemma set_field_id_twice (v w : string) (f : FormField) :
  set_field_id v (set_field_id w f) = set_field_id v f.
Proof. done. Qed.

Lemma set_field_id_same (f : FormField) : set_field_id (field_id f) f = f.
Proof. by destruct f. Qed.

Lemma sort_key_set_field_id (v : string) (f : FormField) :
  sort_key (set_field_id v f) = sort_key f.
Proof. done. Qed.

Lemma assign_ids_notin (h : store) (i : nat) (l : list ref) (r : ref) :
  r ∉ l → assign_ids h i l !! r = h !! r.
Proof.
  revert h i. induction l as [|a l IH]; intros h i Hr; simpl; [done|].
  apply not_elem_of_cons in Hr as [Hne Hr].
  rewrite IH by done. by rewrite lookup_alter_ne.
Qed.

(** Every object keeps all its attributes but [field_id]. *)
Lemma assign_ids_frame (h : store) (i : nat) (l : list ref) (r : ref) :
  ∃ v, assign_ids h i l !! r = set_field_id v <$> h !! r.
Proof.
  revert h i. induction l as [|a l IH]; intros h i; simpl.
  - destruct (h !! r) as [f|] eqn:Hf; [|by exists EmptyString].
    exists (field_id f). simpl. by rewrite set_field_id_same.
  - destruct (IH (alter (set_field_id (new_id i)) a h) (S i)) as [v Hv].
    exists v. rewrite Hv. destruct (decide (a = r)) as [->|Hne].
    + rewrite lookup_alter_eq. by destruct (h !! r).
    + by rewrite lookup_alter_ne.
Qed.

(** The identifier of an object is the one of its last position. *)
Lemma assign_ids_last (h : store) (i : nat) (l : list ref) (j : nat) (r : ref) :
  l !! j = Some r → (∀ j', j < j' → l !! j' ≠ Some r) →
  assign_ids h i l !! r = set_field_id (new_id (i + j)) <$> h !! r.
Proof.
  revert h i j. induction l as [|a l IH]; intros h i j Hj Hlast; [done|].
  simpl. destruct j as [|j]; simpl in Hj.
  - injection Hj as ->. rewrite assign_ids_notin.
    + rewrite lookup_alter_eq. by rewrite Nat.add_0_r.
    + intros [k Hk]%list_elem_of_lookup. by apply (Hlast (S k)); [lia|].
  - rewrite (IH _ (S i) j Hj).
    + replace (S i + j) with (i + S j) by lia.
      destruct (decide (a = r)) as [->|Hne].
      * rewrite lookup_alter_eq. by destruct (h !! r).
      * by rewrite lookup_alter_ne.
    + intros j' Hlt. apply (Hlast (S j')). lia.
Qed.

Lemma assign_ids_dom (h : store) (i : nat) (l : list ref) :
  dom (assign_ids h i l) = dom h.
Proof.
  revert h i. induction l as [|a l IH]; intros h i; simpl; [done|].
  rewrite IH. apply dom_alter_L.
Qed.

Lemma assign_ids_total (h : store) (i : nat) (l : list ref) (r : ref) :
  sort_key (assign_ids h i l !!! r) = sort_key (h !!! r).
Proof.
  destruct (assign_ids_frame h i l r) as [v Hv].
  rewrite !lookup_total_alt, Hv. by destruct (h !! r).
Qed.

Lemma NoDup_last {A} (l : list A) (j : nat) (x : A) :
  NoDup l → l !! j = Some x → ∀ j', j < j' → l !! j' ≠ Some x.
Proof.
  intros Hnd Hj j' Hlt Hj'.
  pose proof (NoDup_lookup l j j' x Hnd Hj Hj'). lia.
Qed.

Lemma last_position {A} `{EqDecision A} (l : list A) (x : A) :
  x ∈ l → ∃ j, l !! j = Some x ∧ ∀ j', j < j' → l !! j' ≠ Some x.
Proof.
  induction l as [|a l IH]; intros Hx; [by apply elem_of_nil in Hx|].
  destruct (decide (x ∈ l)) as [Hin|Hnin].
  - destruct (IH Hin) as (j & Hj & Hlast). exists (S j). split; [done|].
    intros [|j'] Hlt; [lia|]. simpl. apply Hlast. lia.
  - apply elem_of_cons in Hx as [->|?]; [|done]. exists 0. split; [done|].
    intros [|j'] Hlt; [lia|]. simpl. intros Hj'.
    apply Hnin. by eapply list_elem_of_lookup_2.
Qed.

Lemma assign_ids_ids (h : store) (i : nat) (l : list ref) :
  NoDup l → (∀ r, r ∈ l → is_Some (h !! r)) →
  ids_of (assign_ids h i l) l = new_id <$> seq i (length l).
Proof.
  intros Hnd Hwf. unfold ids_of. apply list_eq. intros j.
  rewrite !list_lookup_fmap. destruct (l !! j) as [r|] eqn:Hj; simpl.
  - rewrite lookup_seq_lt by (by eapply lookup_lt_Some). simpl.
    rewrite lookup_total_alt.
    rewrite (assign_ids_last h i l j r Hj) by (by eapply NoDup_last).
    destruct (Hwf r) as [f Hf]; [by eapply list_elem_of_lookup_2|].
    by rewrite Hf.
  - rewrite lookup_seq_ge; [done|]. by apply lookup_ge_None.
Qed.

End AssignIds.

(** ** The Field Orderer *)

Section OrderFields.
Import Models FieldOrdering.

Lemma order_fields_keys (h : store) (fields : list ref) :
  nondecreasing (keys_of (order_fields h fields).1 (order_fields h fields).2).
Proof.
  unfold order_fields, keys_of; simpl. intros i a b Ha Hb.
  rewrite list_lookup_fmap in Ha, Hb.
  destruct (sorted _ fields !! i) as [x|] eqn:Hx; [|done].
  destruct (sorted _ fields !! S i) as [y|] eqn:Hy; [|done].
  simpl in Ha, Hb. injection Ha as <-. injection Hb as <-.
  rewrite !assign_ids_total.
  exact (Sorted_adjacent _ _ i x y (sorted_Sorted _ fields) Hx Hy).
Qed.

End OrderFields.

(** C1, as stated, fails on a list that holds one object twice: the loop
    assigns to that object once per position, and both positions then read
    the identifier assigned last. *)
Lemma order_fields_same_object_twice :
  let h := {[ 0 := shared ]} : gmap nat Models.FormField in
  let h' := (FieldOrdering.order_fields h [0; 0]).1 in
  let out := (FieldOrdering.order_fields h [0; 0]).2 in
  out = [0; 0]
  ∧ FieldOrdering.ids_of h' out = ["f001"; "f001"]
  ∧ FieldOrdering.ids_of h' out ≠ ["f000"; "f001"]
  ∧ ¬ NoDup (FieldOrdering.ids_of h' out).
Proof.
  split; [reflexivity|]. split; [reflexivity|]. split; [by vm_compute|].
  intros Hnd. apply NoDup_cons in Hnd as [Hnotin _].
  apply Hnotin. by left.
Qed.

(** C1 (amended): for every input list of pairwise distinct FormField
    objects, the Field Orderer returns a rearrangement of the list in which
    the keys (pageIndex, y1 div 20, x1) of the label bounding boxes are
    non-decreasing over all adjacent pairs, and the fieldIds read along the
    output are exactly "f000", "f001", ... in output order, whatever the
    identifiers were before: dense, and without repeats. *)
Theorem order_fields_sorted_dense (h : gmap nat Models.FormField)
        (fields : list FieldOrdering.ref) :
  NoDup fields →
  Forall (λ r, is_Some (h !! r)) fields →
  let h' := (FieldOrdering.order_fields h fields).1 in
  let out := (FieldOrdering.order_fields h fields).2 in
  out ≡ₚ fields
  ∧ nondecreasing (keys_of h' out)
  ∧ FieldOrdering.ids_of h' out = FieldOrdering.new_id <$> seq 0 (length out)
  ∧ NoDup (FieldOrdering.ids_of h' out).
Proof.
  intros Hnd Hwf h' out.
  assert (out ≡ₚ fields) as Hperm by apply sorted_perm.
  assert (FieldOrdering.ids_of h' out
          = FieldOrdering.new_id <$> seq 0 (length out)) as Hids.
  { apply assign_ids_ids.
    - by rewrite Hperm.
    - intros r Hr. rewrite Hperm in Hr.
      by apply (proj1 (Forall_forall _ _) Hwf). }
  split; [done|]. split; [apply order_fields_keys|]. split; [done|].
  rewrite Hids. apply new_ids_NoDup.
Qed.

Lemma order_fields_sorted_dense_witness :
  (FieldOrdering.order_fields two_fields [0; 1]).2 = [1; 0]
  ∧ FieldOrdering.ids_of (FieldOrdering.order_fields two_fields [0; 1]).1
                         (FieldOrdering.order_fields two_fields [0; 1]).2
    = ["f000"; "f001"].
Proof.
  split; [reflexivity|].
  refine (proj1 (proj2 (proj2
    (order_fields_sorted_dense two_fields [0; 1] _ _)))).
  - compute_done.
  - repeat constructor; by eexists.
Defined.

(** C9: the Field Orderer returns the objects it was given, rearranged, and
    allocates none; an object of the store keeps every attribute but
    fieldId, which is untouched for an object outside the list and is the
    identifier of one of its output positions for an object of the list. *)
Theorem order_fields_in_place (h : gmap nat Models.FormField)
        (fields : list FieldOrdering.ref) (r : FieldOrdering.ref)
        (f : Models.FormField) :
  h !! r = Some f →
  let h' := (FieldOrdering.order_fields h fields).1 in
  let out := (FieldOrdering.order_fields h fields).2 in
  out ≡ₚ fields
  ∧ dom h' = dom h
  ∧ ∃ f', h' !! r = Some f'
      ∧ Models.page_index f' = Models.page_index f
      ∧ Models.label_text f' = Models.label_text f
      ∧ Models.field_type f' = Models.field_type f
      ∧ Models.target_bbox f' = Models.target_bbox f
      ∧ Models.label_bbox f' = Models.label_bbox f
      ∧ Models.required f' = Models.required f
      ∧ Models.confidence f' = Models.confidence f
      ∧ Models.answer f' = Models.answer f
      ∧ Models.validation_hint f' = Models.validation_hint f
      ∧ (r ∉ fields → f' = f)
      ∧ (r ∈ fields →
         ∃ i, out !! i = Some r ∧ Models.field_id f' = FieldOrdering.new_id i).
Proof.
  intros Hf h' out.
  assert (out ≡ₚ fields) as Hperm by apply sorted_perm.
  split; [done|]. split; [apply assign_ids_dom|].
  destruct (assign_ids_frame h 0 out r) as [v Hv].
  fold h' in Hv. rewrite Hf in Hv. simpl in Hv.
  exists (Models.set_field_id v f). repeat (split; [done|]). split.
  - intros Hr. rewrite <- Hperm in Hr.
    pose proof (assign_ids_notin h 0 out r Hr) as Hsame. fold h' in Hsame.
    rewrite Hv, Hf in Hsame. by injection Hsame.
  - intros Hr. rewrite <- Hperm in Hr.
    destruct (last_position out r Hr) as (j & Hj & Hlast).
    exists j. split; [done|].
    pose proof (assign_ids_last h 0 out j r Hj Hlast) as Hid. fold h' in Hid.
    rewrite Hv, Hf in Hid. simpl in Hid. injection Hid as Hid.
    by rewrite Hid.
Qed.

Lemma order_fields_in_place_witness :
  ∃ f', (FieldOrdering.order_fields two_fields [0; 1]).1 !! 1 = Some f'
        ∧ Models.label_bbox f' = (50, 100, 120, 120)%Z.
Proof.
  destruct (order_fields_in_place two_fields [0; 1] 1 shared eq_refl)
    as (_ & _ & f' & Hf' & H).
  exists f'. split; [exact Hf'|]. apply H.
Defined.

(** ** The Label Classifier *)

Section Classifier.
Import Models Re FieldDetector.

Lemma classify_in_find (table : list (FieldType * list regex))
      (text : string) :
  NoDup (fst <$> table) →
  classify_in table text
  = List.find (λ t, matches_in table t text) (fst <$> table).
Proof.
  induction table as [|[t pats] table IH]; intros Hnd; [done|].
  apply NoDup_cons in Hnd as [Hnotin Hnd]. simpl in *.
  unfold matches_in at 1, patterns_in at 1. simpl.
  rewrite bool_decide_eq_true_2 by done. simpl.
  destruct (existsb _ pats); [done|].
  rewrite IH by done. clear IH.
  assert (∀ ts, (∀ t', t' ∈ ts → t' ≠ t) →
            List.find (λ t', matches_in table t' text) ts
            = List.find (λ t', matches_in ((t, pats) :: table) t' text) ts)
    as Hext.
  { induction ts as [|t' ts IHts]; intros Hts; [done|]. simpl.
    unfold matches_in at 3, patterns_in at 1. simpl.
    rewrite bool_decide_eq_false_2
      by (intros Heq; by apply (Hts t'); [left|]).
    fold (patterns_in table t'). fold (matches_in table t' text).
    destruct (matches_in table t' text); [done|].
    apply IHts. intros t'' Hin. apply Hts. by right. }
  apply Hext. intros t' Hin ->. done.
Qed.

Lemma find_none_iff {A} (p : A → bool) (l : list A) :
  List.find p l = None ↔ ∀ x, x ∈ l → p x = false.
Proof.
  induction l as [|a l IH]; simpl.
  - split; [intros _ x Hx; by apply elem_of_nil in Hx|done].
  - destruct (p a) eqn:Hp.
    + split; [done|]. intros H. rewrite H in Hp by left. done.
    + rewrite IH. split.
      * intros H x [->|Hx]%elem_of_cons; auto.
      * intros H x Hx. apply H. by right.
Qed.

End Classifier.

(** C2: classification goes through the types in the fixed priority order
    TEXT, EMAIL, PHONE, DATE, NRIC, NUMBER and returns the first type one of
    whose patterns is found in the text; a text with a TEXT pattern and a
    PHONE pattern in it is TEXT, and a text with no pattern of any type in
    it is no field. *)
Theorem classify_label_priority (text : string) :
  fst <$> FieldDetector.LABEL_PATTERNS = priority
  ∧ FieldDetector.classify_label text
    = List.find (λ t, matches t text) priority
  ∧ (matches Models.TEXT text && matches Models.PHONE text = true →
     FieldDetector.classify_label text = Some Models.TEXT)
  ∧ (FieldDetector.classify_label text = None ↔ ∀ t, matches t text = false).
Proof.
  assert (FieldDetector.classify_label text
          = List.find (λ t, matches t text) priority) as Hfind.
  { unfold FieldDetector.classify_label.
    rewrite classify_in_find; [done|]. compute_done. }
  split; [done|]. split; [done|]. split.
  - intros [Ht _]%andb_prop. rewrite Hfind. simpl. by rewrite Ht.
  - rewrite Hfind, find_none_iff. split.
    + intros H t. destruct t; try (apply H; compute_done). done.
    + intros H t _. apply H.
Qed.

Lemma classify_label_priority_witness :
  FieldDetector.classify_label "Name and telephone number" = Some Models.TEXT.
Proof.
  apply (proj1 (proj2 (proj2
    (classify_label_priority "Name and telephone number")))).
  reflexivity.
Defined.

(** C6, as stated, fails: the text has the TEXT pattern [\baddress\b] in
    it, and TEXT comes before EMAIL. *)
Lemma email_address_not_email :
  FieldDetector.classify_label "Email Address *" ≠ Some Models.EMAIL.
Proof. by vm_compute. Qed.

(** C6 (amended): the label line "Email Address *" is classified as field
    type TEXT (it has both a TEXT and an EMAIL pattern in it, and TEXT has
    priority), its required flag is true, and its cleaned label text is
    "Email Address". *)
Theorem email_address_label :
  FieldDetector.classify_label "Email Address *" = Some Models.TEXT
  ∧ matches Models.TEXT "Email Address *" = true
  ∧ matches Models.EMAIL "Email Address *" = true
  ∧ FieldDetector.is_required "Email Address *" = true
  ∧ FieldDetector.clean_label "Email Address *" = "Email Address".
Proof. repeat split; reflexivity. Qed.

(** ** Validation of a PHONE answer *)

Section Phone.
Import Models Re Validators.

Lemma sub_from_cls (p : ascii → bool) (fuel : nat) (prev : option ascii)
      (s : string) :
  String.length s < fuel →
  sub_from fuel false (Cls p) EmptyString prev s = without p s.
Proof.
  revert prev s. induction fuel as [|fuel IH]; intros prev s Hlen; [lia|].
  destruct s as [|x s]; [done|]. simpl in Hlen.
  cbn [sub_from match_here exec without]. destruct (p x) eqn:Hp.
  - replace (String.length s <? String.length (String x s))%nat with true
      by (symmetry; apply Nat.ltb_lt; simpl; lia).
    simpl. apply IH. lia.
  - f_equal. apply IH. lia.
Qed.

Lemma sub_cls (p : ascii → bool) (s : string) :
  sub false (Cls p) EmptyString s = without p s.
Proof. apply sub_from_cls. lia. Qed.

Section Strip.
Variable p : ascii → bool.
Hypothesis Hp : ∀ c, PyStr.isspace c = true → p c = true.

Lemma without_lstrip (s : string) :
  without p (PyStr.lstrip s) = without p s.
Proof using Hp.
  induction s as [|c s IH]; [done|]. simpl.
  destruct (PyStr.isspace c) eqn:Hc; [|done]. by rewrite (Hp c Hc).
Qed.

Lemma without_rstrip (s : string) :
  without p (PyStr.rstrip s) = without p s.
Proof using Hp.
  induction s as [|c s IH]; [done|]. simpl.
  destruct (PyStr.rstrip s) as [|d r] eqn:Hr.
  - simpl in IH. rewrite <- IH.
    destruct (PyStr.isspace c) eqn:Hc; [by rewrite (Hp c Hc)|done].
  - cbn [without]. by rewrite <- IH.
Qed.

Lemma without_strip (s : string) : without p (PyStr.strip s) = without p s.
Proof using Hp.
  unfold PyStr.strip. by rewrite without_rstrip, without_lstrip.
Qed.
End Strip.

Lemma isdigit_all_digits (s : string) :
  negb (PyStr.isdigit s) || (String.length s <? 7)%nat
  || (15 <? String.length s)%nat
  = negb (PyStr.all_digits s
          && (7 <=? String.length s)%nat && (String.length s <=? 15)%nat).
Proof.
  destruct s as [|c s]; [done|]. unfold PyStr.isdigit.
  generalize (String.length (String c s)). intros n.
  destruct (PyStr.all_digits (String c s)); [|done].
  destruct (Nat.ltb_spec n 7), (Nat.leb_spec 7 n), (Nat.ltb_spec 15 n),
    (Nat.leb_spec n 15); simpl; try done; lia.
Qed.

End Phone.

(** C7, as stated, fails on a blank answer: nothing is left of it, and it
    is accepted. *)
Lemma blank_phone_accepted :
  (Validators.validate_field Models.PHONE EmptyString).1 = true
  ∧ phone_rule EmptyString = false
  ∧ (Validators.validate_field Models.PHONE "   ").1 = true
  ∧ phone_rule "   " = false.
Proof. repeat split; reflexivity. Qed.

(** C7 (amended): a blank PHONE answer (empty or white space only) is
    valid; any other PHONE answer is valid exactly when what is left of it
    without white space, dashes, parentheses and plus signs is all digits
    and 7 to 15 characters long.  So "123456" is invalid, "1234567" and
    "123456789012345" are valid, and "1234567890123456" is invalid. *)
Theorem validate_phone (answer : string) :
  (Validators.validate_field Models.PHONE answer).1
  = negb (PyStr.truthy (PyStr.strip answer)) || phone_rule answer
  ∧ (Validators.validate_field Models.PHONE "123456").1 = false
  ∧ (Validators.validate_field Models.PHONE "1234567").1 = true
  ∧ (Validators.validate_field Models.PHONE "123456789012345").1 = true
  ∧ (Validators.validate_field Models.PHONE "1234567890123456").1 = false.
Proof.
  split; [|repeat split; reflexivity].
  unfold Validators.validate_field.
  destruct (PyStr.truthy (PyStr.strip answer)); [|done]. simpl.
  unfold Validators.phone_strip_re. rewrite sub_cls.
  fold phone_ignored. rewrite without_strip
    by (intros c Hc; unfold phone_ignored; by rewrite Hc).
  rewrite isdigit_all_digits. fold (phone_rule answer).
  by destruct (phone_rule answer).
Qed.

(** ** The Spatial Associator *)

Section Associator.
Import Models FieldDetector.

Lemma nearest_step_distance (label : bbox) (st : option bbox * Z)
      (region : bbox) :
  nearest_step label st region
  = match region_distance label region with
    | Some d => if (d <? st.2)%Z then (Some region, d) else st
    | None => st
    end.
Proof.
  destruct label as [[[lx1 ly1] lx2] ly2], region as [[[rx1 ry1] rx2] ry2],
    st as [best best_dist].
  unfold nearest_step, region_distance, same_row, below, gap_right,
    gap_below. simpl.
  destruct (Qltb _ 30 && (lx2 <? rx1)%Z); [done|].
  by destruct ((ly2 <? ry1)%Z && (Z.abs (rx1 - lx1) <? 100)%Z).
Qed.

Lemma nearest_fold (label : bbox) (regions : list bbox)
      (best : option bbox) (cap : Z) :
  (fold_left (nearest_step label) regions (best, cap) = (best, cap)
   ∧ none_within label regions cap)
  ∨ ∃ i c d, fold_left (nearest_step label) regions (best, cap) = (Some c, d)
             ∧ first_nearest label regions cap i c d.
Proof.
  revert best cap. induction regions as [|r regions IH]; intros best cap.
  { left. split; [done|]. intros c d Hc. by apply elem_of_nil in Hc. }
  simpl. rewrite nearest_step_distance. simpl.
  destruct (region_distance label r) as [d0|] eqn:Hr.
  - destruct (Z.ltb_spec d0 cap) as [Hlt|Hge].
    + destruct (IH (Some r) d0) as [[Heq Hnone]|(i & c & d & Heq & Hfn)].
      * right. exists 0, r, d0. split; [done|].
        split; [done|]. split; [done|]. split; [done|].
        intros [|j] c' d' Hj Hd'; simpl in Hj.
        -- injection Hj as <-. split; [|lia]. rewrite Hr in Hd'.
           injection Hd' as <-. lia.
        -- split; [|lia]. eapply Hnone; [|done].
           by eapply list_elem_of_lookup_2.
      * right. destruct Hfn as (Hi & Hd & Hlt' & Hmin).
        exists (S i), c, d. split; [done|].
        split; [done|]. split; [done|]. split; [lia|].
        intros [|j] c' d' Hj Hd'; simpl in Hj.
        -- injection Hj as <-. rewrite Hr in Hd'. injection Hd' as <-. lia.
        -- destruct (Hmin j c' d' Hj Hd'). split; [done|]. lia.
    + destruct (IH best cap) as [[Heq Hnone]|(i & c & d & Heq & Hfn)].
      * left. split; [done|]. intros c d [->|Hc]%elem_of_cons Hd.
        -- rewrite Hr in Hd. injection Hd as <-. done.
        -- by eapply Hnone.
      * right. destruct Hfn as (Hi & Hd & Hlt' & Hmin).
        exists (S i), c, d. split; [done|].
        split; [done|]. split; [done|]. split; [done|].
        intros [|j] c' d' Hj Hd'; simpl in Hj.
        -- injection Hj as <-. rewrite Hr in Hd'. injection Hd' as <-. lia.
        -- destruct (Hmin j c' d' Hj Hd'). split; [done|]. lia.
  - destruct (IH best cap) as [[Heq Hnone]|(i & c & d & Heq & Hfn)].
    + left. split; [done|]. intros c d [->|Hc]%elem_of_cons Hd.
      * by rewrite Hr in Hd.
      * by eapply Hnone.
    + right. destruct Hfn as (Hi & Hd & Hlt' & Hmin).
      exists (S i), c, d. split; [done|].
      split; [done|]. split; [done|]. split; [done|].
      intros [|j] c' d' Hj Hd'; simpl in Hj.
      * injection Hj as <-. by rewrite Hr in Hd'.
      * destruct (Hmin j c' d' Hj Hd'). split; [done|]. lia.
Qed.

Lemma first_nearest_not_none (label : bbox) (regions : list bbox) (cap : Z)
      (i : nat) (c : bbox) (d : Z) :
  first_nearest label regions cap i c d → ¬ none_within label regions cap.
Proof.
  intros (Hi & Hd & Hlt & _) Hnone.
  pose proof (Hnone c d (list_elem_of_lookup_2 _ _ _ Hi) Hd). lia.
Qed.

End Associator.



Section AssociatorZ.
Import Models FieldDetector.

Lemma centers_within (a b : Z) :
  Qltb (Qabs (inject_Z a / 2 - inject_Z b / 2)) 30
  = (Z.abs (a - b) <? 60)%Z.
Proof.
  unfold Qltb. destruct (Z.ltb_spec (Z.abs (a - b)) 60) as [Hlt|Hge].
  - apply negb_true_iff. destruct (Qle_bool 30 _) eqn:Hq; [|done].
    apply Qle_bool_iff in Hq. exfalso. revert Hq.
    unfold Qle, Qabs, Qminus, Qplus, Qopp, Qdiv, Qmult, Qinv, inject_Z.
    simpl. lia.
  - apply negb_false_iff, Qle_bool_iff.
    unfold Qle, Qabs, Qminus, Qplus, Qopp, Qdiv, Qmult, Qinv, inject_Z.
    simpl. lia.
Qed.

(** The same-row test in integers: the sums of the vertical edges differ
    by less than 60. *)
Lemma same_row_Z (lx1 ly1 lx2 ly2 rx1 ry1 rx2 ry2 : Z) :
  same_row (lx1, ly1, lx2, ly2) (rx1, ry1, rx2, ry2)
  = (Z.abs ((ry1 + ry2) - (ly1 + ly2)) <? 60)%Z && (lx2 <? rx1)%Z.
Proof. unfold same_row, center. by rewrite centers_within. Qed.
End AssociatorZ.

(** ** Two scenarios of the specification *)

Section Scenarios.
Import Models FieldDetector.

(** "Name:" beside an underline on its row: TEXT, not required, and the
    underline, 10 to the right, is the target. *)
Example name_scenario :
  classify_label "Name:" = Some TEXT
  ∧ is_required "Name:" = false
  ∧ clean_label "Name:" = "Name"
  ∧ region_distance name_label (130, 95, 400, 121)%Z = Some 10%Z
  ∧ target_region name_label [(130, 95, 400, 121)%Z] 1000
    = (130, 95, 400, 121)%Z.
Proof. repeat split; reflexivity. Qed.

(** A candidate 250 to the right on the same row is beyond the cap, and
    the target is the synthesized region. *)
Example cap_scenario :
  region_distance name_label (370, 95, 600, 121)%Z = Some 250%Z
  ∧ find_nearest_input_region name_label [(370, 95, 600, 121)%Z] 200 = None
  ∧ target_region name_label [(370, 95, 600, 121)%Z] 1000
    = (130, 100, 520, 120)%Z.
Proof. repeat split; reflexivity. Qed.

End Scenarios.

(** ** Region synthesis *)

Section Rounding.
Import PyFloat.
Local Open Scope Z_scope.

Lemma round_div_one (n : Z) : round_div n 1 = n.
Proof.
  unfold round_div. rewrite Z.mod_1_r, Z.div_1_r. reflexivity.
Qed.

Lemma round_div_lower (n d a : Z) :
  0 < d -> a * d <= n -> a <= round_div n d.
Proof.
  intros Hd Ha. unfold round_div.
  assert (a <= n / d) by (apply Z.div_le_lower_bound; lia).
  destruct (2 * (n mod d) ?= d); [destruct (Z.even (n / d))| |]; lia.
Qed.

Lemma round_div_upper (n d b : Z) :
  0 < d -> n <= b * d -> round_div n d <= b.
Proof.
  intros Hd Hb. unfold round_div.
  pose proof (Z.div_mod n d ltac:(lia)) as Hn.
  pose proof (Z.mod_pos_bound n d Hd) as Hr.
  assert (n / d <= b) as Hq by (apply Z.div_le_upper_bound; nia).
  destruct (Z.compare_spec (2 * (n mod d)) d) as [He|Hl|Hg].
  - destruct (Z.even (n / d)); [lia|].
    destruct (Z.eq_dec (n / d) b) as [Heq|]; [|lia]. nia.
  - lia.
  - destruct (Z.eq_dec (n / d) b) as [Heq|]; [|lia]. nia.
Qed.

(** For a power of two as the denominator the test of [log2_floor]
    succeeds. *)
Lemma log2_floor_pow2 (n t : Z) :
  0 < n -> 0 <= t -> log2_floor n (2 ^ t) = Z.log2 n - t.
Proof.
  intros Hn Ht. unfold log2_floor. rewrite Z.log2_pow2 by done.
  pose proof (Z.log2_spec n Hn) as [Hlo _].
  pose proof (Z.log2_nonneg n) as Hl.
  destruct (Z.leb_spec (2 ^ t * 2 ^ Z.max 0 (Z.log2 n - t))
                       (n * 2 ^ Z.max 0 (- (Z.log2 n - t)))) as [|Hlt];
    [reflexivity|].
  exfalso. destruct (Z.le_ge_cases t (Z.log2 n)) as [Hle|Hge].
  - rewrite (Z.max_l 0 (- (Z.log2 n - t))),
      (Z.max_r 0 (Z.log2 n - t)) in Hlt by lia.
    rewrite <- Z.pow_add_r in Hlt by lia.
    replace (t + (Z.log2 n - t)) with (Z.log2 n) in Hlt by lia.
    change (2 ^ 0) with 1 in Hlt. lia.
  - rewrite (Z.max_r 0 (- (Z.log2 n - t))),
      (Z.max_l 0 (Z.log2 n - t)) in Hlt by lia.
    change (2 ^ 0) with 1 in Hlt.
    replace (- (Z.log2 n - t)) with (t - Z.log2 n) in Hlt by lia.
    assert (2 ^ t = 2 ^ Z.log2 n * 2 ^ (t - Z.log2 n)) as Hpow.
    { rewrite <- Z.pow_add_r by lia. f_equal. lia. }
    assert (0 < 2 ^ (t - Z.log2 n)) by (apply Z.pow_pos_nonneg; lia).
    nia.
Qed.

Lemma log2_floor_one (n : Z) : 0 < n -> log2_floor n 1 = Z.log2 n.
Proof.
  intros Hn. change 1 with (2 ^ 0) at 1.
  rewrite log2_floor_pow2 by lia. lia.
Qed.

(** An integer below [2^53] is a double. *)
Lemma nearest_of_int (w : Z) :
  0 < w < 2 ^ 53 ->
  nearest w 1 = (w * 2 ^ (52 - Z.log2 w), Z.log2 w - 52).
Proof.
  intros [Hw Hlt]. unfold nearest. rewrite log2_floor_one by done.
  assert (Z.log2 w < 53) by (apply Z.log2_lt_pow2; lia).
  pose proof (Z.log2_nonneg w).
  rewrite Z.max_r, Z.max_l by lia. change (2 ^ 0) with 1.
  rewrite Z.mul_1_l, round_div_one. f_equal. f_equal. f_equal. lia.
Qed.

Lemma int_mul_0_8_pos_floor (w : Z) :
  0 < w < 2 ^ 50 -> int_mul_0_8_pos w = (8 * w) / 10.
Proof.
  intros [Hw Hlt]. unfold int_mul_0_8_pos.
  rewrite nearest_of_int by lia.
  set (a := Z.log2 w).
  assert (0 <= a < 50) as Ha.
  { split; [apply Z.log2_nonneg|]. apply Z.log2_lt_pow2; lia. }
  rewrite Z.max_l, Z.max_r by lia. change (2 ^ 0) with 1.
  rewrite Z.mul_1_r.
  replace (52 - (a - 52)) with (104 - a) by lia.
  set (S := 2 ^ (52 - a)).
  assert (0 < S) as HS by (apply Z.pow_pos_nonneg; lia).
  assert (2 ^ (104 - a) = S * 2 ^ 52) as HD.
  { unfold S. rewrite <- Z.pow_add_r by lia. f_equal. lia. }
  set (n := w * S * mantissa_0_8).
  assert (0 < n) as Hn by (unfold n, mantissa_0_8; nia).
  unfold nearest. rewrite log2_floor_pow2 by lia.
  set (e := Z.log2 n - (104 - a) - 52).
  assert (n < 2 ^ (154 - a)) as Hnlt.
  { replace (154 - a) with (50 + (104 - a)) by lia.
    rewrite Z.pow_add_r, HD by lia. unfold n, mantissa_0_8.
    change (2 ^ 52) with 4503599627370496.
    change (2 ^ 50) with 1125899906842624 in *. nia. }
  assert (e <= -3) as He.
  { assert (Z.log2 n < 154 - a) by (apply Z.log2_lt_pow2; lia).
    unfold e. lia. }
  rewrite (Z.max_l 0 e), (Z.max_r 0 (- e)) by lia.
  change (2 ^ 0) with 1. rewrite !Z.mul_1_r.
  set (P' := 2 ^ (- e - 3)).
  assert (0 < P') as HP' by (apply Z.pow_pos_nonneg; lia).
  assert (2 ^ (- e) = 8 * P') as HP.
  { unfold P'. change 8 with (2 ^ 3). rewrite <- Z.pow_add_r by lia.
    f_equal. lia. }
  rewrite HP, HD.
  set (k := (8 * w) / 10).
  assert (10 * k <= 8 * w <= 10 * k + 8) as Hk.
  { unfold k. pose proof (Z.div_mod (8 * w) 10 ltac:(lia)).
    pose proof (Z.mod_pos_bound (8 * w) 10 ltac:(lia)). lia. }
  change (2 ^ 50) with 1125899906842624 in *.
  change (2 ^ 52) with 4503599627370496.
  assert (k * (8 * P')
          <= round_div (n * (8 * P')) (S * 4503599627370496)) as Hlo.
  { apply round_div_lower; [lia|]. unfold n, mantissa_0_8. nia. }
  assert (round_div (n * (8 * P')) (S * 4503599627370496)
          <= (8 * k + 7) * P') as Hhi.
  { apply round_div_upper; [lia|]. unfold n, mantissa_0_8. nia. }
  symmetry. apply Z.div_unique with
    (r := round_div (n * (8 * P')) (S * 4503599627370496) - k * (8 * P'));
    lia.
Qed.

Lemma int_mul_0_8_floor (w : Z) :
  0 <= w < 2 ^ 50 -> int_mul_0_8 w = (8 * w) / 10.
Proof.
  intros [Hw Hlt]. destruct w as [|p|p]; [reflexivity| |lia].
  apply int_mul_0_8_pos_floor. lia.
Qed.

End Rounding.

Section Synthesis.
Import Models FieldDetector.

(** For a width from 0 to 2^50 the rounding of the product does not
    show: truncation gives the floor. *)
Lemma int_08_floor (page_width : Z) :
  (0 ≤ page_width < 2 ^ 50)%Z →
  int_08 page_width = ((8 * page_width) `div` 10)%Z.
Proof. apply int_mul_0_8_floor. Qed.

(** Beyond that it can: the product is rounded up past the floor. *)
Lemma int_08_beyond :
  int_08 wide_page = (((8 * wide_page) `div` 10) + 1)%Z.
Proof. vm_compute. reflexivity. Qed.

(** A label whose right edge is at 80% of the page width or beyond. *)
Lemma right_edge_beyond (lx2 page_width : Z) :
  (8 * page_width ≤ 10 * lx2)%Z →
  (lx2 + 10 > Z.min (lx2 + 400) ((8 * page_width) `div` 10))%Z.
Proof.
  intros H.
  assert ((8 * page_width) `div` 10 ≤ lx2)%Z
    by (apply Z.div_le_upper_bound; lia).
  lia.
Qed.

End Synthesis.

(** C10, as stated, fails on a page 2^51 + 3 wide: the right edge of the
    label plus 10 exceeds min(label.x2 + 400, floor(0.8 × pageWidth)), and
    yet the synthesized region has x1 equal to x2, not greater: the code
    takes the product in floating point, where it is rounded up to the
    next integer. *)
Lemma infer_answer_region_wide_page :
  (box_x2 label_on_wide_page + 10
   > Z.min (box_x2 label_on_wide_page + 400) ((8 * wide_page) `div` 10))%Z
  ∧ FieldDetector.infer_answer_region label_on_wide_page wide_page
    = (1801439850948201, 100, 1801439850948201, 120)%Z
  ∧ ¬ (box_x1 (FieldDetector.infer_answer_region label_on_wide_page wide_page)
       > box_x2 (FieldDetector.infer_answer_region label_on_wide_page
                                                   wide_page))%Z.
Proof.
  split; [vm_compute; reflexivity|]. split; [vm_compute; reflexivity|].
  vm_compute. intros H. discriminate H.
Qed.

(** C10 (amended): for a page width from 0 to 2^50, where
    [int(page_width * 0.8)] is floor(0.8 × pageWidth): whenever
    label.x2 + 10 exceeds min(label.x2 + 400, floor(0.8 × pageWidth)), the
    synthesized answer region has x1 strictly greater than x2, and
    whenever no candidate region is within the cap that box is the target
    as it stands, unchecked and unrepaired; a label whose right edge lies
    at or beyond 80% of the page width is such a case
    ([right_edge_beyond]). *)
Theorem infer_answer_region_degenerate (label : Models.bbox) (page_width : Z) :
  (0 ≤ page_width < 2 ^ 50)%Z →
  (box_x2 label + 10
   > Z.min (box_x2 label + 400) ((8 * page_width) `div` 10))%Z →
  (box_x1 (FieldDetector.infer_answer_region label page_width)
   > box_x2 (FieldDetector.infer_answer_region label page_width))%Z
  ∧ ∀ regions,
      none_within label regions 200 →
      FieldDetector.target_region label regions page_width
      = FieldDetector.infer_answer_region label page_width.
Proof.
  intros Hw Hgt. split.
  - destruct label as [[[lx1 ly1] lx2] ly2].
    unfold FieldDetector.infer_answer_region, box_x1, box_x2 in *.
    cbn [fst snd FieldDetector._int_bbox] in *.
    rewrite int_08_floor by done. lia.
  - intros regions Hnone.
    unfold FieldDetector.target_region, FieldDetector.find_nearest_input_region.
    destruct (nearest_fold label regions None 200)
      as [[Heq _]|(i & c & d & Heq & Hfn)]; rewrite Heq; [done|].
    by destruct (first_nearest_not_none _ _ _ _ _ _ Hfn).
Qed.

Lemma infer_answer_region_degenerate_witness :
  FieldDetector.infer_answer_region label_at_edge 1000
  = (820, 100, 800, 120)%Z
  ∧ (box_x1 (FieldDetector.infer_answer_region label_at_edge 1000)
     > box_x2 (FieldDetector.infer_answer_region label_at_edge 1000))%Z.
Proof.
  split; [vm_compute; reflexivity|].
  refine (proj1 (infer_answer_region_degenerate label_at_edge 1000 _ _)).
  - lia.
  - apply right_edge_beyond. unfold box_x2, label_at_edge. simpl. lia.
Defined.

(** ** Field Fusion *)

Section Fusion.
Import Models LlmExtractor.

Lemma truthy_false (s : string) : PyStr.truthy s = false ↔ s = EmptyString.
Proof. by destruct s. Qed.

Lemma seen_of_snoc (l : list FormField) (x : FormField) :
  seen_of (l ++ [x]) = <[label_key x := x]> (seen_of l).
Proof. unfold seen_of. by rewrite fold_left_app. Qed.

Lemma seen_of_indexed (l : list FormField) :
  NoDup (keys l) → indexed l (seen_of l).
Proof.
  induction l as [|x l IH] using rev_ind; intros Hnd k f.
  - unfold seen_of. simpl. rewrite lookup_empty. split; [done|].
    intros [H _]. by apply elem_of_nil in H.
  - unfold keys in Hnd. rewrite fmap_app in Hnd.
    apply NoDup_app in Hnd as (Hl & Hx & _).
    rewrite seen_of_snoc, elem_of_app, list_elem_of_singleton.
    destruct (decide (label_key x = k)) as [<-|Hne].
    + rewrite lookup_insert_eq. split.
      * intros [= <-]. auto.
      * intros [[Hf| ->] Hk]; [|done]. exfalso.
        apply (Hx (label_key f)); [by apply list_elem_of_fmap_2|].
        rewrite Hk. by left.
    + rewrite lookup_insert_ne by done. rewrite (IH Hl k f). split.
      * intros [? ?]. auto.
      * intros [[Hf| ->] Hk]; [done|]. done.
Qed.

Lemma list_remove_app (x : FormField) (l1 l2 : list FormField) :
  x ∉ l1 → list_remove x (l1 ++ x :: l2) = Some (l1 ++ l2).
Proof.
  induction l1 as [|y l1 IH]; intros Hx; simpl.
  - by rewrite decide_True.
  - apply not_elem_of_cons in Hx as [Hne Hx].
    rewrite decide_False by done. by rewrite IH.
Qed.

Lemma key_unique (l1 l2 : list FormField) (x g : FormField) :
  NoDup (keys (l1 ++ x :: l2)) → g ∈ l1 ++ l2 → label_key g ≠ label_key x.
Proof.
  unfold keys. rewrite fmap_app, fmap_cons. intros Hnd Hg Heq.
  rewrite <- Permutation_middle in Hnd. apply NoDup_cons in Hnd as [Hx _].
  apply Hx. rewrite <- Heq, <- fmap_app. by apply list_elem_of_fmap_2.
Qed.

(** One step of the loop keeps the keys distinct and [seen] in step with
    [merged], and does not raise. *)
Lemma merge_step_inv (merged : list FormField)
      (seen : gmap string FormField) (f : FormField) :
  NoDup (keys merged) → indexed merged seen →
  ∃ merged' seen',
    merge_step (merged, seen) f = Some (merged', seen')
    ∧ NoDup (keys merged') ∧ indexed merged' seen'
    ∧ (∀ g, g ∈ merged' → g ∈ merged ∨ (g = f ∧ label_key f ≠ EmptyString))
    ∧ (∀ c, covers merged c → covers merged' c)
    ∧ (label_key f ≠ EmptyString → covers merged' f).
Proof.
  intros Hnd Hidx. unfold merge_step.
  assert (PyStr.truthy (label_key f) = true → label_key f ≠ EmptyString)
    as Hkne by (by destruct (label_key f)).
  revert Hkne.
  destruct (PyStr.truthy (label_key f)) eqn:Hkey; simpl; intros Hkne.
  2:{ exists merged, seen. apply truthy_false in Hkey.
      split; [done|]. split; [done|]. split; [done|]. split; [auto|].
      split; [auto|done]. }
  specialize (Hkne eq_refl).
  destruct (seen !! label_key f) as [existing|] eqn:Hseen.
  - apply Hidx in Hseen as Hex. destruct Hex as [Hin Hk].
    destruct (bool_decide (confidence existing < confidence f)%Qc) eqn:Hc.
    + apply bool_decide_eq_true in Hc.
      apply list_elem_of_split in Hin as (l1 & l2 & ->).
      assert (existing ∉ l1) as Hnotin.
      { apply NoDup_fmap_1 in Hnd. apply NoDup_app in Hnd as (_ & H & _).
        intros Hl1. apply (H _ Hl1). by left. }
      rewrite list_remove_app by done. simpl.
      exists ((l1 ++ l2) ++ [f]), (<[label_key f := f]> seen).
      split; [done|]. split; [|split; [|split; [|split]]].
      * unfold keys in *. rewrite fmap_app. simpl.
        rewrite <- Permutation_cons_append, <- Hk, fmap_app.
        rewrite fmap_app, fmap_cons in Hnd.
        by rewrite <- Permutation_middle in Hnd.
      * intros k g. rewrite elem_of_app, list_elem_of_singleton.
        destruct (decide (label_key f = k)) as [<-|Hne].
        -- rewrite lookup_insert_eq. split.
           ++ intros [= <-]. auto.
           ++ intros [[Hg| ->] Hgk]; [|done]. exfalso.
              apply (key_unique l1 l2 existing g Hnd Hg). congruence.
        -- rewrite lookup_insert_ne by done. rewrite (Hidx k g).
           rewrite !elem_of_app, elem_of_cons. split.
           ++ intros [[Hg|[->|Hg]] Hgk]; auto. congruence.
           ++ intros [[[Hg|Hg]| ->] Hgk]; auto. done.
      * intros g. rewrite !elem_of_app, list_elem_of_singleton, elem_of_cons.
        intros [[?|?]| ->]; auto.
      * intros c (s & Hs & Hsk & Hsc).
        destruct (decide (s = existing)) as [->|Hne].
        -- exists f. split; [apply elem_of_app; right; by left|].
           split; [congruence|].
           apply Qclt_le_weak. by eapply Qcle_lt_trans.
        -- exists s. split; [|done].
           rewrite !elem_of_app, elem_of_cons in Hs.
           rewrite !elem_of_app. destruct Hs as [?|[?|?]]; auto. done.
      * intros _. exists f. split; [apply elem_of_app; right; by left|].
        split; [done|]. apply Qcle_refl.
    + apply bool_decide_eq_false in Hc. exists merged, seen.
      split; [done|]. split; [done|]. split; [done|]. split; [auto|].
      split; [auto|].
      intros _. exists existing. split; [done|]. split; [done|].
      by apply Qcnot_lt_le.
  - exists (merged ++ [f]), (<[label_key f := f]> seen).
    assert (label_key f ∉ keys merged) as Hfresh.
    { intros (g & Hgk & Hg)%list_elem_of_fmap.
      assert (seen !! label_key f = Some g) as H by (by apply Hidx).
      congruence. }
    split; [done|]. split; [|split; [|split; [|split]]].
    + unfold keys in *. rewrite fmap_app. simpl.
      rewrite <- Permutation_cons_append. by apply NoDup_cons.
    + intros k g. rewrite elem_of_app, list_elem_of_singleton.
      destruct (decide (label_key f = k)) as [<-|Hne].
      * rewrite lookup_insert_eq. split.
        -- intros [= <-]. auto.
        -- intros [[Hg| ->] Hgk]; [|done]. exfalso. apply Hfresh.
           rewrite <- Hgk. by apply list_elem_of_fmap_2.
      * rewrite lookup_insert_ne by done. rewrite (Hidx k g). split.
        -- intros [? ?]. auto.
        -- intros [[Hg| ->] Hgk]; [done|]. done.
    + intros g. rewrite elem_of_app, list_elem_of_singleton.
      intros [?| ->]; auto.
    + intros c (s & Hs & Hsk & Hsc). exists s.
      split; [apply elem_of_app; by left|done].
    + intros _. exists f. split; [apply elem_of_app; right; by left|].
      split; [done|]. apply Qcle_refl.
Qed.

(** One step of the loop, by what it does to the working list. *)
Lemma merge_step_outcome (merged merged' : list FormField)
      (seen seen' : gmap string FormField) (e : FormField) :
  NoDup (keys merged) → indexed merged seen →
  merge_step (merged, seen) e = Some (merged', seen') →
  step_outcome merged e merged'.
Proof.
  intros Hnd Hidx. unfold merge_step, step_outcome.
  destruct (PyStr.truthy (label_key e)) eqn:Hkey; simpl.
  2:{ intros [= <- <-]. left. by apply truthy_false in Hkey. }
  assert (label_key e ≠ EmptyString) as Hne
      by (intros He; by rewrite He in Hkey).
  destruct (seen !! label_key e) as [existing|] eqn:Hseen.
  - apply Hidx in Hseen as [Hin Hk].
    apply list_elem_of_split in Hin as (l1 & l2 & ->).
    destruct (bool_decide_reflect
                (confidence existing < confidence e)%Qc) as [Hc|Hc].
    + rewrite list_remove_app.
      * simpl. intros [= <- <-]. right. right. split; [done|].
        exists l1, existing, l2. split; [done|]. split; [done|].
        left. by split.
      * apply NoDup_fmap_1 in Hnd. apply NoDup_app in Hnd as (_ & H & _).
        intros Hl1. apply (H _ Hl1). by left.
    + intros [= <- <-]. right. right. split; [done|].
      exists l1, existing, l2. split; [done|]. split; [done|].
      right. split; [by apply Qcnot_lt_le|done].
  - intros [= <- <-]. right. left. split; [done|]. split; [|done].
    intros x Hx Hxk.
    assert (seen !! label_key e = Some x) as H by (by apply Hidx).
    congruence.
Qed.

Lemma merge_loop_inv (llm merged : list FormField)
      (seen : gmap string FormField) :
  NoDup (keys merged) → indexed merged seen →
  ∃ merged' seen',
    merge_loop (merged, seen) llm = Some (merged', seen')
    ∧ NoDup (keys merged') ∧ indexed merged' seen'
    ∧ (∀ g, g ∈ merged' →
            g ∈ merged ∨ (g ∈ llm ∧ label_key g ≠ EmptyString))
    ∧ (∀ c, covers merged c → covers merged' c)
    ∧ (∀ f, f ∈ llm → label_key f ≠ EmptyString → covers merged' f).
Proof.
  revert merged seen. induction llm as [|f llm IH]; intros merged seen Hnd Hidx.
  - exists merged, seen.
    split; [done|]. split; [done|]. split; [done|]. split; [auto|].
    split; [auto|]. intros f Hf. by apply elem_of_nil in Hf.
  - destruct (merge_step_inv merged seen f Hnd Hidx)
      as (m1 & s1 & Hstep & Hnd1 & Hidx1 & Hfrom1 & Hcov1 & Hnew1).
    destruct (IH m1 s1 Hnd1 Hidx1)
      as (m2 & s2 & Hloop & Hnd2 & Hidx2 & Hfrom2 & Hcov2 & Hnew2).
    exists m2, s2. cbn [merge_loop]. rewrite Hstep. simpl.
    split; [done|]. split; [done|]. split; [done|]. split; [|split].
    + intros g Hg. destruct (Hfrom2 g Hg) as [Hg1|[Hg1 Hk]].
      * destruct (Hfrom1 g Hg1) as [?|[-> Hk]]; [by left|].
        right. split; [by left|done].
      * right. split; [by right|done].
    + auto.
    + intros c [->|Hc]%elem_of_cons Hk; auto.
Qed.

Lemma merge_loop_app (l1 l2 : list FormField)
      (st : list FormField * gmap string FormField) :
  merge_loop st (l1 ++ l2) = merge_loop st l1 ≫= λ st', merge_loop st' l2.
Proof.
  revert st. induction l1 as [|f l1 IH]; intros st; [done|].
  cbn [app merge_loop].
  destruct (merge_step st f) as [st'|]; simpl; [apply IH|done].
Qed.

Lemma covers_self (l : list FormField) (c : FormField) :
  c ∈ l → covers l c.
Proof. intros Hc. exists c. split; [done|]. split; [done|apply Qcle_refl]. Qed.

(** Fusing anew a field that is covered changes nothing. *)
Lemma merge_fields_covered (merged : list FormField) (e : FormField) :
  NoDup (keys merged) → (label_key e ≠ EmptyString → covers merged e) →
  merge_fields merged [e] = Some merged.
Proof.
  intros Hnd Hcov. unfold merge_fields, merge_loop, merge_step.
  destruct (PyStr.truthy (label_key e)) eqn:Hkey; simpl; [|done].
  destruct Hcov as (s & Hs & Hsk & Hsc).
  { intros H. apply truthy_false in H. congruence. }
  assert (seen_of merged !! label_key e = Some s) as ->
      by (by apply (seen_of_indexed merged Hnd)).
  rewrite bool_decide_eq_false_2; [done|]. by apply Qcle_not_lt.
Qed.

End Fusion.

(** C4, as stated, fails for the empty key: an external field whose
    trimmed label is empty is skipped, so under the key both lists share the
    heuristic field survives with the lower confidence. *)
Lemma merge_fields_blank_key :
  LlmExtractor.merge_fields [blank_heuristic] [blank_external]
  = Some [blank_heuristic]
  ∧ LlmExtractor.label_key blank_heuristic
    = LlmExtractor.label_key blank_external
  ∧ (Models.confidence blank_heuristic < Models.confidence blank_external)%Qc.
Proof. split; [reflexivity|]. split; [reflexivity|]. compute_done. Qed.

(** C4 (amended): for every heuristic list whose entries have pairwise
    distinct normalized label keys and every external list, fusion returns
    a list in which no two entries share a normalized label key; its
    entries are heuristic fields and external fields of non-empty key.
    The external fields are gone through in order, each against the
    working list as it then stands: a field whose key is empty is skipped;
    a field whose key no entry has is appended; a field whose key an entry
    has takes the place of that entry when its confidence is strictly
    higher, the entry being removed and the field put at the end of the
    working list, and is dropped otherwise.  So for every heuristic field,
    and every external field whose key is not empty, the list returned
    holds an entry under the same key of at least that confidence; and
    fusing an external field a second time changes nothing. *)
Theorem merge_fields_dedup (heuristic llm : list Models.FormField) :
  NoDup (keys heuristic) →
  ∃ merged,
    LlmExtractor.merge_fields heuristic llm = Some merged
    ∧ NoDup (keys merged)
    ∧ (∀ f, f ∈ merged →
            f ∈ heuristic ∨ (f ∈ llm ∧ LlmExtractor.label_key f ≠ EmptyString))
    ∧ (∀ c, c ∈ heuristic
            ∨ (c ∈ llm ∧ LlmExtractor.label_key c ≠ EmptyString) →
            covers merged c)
    ∧ working heuristic llm merged
    ∧ (∀ taken e rest,
          llm = taken ++ e :: rest →
          ∃ before after,
            working heuristic taken before
            ∧ working heuristic (taken ++ [e]) after
            ∧ NoDup (keys before)
            ∧ step_outcome before e after)
    ∧ (∀ e, e ∈ llm → LlmExtractor.merge_fields merged [e] = Some merged).
Proof.
  intros Hnd.
  assert (∀ taken e rest,
             llm = taken ++ e :: rest →
             ∃ before after,
               working heuristic taken before
               ∧ working heuristic (taken ++ [e]) after
               ∧ NoDup (keys before)
               ∧ step_outcome before e after) as Hsteps.
  { intros taken e rest _.
    destruct (merge_loop_inv taken heuristic
                (LlmExtractor.seen_of heuristic) Hnd
                (seen_of_indexed heuristic Hnd))
      as (before & seen & Hloop & Hnd1 & Hidx1 & _).
    destruct (merge_step_inv before seen e Hnd1 Hidx1)
      as (after & seen' & Hstep & _).
    exists before, after. split; [by exists seen|]. split; [|split; [done|]].
    - exists seen'. rewrite merge_loop_app, Hloop.
      cbn [mbind option_bind LlmExtractor.merge_loop].
      by rewrite Hstep.
    - by eapply merge_step_outcome. }
  destruct llm as [|e0 llm].
  { exists heuristic. split; [done|]. split; [done|]. split; [auto|].
    split; [|split; [|split; [done|]]].
    - intros c [Hc|[Hc _]]; [by apply covers_self|by apply elem_of_nil in Hc].
    - by exists (LlmExtractor.seen_of heuristic).
    - intros e He. by apply elem_of_nil in He. }
  destruct (merge_loop_inv (e0 :: llm) heuristic
              (LlmExtractor.seen_of heuristic) Hnd
              (seen_of_indexed heuristic Hnd))
    as (merged & seen & Hloop & Hnd' & Hidx' & Hfrom & Hcov & Hnew).
  exists merged. unfold LlmExtractor.merge_fields. rewrite Hloop.
  split; [done|]. split; [done|]. split; [done|].
  split; [|split; [|split; [done|]]].
  - intros c [Hc|[Hc Hk]]; [|by apply Hnew]. by apply Hcov, covers_self.
  - by exists seen.
  - intros e He. apply merge_fields_covered; [done|]. intros Hk. by apply Hnew.
Qed.

Lemma merge_fields_dedup_witness :
  LlmExtractor.merge_fields [name_heuristic; age_heuristic]
                            [name_external; name_external_low]
  = Some [age_heuristic; name_external]
  ∧ ∃ before after,
      working [name_heuristic; age_heuristic] [name_external] before
      ∧ working [name_heuristic; age_heuristic]
                ([name_external] ++ [name_external_low]) after
      ∧ NoDup (keys before)
      ∧ step_outcome before name_external_low after.
Proof.
  split; [reflexivity|].
  destruct (merge_fields_dedup [name_heuristic; age_heuristic]
                               [name_external; name_external_low])
    as (merged & _ & _ & _ & _ & _ & Hsteps & _).
  - compute_done.
  - apply (Hsteps [name_external] name_external_low []). reflexivity.
Defined.

(** C5: fusing any heuristic field list with an empty external list returns
    the heuristic list unchanged; the early return and the loop over no
    external field agree on that. *)
Theorem merge_fields_empty_external (heuristic : list Models.FormField) :
  LlmExtractor.merge_fields heuristic [] = Some heuristic
  ∧ fst <$> LlmExtractor.merge_loop
              (heuristic, LlmExtractor.seen_of heuristic) []
    = Some heuristic.
Proof. split; reflexivity. Qed.

(** C8: when an external field arrives whose confidence equals that of the
    existing field under its normalized label key, the step leaves the
    merged list (and the index of seen keys) as they are: the comparison is
    strict, and the result of fusion is the same as without that field. *)
Theorem merge_fields_tie (heuristic llm merged : list Models.FormField)
        (seen : gmap string Models.FormField) (e existing : Models.FormField) :
  LlmExtractor.merge_loop (heuristic, LlmExtractor.seen_of heuristic) llm
  = Some (merged, seen) →
  seen !! LlmExtractor.label_key e = Some existing →
  Models.confidence e = Models.confidence existing →
  LlmExtractor.merge_step (merged, seen) e = Some (merged, seen)
  ∧ LlmExtractor.merge_fields heuristic (llm ++ [e]) = Some merged.
Proof.
  intros Hloop Hseen Hconf.
  assert (LlmExtractor.merge_step (merged, seen) e = Some (merged, seen))
    as Hstep.
  { unfold LlmExtractor.merge_step.
    destruct (PyStr.truthy (LlmExtractor.label_key e)); [|done]. simpl.
    rewrite Hseen, Hconf, bool_decide_eq_false_2; [done|].
    apply Qcle_not_lt, Qcle_refl. }
  split; [done|].
  assert (LlmExtractor.merge_loop
            (heuristic, LlmExtractor.seen_of heuristic) (llm ++ [e])
          = Some (merged, seen)) as Hall.
  { rewrite merge_loop_app, Hloop.
    cbn [mbind option_bind LlmExtractor.merge_loop]. by rewrite Hstep. }
  unfold LlmExtractor.merge_fields.
  destruct (llm ++ [e]) as [|x l] eqn:Happ.
  - by destruct llm.
  - by rewrite Hall.
Qed.

Lemma merge_fields_tie_witness :
  LlmExtractor.merge_fields [name_heuristic; age_heuristic]
                            ([name_external] ++ [age_external])
  = Some [age_heuristic; name_external].
Proof.
  refine (proj2 (merge_fields_tie [name_heuristic; age_heuristic]
                   [name_external] [age_heuristic; name_external]
                   (<[ "name" := name_external ]>
                      (LlmExtractor.seen_of [name_heuristic; age_heuristic]))
                   age_external age_heuristic _ _ _)).
  - reflexivity.
  - reflexivity.
  - reflexivity.
Defined.

(** * Further properties *)

(** ** Sorting, generically *)

Section PySorted.
Context {A K : Type} (lt : K → K → bool) (key : A → K).
Hypothesis lt_asym : ∀ a b, lt a b = true → lt b a = false.

Lemma py_insert_by_perm (x : A) (l : list A) :
  PySort.insert_by lt key x l ≡ₚ x :: l.
Proof.
  induction l as [|y l IH]; simpl; [done|].
  destruct (lt (key y) (key x)); [|done].
  rewrite IH. apply perm_swap.
Qed.

Lemma py_sorted_perm (l : list A) : PySort.sorted lt key l ≡ₚ l.
Proof.
  induction l as [|x l IH]; simpl; [done|].
  rewrite py_insert_by_perm. by f_equiv.
Qed.

Lemma py_insert_by_sorted (x : A) (l : list A) :
  Sorted (le_key lt key) l → Sorted (le_key lt key) (PySort.insert_by lt key x l).
Proof using lt_asym.
  induction 1 as [|y l Hs IH Hhd]; simpl.
  - repeat constructor.
  - destruct (lt (key y) (key x)) eqn:Hlt.
    + constructor; [done|].
      destruct l as [|z l]; simpl.
      * constructor. by apply lt_asym.
      * destruct (lt (key z) (key x)); constructor.
        -- by inversion Hhd.
        -- by apply lt_asym.
    + constructor; [by constructor|]. by constructor.
Qed.

Lemma py_sorted_Sorted (l : list A) :
  Sorted (le_key lt key) (PySort.sorted lt key l).
Proof using lt_asym.
  induction l as [|x l IH]; simpl; [constructor|].
  by apply py_insert_by_sorted.
Qed.

Context `{EqDecision K}.

Lemma py_insert_by_filter (k : K) (x : A) (l : list A) :
  Sorted (le_key lt key) l →
  filter (λ y, key y = k) (PySort.insert_by lt key x l)
  = filter (λ y, key y = k) (x :: l).
Proof using lt_asym.
  induction 1 as [|y l Hs IH Hhd]; simpl; [done|].
  destruct (lt (key y) (key x)) eqn:Hlt; [|done].
  rewrite !filter_cons in *.
  destruct (decide (key y = k)) as [Hy|Hy], (decide (key x = k)) as [Hx|Hx];
    try (rewrite IH; done).
  rewrite Hx, <- Hy in Hlt. pose proof (lt_asym _ _ Hlt). congruence.
Qed.

(** The sort is stable. *)
Lemma py_sorted_stable (k : K) (l : list A) :
  filter (λ y, key y = k) (PySort.sorted lt key l)
  = filter (λ y, key y = k) l.
Proof using lt_asym.
  induction l as [|x l IH]; simpl; [done|].
  rewrite py_insert_by_filter by apply py_sorted_Sorted.
  rewrite !filter_cons. by rewrite IH.
Qed.

End PySorted.

Section StrictOrder.
Context {K : Type} (lt : K → K → bool).
Hypothesis lt_total : ∀ a b, lt a b = false → lt b a = false → a = b.
Hypothesis lt_trans : ∀ a b c, lt a b = true → lt b c = true → lt a c = true.

Lemma Sorted_strict (l : list K) :
  NoDup l → Sorted (le_key lt id) l →
  StronglySorted (λ a b, lt a b = true) l.
Proof using lt_total lt_trans.
  intros Hnd Hs. apply Sorted_StronglySorted.
  { intros a b c. apply lt_trans. }
  induction Hs as [|a l Hs IH Hhd]; [constructor|].
  apply NoDup_cons in Hnd as [Hnotin Hnd].
  constructor; [by apply IH|].
  destruct Hhd as [|b l Hab]; constructor.
  destruct (lt a b) eqn:Hlt; [done|]. exfalso. apply Hnotin.
  rewrite (lt_total a b Hlt Hab). by left.
Qed.

End StrictOrder.

Section Orders.

Lemma Zltb_asym (a b : Z) : (a <? b)%Z = true → (b <? a)%Z = false.
Proof. intros ?%Z.ltb_lt. apply Z.ltb_ge. lia. Qed.

Lemma pair_lt_asym (a b : Z * Z) :
  PySort.pair_lt a b = true → PySort.pair_lt b a = false.
Proof.
  destruct a as [a1 a2], b as [b1 b2]. unfold PySort.pair_lt. simpl.
  destruct (Z.ltb_spec a1 b1), (Z.eqb_spec a1 b1), (Z.ltb_spec a2 b2),
    (Z.ltb_spec b1 a1), (Z.eqb_spec b1 a1), (Z.ltb_spec b2 a2);
    simpl; intros; try done; lia.
Qed.

Lemma pair_lt_total (a b : Z * Z) :
  PySort.pair_lt a b = false → PySort.pair_lt b a = false → a = b.
Proof.
  destruct a as [a1 a2], b as [b1 b2]. unfold PySort.pair_lt. simpl.
  destruct (Z.ltb_spec a1 b1), (Z.eqb_spec a1 b1), (Z.ltb_spec a2 b2),
    (Z.ltb_spec b1 a1), (Z.eqb_spec b1 a1), (Z.ltb_spec b2 a2);
    simpl; intros; try done; f_equal; lia.
Qed.

Lemma pair_lt_trans (a b c : Z * Z) :
  PySort.pair_lt a b = true → PySort.pair_lt b c = true →
  PySort.pair_lt a c = true.
Proof.
  destruct a as [a1 a2], b as [b1 b2], c as [c1 c2].
  unfold PySort.pair_lt. simpl.
  destruct (Z.ltb_spec a1 b1), (Z.eqb_spec a1 b1), (Z.ltb_spec a2 b2),
    (Z.ltb_spec b1 c1), (Z.eqb_spec b1 c1), (Z.ltb_spec b2 c2),
    (Z.ltb_spec a1 c1), (Z.eqb_spec a1 c1), (Z.ltb_spec a2 c2);
    simpl; intros; try done; lia.
Qed.

End Orders.

Section SortedLists.
Context {A : Type}.

Lemma StronglySorted_lookup (R : A → A → Prop) (l : list A) (i j : nat)
      (x y : A) :
  StronglySorted R l → l !! i = Some x → l !! j = Some y → i < j → R x y.
Proof.
  intros Hs. revert i j. induction Hs as [|a l Hs IH Hall]; intros i j Hi Hj Hlt.
  - done.
  - destruct j as [|j]; [lia|]. destruct i as [|i]; simpl in *.
    + injection Hi as <-. eapply Forall_forall; [done|].
      by eapply list_elem_of_lookup_2.
    + apply (IH i j); [done|done|lia].
Qed.

Lemma Sorted_weaken (R R' : A → A → Prop) (l : list A) :
  (∀ a b, R a b → R' a b) → Sorted R l → Sorted R' l.
Proof.
  intros HR. induction 1 as [|a l Hs IH Hhd]; constructor; [done|].
  destruct Hhd; constructor. by apply HR.
Qed.

End SortedLists.

(** ** The Line Grouper *)

Section GroupLines.
Import Ocr Lines.

Lemma lines_dict_snoc (blocks : list OcrBlock) (b : OcrBlock) :
  lines_dict_of (blocks ++ [b]) = add_word (lines_dict_of blocks) b.
Proof. unfold lines_dict_of. by rewrite fold_left_app. Qed.

Lemma words_of_snoc (k : Z * Z) (blocks : list OcrBlock) (b : OcrBlock) :
  words_of k (blocks ++ [b])
  = words_of k blocks
    ++ (if decide (is_word b ∧ line_key b = k) then [b] else []).
Proof.
  unfold words_of. by rewrite filter_app.
Qed.

(** The dictionary holds, under each key, the words of that key in input
    order, and no entry for a key without words. *)
Lemma lines_dict_lookup (blocks : list OcrBlock) (k : Z * Z) :
  lines_dict_of blocks !! k
  = match words_of k blocks with [] => None | l => Some l end.
Proof.
  induction blocks as [|b blocks IH] using rev_ind; [done|].
  rewrite lines_dict_snoc, words_of_snoc. unfold add_word.
  destruct (Z.eqb_spec (level b) 5) as [Hw|Hw].
  - fold (line_key b). destruct (decide (line_key b = k)) as [<-|Hne].
    + rewrite lookup_insert_eq, IH, decide_True by done.
      destruct (words_of (line_key b) blocks); done.
    + rewrite lookup_insert_ne, IH by done.
      rewrite decide_False by (by intros [_ ?]). by rewrite app_nil_r.
  - rewrite IH, decide_False by (by intros [? _]). by rewrite app_nil_r.
Qed.

Lemma lines_dict_total (blocks : list OcrBlock) (k : Z * Z) :
  lines_dict_of blocks !!! k = words_of k blocks.
Proof.
  rewrite lookup_total_alt, lines_dict_lookup.
  by destruct (words_of k blocks).
Qed.

Lemma group_into_lines_eq (blocks : list OcrBlock) :
  group_into_lines blocks
  = (λ k, PySort.sorted Z.ltb left_edge (words_of k blocks))
      <$> line_keys blocks.
Proof.
  unfold group_into_lines, line_keys. apply list_fmap_ext.
  intros i k _. by rewrite lines_dict_total.
Qed.

Lemma line_keys_NoDup (blocks : list OcrBlock) : NoDup (line_keys blocks).
Proof.
  unfold line_keys. rewrite py_sorted_perm. apply NoDup_fst_map_to_list.
Qed.

Lemma line_keys_elem (blocks : list OcrBlock) (k : Z * Z) :
  k ∈ line_keys blocks ↔ words_of k blocks ≠ [].
Proof.
  unfold line_keys. rewrite py_sorted_perm, list_elem_of_fmap. split.
  - intros ([k' l] & -> & Hin). apply elem_of_map_to_list in Hin.
    rewrite lines_dict_lookup in Hin. simpl.
    by destruct (words_of k' blocks).
  - intros Hne. exists (k, words_of k blocks). split; [done|].
    apply elem_of_map_to_list. rewrite lines_dict_lookup.
    by destruct (words_of k blocks).
Qed.

Lemma line_keys_sorted (blocks : list OcrBlock) :
  StronglySorted (λ a b, PySort.pair_lt a b = true) (line_keys blocks).
Proof.
  apply Sorted_strict.
  - apply pair_lt_total.
  - apply pair_lt_trans.
  - apply line_keys_NoDup.
  - apply py_sorted_Sorted. apply pair_lt_asym.
Qed.

Lemma words_of_filter (k : Z * Z) (blocks : list OcrBlock) :
  words_of k blocks
  = filter (λ w, line_key w = k) (filter is_word blocks).
Proof.
  unfold words_of. induction blocks as [|b blocks IH]; [done|].
  rewrite !filter_cons, IH.
  destruct (decide (is_word b)) as [Hw|Hw].
  - rewrite filter_cons. destruct (decide (line_key b = k)).
    + by rewrite decide_True.
    + by rewrite decide_False by (by intros [_ ?]).
  - by rewrite decide_False by (by intros [? _]).
Qed.

Lemma concat_by_key_cons (ks : list (Z * Z)) (b : OcrBlock)
      (l : list OcrBlock) :
  NoDup ks →
  concat ((λ k, filter (λ w, line_key w = k) (b :: l)) <$> ks)
  ≡ₚ (if decide (line_key b ∈ ks) then [b] else [])
     ++ concat ((λ k, filter (λ w, line_key w = k) l) <$> ks).
Proof.
  induction 1 as [|k ks Hk Hnd IH]; csimpl.
  - done.
  - rewrite filter_cons, IH.
    destruct (decide (line_key b = k)) as [<-|Hne],
      (decide (line_key b ∈ ks)) as [Hin|Hnin],
      (decide (line_key b ∈ _ :: ks)) as [Hin'|Hnin']; try done.
    + exfalso. apply Hnin'. by left.
    + csimpl. by rewrite Permutation_middle.
    + exfalso. apply Hnin'. by right.
    + by apply elem_of_cons in Hin' as [?|?].
Qed.

Lemma concat_by_key (ks : list (Z * Z)) (l : list OcrBlock) :
  NoDup ks → Forall (λ w, line_key w ∈ ks) l →
  concat ((λ k, filter (λ w, line_key w = k) l) <$> ks) ≡ₚ l.
Proof.
  intros Hnd. induction 1 as [|b l Hb Hl IH].
  - induction ks as [|k ks IHks]; [done|]. csimpl.
    apply IHks. by apply NoDup_cons in Hnd as [_ ?].
  - rewrite concat_by_key_cons by done.
    rewrite decide_True by done. csimpl. by f_equiv.
Qed.

End GroupLines.

Lemma lines_partition (blocks : list Ocr.OcrBlock) :
  concat (Lines.group_into_lines blocks) ≡ₚ filter is_word blocks.
Proof.
  rewrite group_into_lines_eq.
  transitivity (concat ((λ k, filter (λ w, line_key w = k)
                                (filter is_word blocks))
                          <$> line_keys blocks)).
  - induction (line_keys blocks) as [|k ks IH]; [done|]. csimpl.
    by rewrite IH, py_sorted_perm, words_of_filter.
  - apply concat_by_key; [apply line_keys_NoDup|].
    apply Forall_forall. intros w Hw. apply line_keys_elem.
    apply list_elem_of_filter in Hw as [Hw Hin].
    intros Hnil. assert (w ∈ words_of (line_key w) blocks) as Hin'
        by (by apply list_elem_of_filter).
    rewrite Hnil in Hin'. by apply elem_of_nil in Hin'.
Qed.

(** X1: the lines that [group_into_lines] returns hold, together, exactly
    the word-level blocks of its input, each once; blocks of any other
    level are left out. *)
Theorem group_into_lines_partition (blocks : list Ocr.OcrBlock) :
  concat (Lines.group_into_lines blocks) ≡ₚ filter is_word blocks.
Proof. apply lines_partition. Qed.

Lemma lines_nonempty_keyed (blocks : list Ocr.OcrBlock) :
  Forall (λ line,
            line ≠ []
            ∧ ∃ k, Forall (λ w, w ∈ blocks ∧ is_word w ∧ line_key w = k) line)
         (Lines.group_into_lines blocks).
Proof.
  rewrite group_into_lines_eq. apply Forall_fmap, Forall_forall.
  intros k Hk. apply line_keys_elem in Hk. simpl. split.
  - intros Hnil. apply Hk. apply Permutation_nil_r.
    by rewrite <- Hnil, py_sorted_perm.
  - exists k. apply Forall_forall. intros w Hw.
    rewrite py_sorted_perm in Hw.
    apply list_elem_of_filter in Hw as [[? ?] ?]. done.
Qed.

(** X2: every line that [group_into_lines] returns is non-empty, and its
    words are word-level blocks of the input that share one (block, line)
    key. *)
Theorem group_into_lines_lines (blocks : list Ocr.OcrBlock) :
  Forall (λ line,
            line ≠ []
            ∧ ∃ k, Forall (λ w, w ∈ blocks ∧ is_word w ∧ line_key w = k) line)
         (Lines.group_into_lines blocks).
Proof. apply lines_nonempty_keyed. Qed.

(** X3: the lines come in strictly increasing order of their (block, line)
    keys: a word of an earlier line has a smaller key than a word of a
    later line, so no two lines share a key. *)
Theorem group_into_lines_order (blocks : list Ocr.OcrBlock) (i j : nat)
        (li lj : list Ocr.OcrBlock) (a b : Ocr.OcrBlock) :
  Lines.group_into_lines blocks !! i = Some li →
  Lines.group_into_lines blocks !! j = Some lj →
  i < j → a ∈ li → b ∈ lj →
  PySort.pair_lt (line_key a) (line_key b) = true.
Proof.
  rewrite group_into_lines_eq, !list_lookup_fmap.
  intros Hi Hj Hlt Ha Hb.
  destruct (line_keys blocks !! i) as [ki|] eqn:Hki; [|done].
  destruct (line_keys blocks !! j) as [kj|] eqn:Hkj; [|done].
  simpl in Hi, Hj. injection Hi as <-. injection Hj as <-.
  rewrite py_sorted_perm in Ha, Hb.
  apply list_elem_of_filter in Ha as [[_ ->] _].
  apply list_elem_of_filter in Hb as [[_ ->] _].
  pose proof (line_keys_sorted blocks) as Hs.
  by apply (StronglySorted_lookup _ _ i j ki kj Hs).
Qed.

Lemma group_into_lines_order_witness :
  PySort.pair_lt (line_key (Ocr.mkOcrBlock "Name" (50, 100, 90, 120)%Z
                                          (Q2Qc (9 # 10)) 5 1 1 1))
                 (line_key (Ocr.mkOcrBlock "Age" (50, 140, 80, 160)%Z
                                          (Q2Qc (9 # 10)) 5 1 2 1))
  = true.
Proof.
  eapply (group_into_lines_order
            [Ocr.mkOcrBlock "Age" (50, 140, 80, 160)%Z (Q2Qc (9 # 10)) 5 1 2 1;
             Ocr.mkOcrBlock "Name" (50, 100, 90, 120)%Z (Q2Qc (9 # 10)) 5 1 1 1]
            0 1).
  - reflexivity.
  - reflexivity.
  - lia.
  - by left.
  - by left.
Defined.

(** X4: within a line the words go from left to right, the left edges
    never decreasing, and words with the same left edge keep the order
    they have in the input. *)
Theorem group_into_lines_left_to_right (blocks : list Ocr.OcrBlock) :
  Forall (λ line,
            Sorted (λ a b, (Lines.left_edge a ≤ Lines.left_edge b)%Z) line
            ∧ ∀ x, filter (λ w, Lines.left_edge w = x) line `sublist_of` blocks)
         (Lines.group_into_lines blocks).
Proof.
  rewrite group_into_lines_eq. apply Forall_fmap, Forall_forall.
  intros k _. simpl. split.
  - eapply Sorted_weaken; [|apply (py_sorted_Sorted _ _ Zltb_asym)].
    intros a b Hab. unfold le_key in Hab. by apply Z.ltb_ge in Hab.
  - intros x. rewrite (py_sorted_stable _ _ Zltb_asym).
    etrans; apply sublist_filter.
Qed.

(** ** Merging boxes *)

Section MinMax.

Lemma fold_min_le (l : list Z) (x : Z) :
  (fold_left Z.min l x ≤ x)%Z ∧ Forall (λ y, (fold_left Z.min l x ≤ y)%Z) l.
Proof.
  revert x. induction l as [|a l IH]; intros x; simpl; [by split|].
  destruct (IH (Z.min x a)) as [H1 H2]. split; [lia|].
  constructor; [lia|done].
Qed.

Lemma fold_min_elem (l : list Z) (x : Z) : fold_left Z.min l x ∈ x :: l.
Proof.
  revert x. induction l as [|a l IH]; intros x; simpl; [by left|].
  pose proof (IH (Z.min x a)) as Hin.
  apply elem_of_cons in Hin as [Heq|Hin].
  - rewrite Heq. destruct (Z.min_spec x a) as [[_ ->]|[_ ->]];
      [by left|right; by left].
  - right. by right.
Qed.

Lemma fold_max_ge (l : list Z) (x : Z) :
  (x ≤ fold_left Z.max l x)%Z ∧ Forall (λ y, (y ≤ fold_left Z.max l x)%Z) l.
Proof.
  revert x. induction l as [|a l IH]; intros x; simpl; [by split|].
  destruct (IH (Z.max x a)) as [H1 H2]. split; [lia|].
  constructor; [lia|done].
Qed.

Lemma fold_max_elem (l : list Z) (x : Z) : fold_left Z.max l x ∈ x :: l.
Proof.
  revert x. induction l as [|a l IH]; intros x; simpl; [by left|].
  pose proof (IH (Z.max x a)) as Hin.
  apply elem_of_cons in Hin as [Heq|Hin].
  - rewrite Heq. destruct (Z.max_spec x a) as [[_ ->]|[_ ->]];
      [right; by left|by left].
  - right. by right.
Qed.

Lemma py_min_spec (l : list Z) (m : Z) :
  PySort.py_min l = Some m ↔ m ∈ l ∧ Forall (λ y, (m ≤ y)%Z) l.
Proof.
  destruct l as [|x l]; simpl.
  - split; [done|]. intros [H _]. by apply elem_of_nil in H.
  - destruct (fold_min_le l x) as [H1 H2]. split.
    + intros [= <-]. split; [apply fold_min_elem|by constructor].
    + intros [Hin Hle]. f_equal.
      assert (Forall (λ y, (fold_left Z.min l x ≤ y)%Z) (x :: l)) as Hall
          by (by constructor).
      pose proof (proj1 (Forall_forall _ _) Hall m Hin).
      pose proof (proj1 (Forall_forall _ _) Hle _ (fold_min_elem l x)).
      simpl in *. lia.
Qed.

Lemma py_max_spec (l : list Z) (m : Z) :
  PySort.py_max l = Some m ↔ m ∈ l ∧ Forall (λ y, (y ≤ m)%Z) l.
Proof.
  destruct l as [|x l]; simpl.
  - split; [done|]. intros [H _]. by apply elem_of_nil in H.
  - destruct (fold_max_ge l x) as [H1 H2]. split.
    + intros [= <-]. split; [apply fold_max_elem|by constructor].
    + intros [Hin Hle]. f_equal.
      assert (Forall (λ y, (y ≤ fold_left Z.max l x)%Z) (x :: l)) as Hall
          by (by constructor).
      pose proof (proj1 (Forall_forall _ _) Hall m Hin).
      pose proof (proj1 (Forall_forall _ _) Hle _ (fold_max_elem l x)).
      simpl in *. lia.
Qed.

Lemma merge_bboxes_some (bboxes : list Models.bbox) (m : Models.bbox) :
  Lines.merge_bboxes bboxes = Some m ↔
  PySort.py_min ((λ b : Models.bbox, b.1.1.1) <$> bboxes) = Some (box_x1 m)
  ∧ PySort.py_min ((λ b : Models.bbox, b.1.1.2) <$> bboxes) = Some (box_y1 m)
  ∧ PySort.py_max ((λ b : Models.bbox, b.1.2) <$> bboxes) = Some (box_x2 m)
  ∧ PySort.py_max ((λ b : Models.bbox, b.2) <$> bboxes) = Some (box_y2 m).
Proof.
  unfold Lines.merge_bboxes, FieldDetector._int_bbox.
  destruct m as [[[mx1 my1] mx2] my2].
  unfold box_x1, box_y1, box_x2, box_y2. simpl.
  destruct (PySort.py_min ((λ b : Models.bbox, b.1.1.1) <$> bboxes));
    destruct (PySort.py_min ((λ b : Models.bbox, b.1.1.2) <$> bboxes));
    destruct (PySort.py_max ((λ b : Models.bbox, b.1.2) <$> bboxes));
    destruct (PySort.py_max ((λ b : Models.bbox, b.2) <$> bboxes));
    simpl; intuition congruence.
Qed.

End MinMax.

Lemma merge_bboxes_bounds (bboxes : list Models.bbox) :
  match Lines.merge_bboxes bboxes with
  | None => bboxes = []
  | Some m =>
      bboxes ≠ []
      ∧ Forall (λ b, within b m) bboxes
      ∧ ∀ m', Forall (λ b, within b m') bboxes → within m m'
  end.
Proof.
  destruct (Lines.merge_bboxes bboxes) as [m|] eqn:Hm.
  - apply merge_bboxes_some in Hm as (Hx1 & Hy1 & Hx2 & Hy2).
    apply py_min_spec in Hx1 as [Hx1 Hx1'], Hy1 as [Hy1 Hy1'].
    apply py_max_spec in Hx2 as [Hx2 Hx2'], Hy2 as [Hy2 Hy2'].
    rewrite Forall_fmap in Hx1', Hy1', Hx2', Hy2'.
    apply list_elem_of_fmap in Hx1 as (b1 & Hb1 & Hin1).
    apply list_elem_of_fmap in Hy1 as (b2 & Hb2 & Hin2).
    apply list_elem_of_fmap in Hx2 as (b3 & Hb3 & Hin3).
    apply list_elem_of_fmap in Hy2 as (b4 & Hb4 & Hin4).
    split; [by intros ->; apply elem_of_nil in Hin1|]. split.
    + apply Forall_forall. intros b Hb.
      pose proof (proj1 (Forall_forall _ _) Hx1' b Hb).
      pose proof (proj1 (Forall_forall _ _) Hy1' b Hb).
      pose proof (proj1 (Forall_forall _ _) Hx2' b Hb).
      pose proof (proj1 (Forall_forall _ _) Hy2' b Hb).
      unfold within, box_x1, box_y1, box_x2, box_y2 in *. simpl in *. lia.
    + intros m' Hall.
      pose proof (proj1 (Forall_forall _ _) Hall b1 Hin1) as H1.
      pose proof (proj1 (Forall_forall _ _) Hall b2 Hin2) as H2.
      pose proof (proj1 (Forall_forall _ _) Hall b3 Hin3) as H3.
      pose proof (proj1 (Forall_forall _ _) Hall b4 Hin4) as H4.
      unfold within, box_x1, box_y1, box_x2, box_y2 in *. lia.
  - unfold Lines.merge_bboxes in Hm. by destruct bboxes.
Qed.

Lemma merge_bboxes_ordered (bboxes : list Models.bbox)
        (m : Models.bbox) :
  Forall well_formed bboxes → Lines.merge_bboxes bboxes = Some m →
  well_formed m.
Proof.
  intros Hwf Hm. pose proof (merge_bboxes_bounds bboxes) as Hs.
  rewrite Hm in Hs. destruct Hs as (Hne & Hall & _).
  destruct bboxes as [|b bboxes]; [done|].
  apply Forall_cons in Hwf as [Hb _]. apply Forall_cons in Hall as [Hbm _].
  unfold well_formed, within in *. lia.
Qed.

(** X5: [merge_bboxes] fails on no box at all and only then; otherwise the
    box it returns contains every input box and is the smallest box that
    does. *)
Theorem merge_bboxes_smallest (bboxes : list Models.bbox) :
  match Lines.merge_bboxes bboxes with
  | None => bboxes = []
  | Some m =>
      bboxes ≠ []
      ∧ Forall (λ b, within b m) bboxes
      ∧ ∀ m', Forall (λ b, within b m') bboxes → within m m'
  end.
Proof. apply merge_bboxes_bounds. Qed.

(** X6: merging boxes whose corners are in order gives a box whose corners
    are in order. *)
Theorem merge_bboxes_well_formed (bboxes : list Models.bbox)
        (m : Models.bbox) :
  Forall well_formed bboxes → Lines.merge_bboxes bboxes = Some m →
  well_formed m.
Proof. apply merge_bboxes_ordered. Qed.

Lemma merge_bboxes_well_formed_witness :
  well_formed (50, 98, 160, 121)%Z.
Proof.
  apply (merge_bboxes_well_formed [(50, 100, 90, 120); (95, 98, 160, 121)]%Z).
  - repeat (apply Forall_cons_2;
              [unfold well_formed, box_x1, box_x2, box_y1, box_y2; simpl; lia|]).
    apply Forall_nil_2.
  - reflexivity.
Defined.

(** X7: merging two groups of boxes at once is merging the merged box of
    each group. *)
Theorem merge_bboxes_app (l1 l2 : list Models.bbox) (m1 m2 : Models.bbox) :
  Lines.merge_bboxes l1 = Some m1 → Lines.merge_bboxes l2 = Some m2 →
  Lines.merge_bboxes (l1 ++ l2) = Lines.merge_bboxes [m1; m2].
Proof.
  intros H1 H2.
  pose proof (merge_bboxes_bounds l1) as Hs1. rewrite H1 in Hs1.
  pose proof (merge_bboxes_bounds l2) as Hs2. rewrite H2 in Hs2.
  pose proof (merge_bboxes_bounds (l1 ++ l2)) as Hs.
  pose proof (merge_bboxes_bounds [m1; m2]) as Hs'.
  destruct Hs1 as (Hne1 & Hin1 & Hmin1), Hs2 as (Hne2 & Hin2 & Hmin2).
  destruct (Lines.merge_bboxes (l1 ++ l2)) as [m|];
    [|by destruct l1].
  destruct (Lines.merge_bboxes [m1; m2]) as [m'|]; [|done].
  destruct Hs as (_ & Hin & Hmin), Hs' as (_ & Hin' & Hmin').
  apply Forall_app in Hin as [Hinl Hinr].
  apply Forall_cons in Hin' as [Hm1 Hin']. apply Forall_cons in Hin' as [Hm2 _].
  assert (within m m') as Hmm'.
  { apply Hmin. apply Forall_app. split.
    - eapply Forall_impl; [exact Hin1|]. intros b Hb.
      unfold within in *. lia.
    - eapply Forall_impl; [exact Hin2|]. intros b Hb.
      unfold within in *. lia. }
  assert (within m' m) as Hm'm.
  { apply Hmin'. constructor; [by apply Hmin1|].
    constructor; [by apply Hmin2|constructor]. }
  f_equal. destruct m as [[[a1 a2] a3] a4], m' as [[[c1 c2] c3] c4].
  unfold within, box_x1, box_y1, box_x2, box_y2 in *. simpl in *.
  repeat f_equal; lia.
Qed.

Lemma merge_bboxes_app_witness :
  Lines.merge_bboxes ([(50, 100, 90, 120)%Z] ++ [(95, 98, 160, 121)%Z])
  = Lines.merge_bboxes [(50, 100, 90, 120)%Z; (95, 98, 160, 121)%Z].
Proof.
  apply (merge_bboxes_app [(50, 100, 90, 120)%Z] [(95, 98, 160, 121)%Z]);
    reflexivity.
Defined.

(** ** The candidate regions *)

Section DetectRegions.

(** The aspect test in integers. *)
Lemma aspect_above_2 (w h : Z) :
  FieldDetector.Qltb 2 (inject_Z w / inject_Z (Z.max h 1))
  = (2 * Z.max h 1 <? w)%Z.
Proof.
  unfold FieldDetector.Qltb.
  destruct (Z.max h 1) as [|p|p] eqn:Hm; [lia| |lia].
  destruct (Z.ltb_spec (2 * Z.pos p) w) as [Hlt|Hge].
  - apply negb_true_iff. destruct (Qle_bool _ 2) eqn:Hq; [|done].
    apply Qle_bool_iff in Hq. exfalso. revert Hq.
    unfold Qle, Qdiv, Qmult, Qinv, inject_Z. simpl. lia.
  - apply negb_false_iff, Qle_bool_iff.
    unfold Qle, Qdiv, Qmult, Qinv, inject_Z. simpl. lia.
Qed.

Lemma underline_region_shaped (line : Z * Z * Z * Z) :
  Forall underline_shaped (Regions.underline_region line).
Proof.
  destruct line as [[[x1 y1] x2] y2]. unfold Regions.underline_region.
  destruct (Z.abs (y2 - y1) <? 5)%Z; [|constructor].
  repeat constructor; unfold box_x1, box_x2, box_y1, box_y2; simpl; lia.
Qed.

Lemma box_region_shaped (rect : Z * Z * Z * Z) :
  Forall box_shaped (Regions.box_region rect).
Proof.
  destruct rect as [[[x y] w] h]. unfold Regions.box_region. cbv zeta.
  rewrite aspect_above_2.
  destruct (Z.ltb_spec (2 * Z.max h 1) w), (Z.ltb_spec 80 w),
    (Z.ltb_spec 15 h), (Z.ltb_spec h 80); simpl; try constructor; [|done].
  unfold box_shaped, box_x1, box_x2, box_y1, box_y2; simpl. lia.
Qed.

End DetectRegions.

(** X8: every region that [detect_input_regions] returns is either a band
    exactly 25 high over an underline, its left edge not right of its
    right edge, or a box more than 80 wide, 16 to 79 high and more than
    twice as wide as high; so every region has its corners in order. *)
Theorem detect_input_regions_shapes (cv : string → Regions.CvResult)
        (image_bytes : string) :
  Forall (λ r, (underline_shaped r ∨ box_shaped r)
               ∧ (box_x1 r ≤ box_x2 r ∧ box_y1 r < box_y2 r)%Z)
         (Regions.detect_input_regions cv image_bytes).
Proof.
  unfold Regions.detect_input_regions.
  destruct (cv image_bytes) as [[lines rects]|]; [|constructor].
  apply Forall_app. split.
  - destruct lines as [lines|]; [|constructor].
    apply Forall_flat_map, Forall_forall. intros line _.
    eapply Forall_impl; [apply underline_region_shaped|].
    intros r Hr. split; [by left|]. unfold underline_shaped in Hr. lia.
  - apply Forall_flat_map, Forall_forall. intros rect _.
    eapply Forall_impl; [apply box_region_shaped|].
    intros r Hr. split; [by right|]. unfold box_shaped in Hr. lia.
Qed.

(** ** The heuristic field builder *)

Section DetectLoop.
Import Models.
Variable cv : string → Regions.CvResult.
Variable round_mean : list Qc → Qc.

Lemma detect_line_spec (page : Ocr.PageData) (input_regions : list bbox)
      (fields : list FormField) (line : list Ocr.OcrBlock) :
  line ≠ [] →
  (¬ classified line
   ∧ Detect.detect_line round_mean page input_regions fields line
     = Some fields)
  ∨ (classified line
     ∧ ∃ f, Detect.detect_line round_mean page input_regions fields line
            = Some (fields ++ [f])
            ∧ field_id f = FieldOrdering.new_id (length fields)
            ∧ from_line round_mean page input_regions line f).
Proof.
  intros Hne. unfold Detect.detect_line, classified.
  fold (line_text line).
  destruct (FieldDetector.classify_label (line_text line)) as [ft|] eqn:Hc.
  - right. split; [by eexists|].
    pose proof (merge_bboxes_bounds (Ocr.bbox <$> line)) as Hm.
    destruct (Lines.merge_bboxes (Ocr.bbox <$> line)) as [m|] eqn:Hmerge.
    2:{ by apply fmap_nil_inv in Hm. }
    destruct line as [|w line]; [done|]. simpl.
    eexists. split; [done|]. split; [done|].
    repeat (split; [done|]). done.
  - left. split; [|done]. by intros [? ?].
Qed.

Lemma detect_loop_spec (page : Ocr.PageData) (input_regions : list bbox)
      (lines : list (list Ocr.OcrBlock)) (fields : list FormField) :
  Forall (λ line, line ≠ []) lines →
  ∃ new,
    Detect.detect_loop round_mean page input_regions fields lines
    = Some (fields ++ new)
    ∧ field_id <$> new
      = FieldOrdering.new_id <$> seq (length fields) (length new)
    ∧ Forall2 (from_line round_mean page input_regions)
              (filter classified lines) new.
Proof.
  intros Hne. revert fields.
  induction Hne as [|line lines Hline Hne IH]; intros fields.
  - exists []. by rewrite app_nil_r.
  - cbn [Detect.detect_loop]. rewrite filter_cons.
    destruct (detect_line_spec page input_regions fields line Hline)
      as [[Hnc ->]|(Hc & f & -> & Hid & Hf)]; simpl.
    + rewrite decide_False by done. apply IH.
    + rewrite decide_True by done.
      destruct (IH (fields ++ [f])) as (new & -> & Hids & Hall).
      exists (f :: new). rewrite <- app_assoc. split; [done|].
      split; [|by constructor].
      rewrite length_app in Hids. simpl in Hids. csimpl.
      rewrite Hid, Hids. by replace (length fields + 1) with (S (length fields)) by lia.
Qed.

Lemma detect_fields_spec (page : Ocr.PageData) :
  ∃ fields,
    Detect.detect_fields cv round_mean page = Some fields
    ∧ field_id <$> fields = FieldOrdering.new_id <$> seq 0 (length fields)
    ∧ Forall2 (from_line round_mean page
                 (Regions.detect_input_regions cv (Ocr.image_bytes page)))
              (filter classified
                      (Lines.group_into_lines (Ocr.ocr_blocks page)))
              fields.
Proof.
  unfold Detect.detect_fields.
  destruct (detect_loop_spec page
              (Regions.detect_input_regions cv (Ocr.image_bytes page))
              (Lines.group_into_lines (Ocr.ocr_blocks page)) [])
    as (new & Hloop & Hids & Hall).
  - eapply Forall_impl; [apply lines_nonempty_keyed|]. by intros l [? _].
  - by exists new.
Qed.

Lemma target_region_origin (label : bbox) (regions : list bbox)
      (page_width : Z) :
  FieldDetector.target_region label regions page_width ∈ regions
  ∨ (none_within label regions 200
     ∧ FieldDetector.target_region label regions page_width
       = FieldDetector.infer_answer_region label page_width).
Proof.
  unfold FieldDetector.target_region,
    FieldDetector.find_nearest_input_region.
  destruct (nearest_fold label regions None 200)
    as [[Heq Hnone]|(i & c & d & Heq & Hi & _)]; rewrite Heq; simpl.
  - by right.
  - left. by eapply list_elem_of_lookup_2.
Qed.

End DetectLoop.

Section DetectCount.


Example sample_detect :
  Detect.detect_fields sample_cv sample_mean sample_page
  = Some sample_fields.
Proof. reflexivity. Qed.

End DetectCount.

Lemma detect_fields_from_lines (cv : string → Regions.CvResult)
        (round_mean : list Qc → Qc) (page : Ocr.PageData)
        (fields : list Models.FormField) :
  Detect.detect_fields cv round_mean page = Some fields →
  Forall2 (from_line round_mean page
             (Regions.detect_input_regions cv (Ocr.image_bytes page)))
          (filter classified (Lines.group_into_lines (Ocr.ocr_blocks page)))
          fields.
Proof.
  intros Hd.
  destruct (detect_fields_spec cv round_mean page) as (fields' & Hd' & _ & Hall).
  rewrite Hd in Hd'. by injection Hd' as <-.
Qed.


(** X10: the fields that [detect_fields] returns carry the provisional
    identifiers "f000", "f001", ... in the order of the list, without gaps
    or repeats. *)
Theorem detect_fields_ids (cv : string → Regions.CvResult)
        (round_mean : list Qc → Qc) (page : Ocr.PageData)
        (fields : list Models.FormField) :
  Detect.detect_fields cv round_mean page = Some fields →
  Models.field_id <$> fields = FieldOrdering.new_id <$> seq 0 (length fields)
  ∧ NoDup (Models.field_id <$> fields).
Proof.
  intros Hd.
  destruct (detect_fields_spec cv round_mean page) as (fields' & Hd' & Hids & _).
  rewrite Hd in Hd'. injection Hd' as <-. split; [done|].
  rewrite Hids. apply new_ids_NoDup.
Qed.

Lemma detect_fields_ids_witness :
  Models.field_id <$> sample_fields = ["f000"; "f001"].
Proof.
  apply (detect_fields_ids sample_cv sample_mean sample_page sample_fields).
  reflexivity.
Defined.

(** X11: [detect_fields] returns one field for each line that classifies as
    a label, in the order of the lines, and that field carries the type,
    cleaned text, required flag, merged box, target, page index and
    confidence of its line, and an empty answer. *)
Theorem detect_fields_lines (cv : string → Regions.CvResult)
        (round_mean : list Qc → Qc) (page : Ocr.PageData)
        (fields : list Models.FormField) :
  Detect.detect_fields cv round_mean page = Some fields →
  Forall2 (from_line round_mean page
             (Regions.detect_input_regions cv (Ocr.image_bytes page)))
          (filter classified (Lines.group_into_lines (Ocr.ocr_blocks page)))
          fields.
Proof. apply detect_fields_from_lines. Qed.

Lemma detect_fields_lines_witness :
  length (filter classified (Lines.group_into_lines (Ocr.ocr_blocks sample_page)))
  = length sample_fields.
Proof.
  eapply Forall2_length.
  apply (detect_fields_lines sample_cv sample_mean sample_page sample_fields).
  reflexivity.
Defined.

(** X12: the target of a field that [detect_fields] returns is one of the
    regions detected in the page image or, when none of them is within
    the cap of its label box, the region inferred from that box and the
    page width. *)
Theorem detect_fields_targets (cv : string → Regions.CvResult)
        (round_mean : list Qc → Qc) (page : Ocr.PageData)
        (fields : list Models.FormField) (f : Models.FormField) :
  Detect.detect_fields cv round_mean page = Some fields → f ∈ fields →
  Models.target_bbox f
  ∈ Regions.detect_input_regions cv (Ocr.image_bytes page)
  ∨ (none_within (Models.label_bbox f)
                 (Regions.detect_input_regions cv (Ocr.image_bytes page)) 200
     ∧ Models.target_bbox f
       = FieldDetector.infer_answer_region (Models.label_bbox f)
                                           (Ocr.width page)).
Proof.
  intros Hd Hf. apply detect_fields_from_lines in Hd.
  apply list_elem_of_lookup in Hf as [i Hi].
  destruct (Forall2_lookup_r _ _ _ _ _ Hd Hi) as (line & _ & Hline).
  destruct Hline as (_ & _ & _ & _ & -> & _).
  apply target_region_origin.
Qed.

Lemma detect_fields_targets_witness :
  (150, 96, 400, 121)%Z
  ∈ Regions.detect_input_regions sample_cv (Ocr.image_bytes sample_page)
  ∨ (none_within (50, 100, 140, 120)%Z
                 (Regions.detect_input_regions sample_cv
                                               (Ocr.image_bytes sample_page))
                 200
     ∧ (150, 96, 400, 121)%Z
       = FieldDetector.infer_answer_region (50, 100, 140, 120)%Z
                                           (Ocr.width sample_page)).
Proof.
  apply (detect_fields_targets sample_cv sample_mean sample_page sample_fields
           (Models.mkFormField "f000" 0 "Full Name" Models.TEXT
              (150, 96, 400, 121)%Z (50, 100, 140, 120)%Z false
              (Q2Qc (9 # 10)) EmptyString EmptyString)).
  - reflexivity.
  - by left.
Defined.

(** X13: the label box of a field that [detect_fields] returns contains
    the box of every word of the line the field was read from, and has its
    corners in order when the boxes of the OCR blocks have. *)
Theorem detect_fields_label_boxes (cv : string → Regions.CvResult)
        (round_mean : list Qc → Qc) (page : Ocr.PageData)
        (fields : list Models.FormField) (f : Models.FormField) :
  Detect.detect_fields cv round_mean page = Some fields → f ∈ fields →
  ∃ line,
    line ∈ Lines.group_into_lines (Ocr.ocr_blocks page)
    ∧ Models.label_text f = FieldDetector.clean_label (line_text line)
    ∧ Forall (λ w, within (Ocr.bbox w) (Models.label_bbox f)) line
    ∧ (Forall (λ w, well_formed (Ocr.bbox w)) (Ocr.ocr_blocks page) →
       well_formed (Models.label_bbox f)).
Proof.
  intros Hd Hf. apply detect_fields_from_lines in Hd.
  apply list_elem_of_lookup in Hf as [i Hi].
  destruct (Forall2_lookup_r _ _ _ _ _ Hd Hi) as (line & Hl & Hline).
  apply list_elem_of_lookup_2, list_elem_of_filter in Hl as [_ Hl].
  destruct Hline as (_ & Htext & _ & Hm & _).
  exists line. split; [done|]. split; [done|].
  pose proof (merge_bboxes_bounds (Ocr.bbox <$> line)) as Hs.
  rewrite Hm in Hs. destruct Hs as (_ & Hin & _). split.
  - by rewrite Forall_fmap in Hin.
  - intros Hwf. apply (merge_bboxes_ordered (Ocr.bbox <$> line)); [|done].
    apply Forall_fmap, Forall_forall. intros w Hw.
    eapply (proj1 (Forall_forall _ _) Hwf).
    pose proof (lines_nonempty_keyed (Ocr.ocr_blocks page)) as Hlines.
    pose proof (proj1 (Forall_forall _ _) Hlines line Hl) as (_ & k & Hk).
    by pose proof (proj1 (Forall_forall _ _) Hk w Hw) as (? & _).
Qed.

Lemma detect_fields_label_boxes_witness :
  ∃ line,
    line ∈ Lines.group_into_lines (Ocr.ocr_blocks sample_page)
    ∧ "Full Name" = FieldDetector.clean_label (line_text line).
Proof.
  destruct (detect_fields_label_boxes sample_cv sample_mean sample_page
              sample_fields
              (Models.mkFormField "f000" 0 "Full Name" Models.TEXT
                 (150, 96, 400, 121)%Z (50, 100, 140, 120)%Z false
                 (Q2Qc (9 # 10)) EmptyString EmptyString))
    as (line & Hl & Ht & _).
  - reflexivity.
  - by left.
  - by exists line.
Defined.

(** ** Stripping *)

Section Strip.

Lemma lstrip_no_lead (s : string) : no_lead_space (PyStr.lstrip s).
Proof.
  induction s as [|c s IH]; simpl; [done|].
  destruct (PyStr.isspace c) eqn:Hc; [done|]. by simpl.
Qed.

Lemma lstrip_id (s : string) : no_lead_space s → PyStr.lstrip s = s.
Proof. destruct s as [|c s]; simpl; [done|]. by intros ->. Qed.

Lemma rstrip_no_lead (s : string) :
  no_lead_space s → no_lead_space (PyStr.rstrip s).
Proof.
  destruct s as [|c s]; simpl; [done|]. intros Hc.
  destruct (PyStr.rstrip s); [by rewrite Hc|done].
Qed.

Lemma rstrip_idem (s : string) :
  PyStr.rstrip (PyStr.rstrip s) = PyStr.rstrip s.
Proof.
  induction s as [|c s IH]; simpl; [done|].
  destruct (PyStr.rstrip s) as [|d r] eqn:Hr.
  - destruct (PyStr.isspace c) eqn:Hc; simpl; [done|]. by rewrite Hc.
  - cbn [PyStr.rstrip]. cbn [PyStr.rstrip] in IH. by rewrite IH.
Qed.

Lemma strip_no_lead (s : string) : no_lead_space (PyStr.strip s).
Proof. apply rstrip_no_lead, lstrip_no_lead. Qed.

(** Stripping twice is stripping once. *)
Lemma strip_idem (s : string) : PyStr.strip (PyStr.strip s) = PyStr.strip s.
Proof.
  unfold PyStr.strip at 1.
  rewrite (lstrip_id (PyStr.strip s)) by apply strip_no_lead.
  unfold PyStr.strip. apply rstrip_idem.
Qed.

End Strip.

(** ** Runs of a character class *)

Section Runs.
Import Re.
Context {R : Type}.
Variable icase : bool.
Variable p : ascii → bool.

Lemma orelse_none (a : option R) : orelse a None = a.
Proof. by destruct a. Qed.

Lemma star_loop_cls (k : option ascii → string → option R) (n : nat) :
  ∀ prev s, (String.length s ≤ n)%nat →
            star_loop (exec icase (Cls p)) k n prev s = greedy p k prev s.
Proof.
  induction n as [|n IH]; intros prev s Hlen.
  - destruct s; [done|simpl in Hlen; lia].
  - destruct s as [|x s]; [done|]. simpl in Hlen.
    cbn [star_loop exec greedy]. destruct (p x); [|done].
    replace (String.length s <? String.length (String x s))%nat with true
      by (symmetry; apply Nat.ltb_lt; simpl; lia).
    rewrite IH by lia. done.
Qed.

Lemma exec_plus_cls (k : option ascii → string → option R)
      (prev : option ascii) (s : string) :
  exec icase (Plus (Cls p)) prev s k
  = match s with
    | String x s' => if p x then greedy p k (Some x) s' else None
    | EmptyString => None
    end.
Proof.
  unfold Plus. cbn [exec]. destruct s as [|x s]; [done|].
  destruct (p x); [|done]. by apply star_loop_cls.
Qed.

End Runs.

Section RunMatches.
Import Re.
Variable icase : bool.
Variable p : ascii → bool.

Lemma greedy_total (prev : option ascii) (s : string) :
  greedy p (λ _ s', Some s') prev s = Some (skip p s).
Proof.
  revert prev. induction s as [|x s IH]; intros prev; [done|]. simpl.
  destruct (p x); [|done]. by rewrite IH.
Qed.

Lemma match_here_plus_cls (prev : option ascii) (s : string) :
  match_here icase (Plus (Cls p)) prev s
  = match s with
    | String x s' => if p x then Some (skip p s') else None
    | EmptyString => None
    end.
Proof.
  unfold match_here. rewrite exec_plus_cls. destruct s as [|x s]; [done|].
  destruct (p x); [|done]. apply greedy_total.
Qed.

Lemma skip_length (s : string) :
  (String.length (skip p s) ≤ String.length s)%nat.
Proof.
  induction s as [|x s IH]; simpl; [done|].
  destruct (p x); simpl; lia.
Qed.

Lemma skip_head (s : string) :
  match skip p s with
  | String c _ => p c = false
  | EmptyString => True
  end.
Proof.
  induction s as [|x s IH]; simpl; [done|].
  destruct (p x) eqn:Hx; [done|]. simpl. done.
Qed.

(** No character of the class is a newline. *)
Hypothesis Hnl : ∀ c, p c = true → (PyStr.code c =? 10)%N = false.

Lemma at_end_cls (x : ascii) (s : string) :
  p x = true → at_end (String x s) = false.
Proof using Hnl. intros Hx. simpl. destruct s; [by apply Hnl|done]. Qed.

Lemma greedy_eol (prev : option ascii) (s : string) :
  greedy p (λ prev' s', exec icase Eol prev' s' (λ _ s'', Some s'')) prev s
  = if at_end (skip p s) then Some (skip p s) else None.
Proof using Hnl.
  revert prev. induction s as [|x s IH]; intros prev; [done|].
  cbn [greedy skip]. destruct (p x) eqn:Hx; [|done].
  rewrite IH. cbn [exec]. rewrite (at_end_cls x s Hx). apply orelse_none.
Qed.

Lemma match_here_plus_cls_eol (prev : option ascii) (s : string) :
  match_here icase (Cat (Plus (Cls p)) Eol) prev s
  = match s with
    | String x s' =>
        if p x && at_end (skip p s') then Some (skip p s') else None
    | EmptyString => None
    end.
Proof using Hnl.
  unfold match_here. cbn [exec]. rewrite exec_plus_cls.
  destruct s as [|x s]; [done|]. destruct (p x); [|done].
  rewrite greedy_eol. simpl. done.
Qed.

Lemma sub_from_final (fuel : nat) (prev : option ascii) (s : string) :
  String.length s < fuel →
  sub_from fuel icase (Cat (Plus (Cls p)) Eol) EmptyString prev s
  = without_final p s.
Proof using Hnl.
  revert prev s. induction fuel as [|fuel IH]; intros prev s Hlen; [lia|].
  cbn [sub_from]. rewrite match_here_plus_cls_eol.
  destruct s as [|x s]; [done|]. simpl in Hlen. cbn [without_final].
  destruct (p x && at_end (skip p s)) eqn:Hm.
  - apply andb_prop in Hm as [Hx Hend].
    pose proof (skip_length s) as Hskip.
    replace (String.length (skip p s) <? String.length (String x s))%nat
      with true by (symmetry; apply Nat.ltb_lt; simpl; lia).
    cbn [String.append].
    pose proof (skip_head s) as Hhead.
    destruct (skip p s) as [|c rest] eqn:Hrest.
    + destruct fuel; [lia|done].
    + destruct rest; [|done].
      destruct fuel as [|fuel]; [lia|]. cbn [sub_from].
      rewrite match_here_plus_cls_eol, Hhead. simpl.
      destruct fuel; done.
  - f_equal. apply IH. lia.
Qed.

End RunMatches.

Section GreedyRuns.
Import Re.
Context {R : Type}.
Variable p : ascii → bool.
Variable k : option ascii → string → option R.
Hypothesis Hprev : ∀ a b s, k a s = k b s.

Lemma is_Some_orelse (a b : option R) :
  is_Some_b (orelse a b) = is_Some_b a || is_Some_b b.
Proof. by destruct a. Qed.

Lemma greedy_any_split (prev : option ascii) (s : string) :
  is_Some_b (greedy p k prev s)
  = any_split p (λ t, is_Some_b (k None t)) s.
Proof using Hprev.
  revert prev. induction s as [|x s IH]; intros prev.
  - simpl. by rewrite orb_false_r, (Hprev prev None).
  - cbn [greedy any_split]. destruct (p x).
    + rewrite is_Some_orelse, IH, (Hprev prev None). simpl.
      apply orb_comm.
    + simpl. by rewrite orb_false_r, (Hprev prev None).
Qed.

Hypothesis Hstart : ∀ a x s, p x = true → k a (String x s) = None.

Lemma greedy_reject (prev : option ascii) (s : string) :
  greedy p k prev s = k prev (skip p s).
Proof using Hprev Hstart.
  revert prev. induction s as [|x s IH]; intros prev; [done|].
  cbn [greedy skip]. destruct (p x) eqn:Hx; [|done].
  rewrite IH, (Hstart prev x s Hx), orelse_none. apply Hprev.
Qed.

End GreedyRuns.

Section Collapse.
Import Re.

Lemma collapse_skip (s : string) :
  collapse true s = collapse false (skip PyStr.isspace s).
Proof.
  induction s as [|c s IH]; [done|]. simpl.
  destruct (PyStr.isspace c) eqn:Hc; [done|]. simpl. by rewrite Hc.
Qed.

Lemma sub_from_collapse (fuel : nat) (prev : option ascii) (s : string) :
  String.length s < fuel →
  sub_from fuel false (Plus (Cls PyStr.isspace)) " " prev s
  = collapse false s.
Proof.
  revert prev s. induction fuel as [|fuel IH]; intros prev s Hlen; [lia|].
  cbn [sub_from]. rewrite match_here_plus_cls.
  destruct s as [|x s]; [done|]. simpl in Hlen. cbn [collapse].
  destruct (PyStr.isspace x).
  - pose proof (skip_length PyStr.isspace s) as Hskip.
    replace (String.length (skip PyStr.isspace s)
             <? String.length (String x s))%nat
      with true by (symmetry; apply Nat.ltb_lt; simpl; lia).
    cbn [String.append]. f_equal. rewrite IH by lia.
    symmetry. apply collapse_skip.
  - f_equal. apply IH. lia.
Qed.

Lemma colon_star_not_newline (c : ascii) :
  one_of ":*" c = true → (PyStr.code c =? 10)%N = false.
Proof.
  unfold one_of. simpl.
  destruct (Ascii.eqb_spec c ":") as [Hc|_]; [by rewrite Hc|].
  destruct (Ascii.eqb_spec c "*") as [Hc|_]; [by rewrite Hc|]. done.
Qed.

Lemma clean_label_runs (text : string) :
  FieldDetector.clean_label text
  = PyStr.strip
      (collapse false (without_final (one_of ":*") (PyStr.strip text))).
Proof.
  unfold FieldDetector.clean_label, sub.
  rewrite (sub_from_final false (one_of ":*") colon_star_not_newline)
    by lia.
  unfold FieldDetector.ws. rewrite sub_from_collapse by lia. done.
Qed.

End Collapse.

(** ** Cleaned labels *)

Section Spacing.

Lemma collapse_spaces_single (in_run : bool) (s : string) :
  spaces_single in_run (collapse in_run s) = true.
Proof.
  revert in_run. induction s as [|c s IH]; intros in_run; [done|]. simpl.
  destruct (PyStr.isspace c) eqn:Hc.
  - destruct in_run; [apply IH|]. simpl. apply IH.
  - simpl. rewrite Hc. apply IH.
Qed.

Lemma lstrip_spaces_single (b b' : bool) (s : string) :
  spaces_single b s = true → spaces_single b' (PyStr.lstrip s) = true.
Proof.
  revert b. induction s as [|c s IH]; intros b H; [done|]. simpl in *.
  destruct (PyStr.isspace c) eqn:Hc.
  - apply andb_prop in H as [_ H]. by eapply IH.
  - simpl. by rewrite Hc.
Qed.

Lemma rstrip_spaced (b : bool) (s : string) :
  spaces_single b s = true →
  match PyStr.rstrip s with
  | EmptyString => True
  | r => spaced b r = true
  end.
Proof.
  revert b. induction s as [|c s IH]; intros b H; [done|]. simpl in *.
  destruct (PyStr.isspace c) eqn:Hc.
  - apply andb_prop in H as [H1 H2]. specialize (IH true H2).
    destruct (PyStr.rstrip s) as [|d r]; [done|].
    cbn [spaced]. rewrite Hc, H1. exact IH.
  - specialize (IH false H).
    destruct (PyStr.rstrip s) as [|d r]; simpl; by rewrite Hc.
Qed.

Lemma strip_collapse_spaced (s : string) :
  single_spaced (PyStr.strip (collapse false s)) = true.
Proof.
  unfold single_spaced, PyStr.strip.
  pose proof (rstrip_spaced true (PyStr.lstrip (collapse false s))) as H.
  destruct (PyStr.rstrip (PyStr.lstrip (collapse false s))); [done|].
  apply H. eapply lstrip_spaces_single, collapse_spaces_single.
Qed.

Lemma spaced_spaces_single (b : bool) (s : string) :
  spaced b s = true → spaces_single b s = true.
Proof.
  revert b. induction s as [|c s IH]; intros b H; [done|]. simpl in *.
  destruct (PyStr.isspace c).
  - apply andb_prop in H as [H1 H2]. rewrite H1. simpl. by apply IH.
  - by apply IH.
Qed.

Lemma collapse_id (b : bool) (s : string) :
  spaces_single b s = true → collapse b s = s.
Proof.
  revert b. induction s as [|c s IH]; intros b H; [done|]. simpl in *.
  destruct (PyStr.isspace c).
  - apply andb_prop in H as [H1 H2]. apply andb_prop in H1 as [Hc Hb].
    apply Ascii.eqb_eq in Hc as ->. destruct b; [done|].
    f_equal. by apply IH.
  - f_equal. by apply IH.
Qed.

Lemma spaced_rstrip (b : bool) (s : string) :
  spaced b s = true → PyStr.rstrip s = s.
Proof.
  revert b. induction s as [|c s IH]; intros b H; [done|]. simpl in *.
  destruct (PyStr.isspace c) eqn:Hc.
  - apply andb_prop in H as [_ H]. rewrite (IH true H).
    destruct s; [done|done].
  - rewrite (IH false H). by destruct s.
Qed.

Lemma single_spaced_strip (s : string) :
  single_spaced s = true → PyStr.strip s = s.
Proof.
  destruct s as [|c s]; [done|]. unfold single_spaced. intros H.
  unfold PyStr.strip. rewrite lstrip_id.
  - by apply (spaced_rstrip true).
  - simpl in *. destruct (PyStr.isspace c); [|done].
    by rewrite andb_false_r in H.
Qed.

Lemma spaced_no_trail (b : bool) (s : string) :
  spaced b s = true → ends_in PyStr.isspace s = false.
Proof.
  revert b. induction s as [|c s IH]; intros b H; [done|]. simpl in *.
  destruct (PyStr.isspace c) eqn:Hc.
  - apply andb_prop in H as [_ H]. destruct s; [done|]. by eapply IH.
  - destruct s; [done|]. by eapply IH.
Qed.

End Spacing.

Section FinalRun.
Variable p : ascii → bool.

Lemma newline_isspace (c : ascii) :
  (PyStr.code c =? 10)%N = true → PyStr.isspace c = true.
Proof.
  intros H. apply N.eqb_eq in H. unfold PyStr.isspace, PyStr.in_range.
  by rewrite H.
Qed.

Lemma at_end_skip (s : string) :
  Re.at_end (skip p s) = true →
  s = EmptyString ∨ ends_in p s = true ∨ ends_in PyStr.isspace s = true.
Proof.
  induction s as [|c s IH]; intros H; [by left|]. right.
  cbn [skip] in H. destruct (p c) eqn:Hc.
  - destruct (IH H) as [->|[H'|H']].
    + left. done.
    + left. simpl. by destruct s.
    + right. simpl. by destruct s.
  - right. simpl in H. destruct s; [|done].
    simpl. by apply newline_isspace.
Qed.

Lemma without_final_id (s : string) :
  ends_in p s = false → ends_in PyStr.isspace s = false →
  without_final p s = s.
Proof.
  induction s as [|c s IH]; intros Hp Hs; [done|]. cbn [without_final].
  destruct (p c && Re.at_end (skip p s)) eqn:Hm.
  - apply andb_prop in Hm as [Hc Hend].
    destruct (at_end_skip s Hend) as [->|[H|H]].
    + simpl in Hp. congruence.
    + simpl in Hp. destruct s; [done|]. congruence.
    + simpl in Hs. destruct s; [done|]. congruence.
  - f_equal. destruct s as [|d s]; [done|]. by apply IH.
Qed.

End FinalRun.

(** X14: [clean_label] without regular expressions: the text is stripped,
    loses its final run of colons and asterisks, has every run of white
    space replaced by one space, and is stripped again.  Only one final
    run is dropped, before the spaces are dealt with, so the result may
    again end in a colon and cleaning twice is not cleaning once. *)
Theorem clean_label_direct (text : string) :
  FieldDetector.clean_label text
  = PyStr.strip
      (collapse false (without_final (Re.one_of ":*") (PyStr.strip text)))
  ∧ FieldDetector.clean_label "Name: *" = "Name:"
  ∧ FieldDetector.clean_label (FieldDetector.clean_label "Name: *") = "Name".
Proof. split; [apply clean_label_runs|]. split; reflexivity. Qed.

(** X15: a cleaned label is single-spaced: it has no white space at
    either end, and the only white space in it are single spaces between
    other characters (no tab, no newline, no two spaces in a row); and a
    label that is single-spaced and does not end in a colon or an
    asterisk is left as it is. *)
Theorem clean_label_single_spaced (text : string) :
  single_spaced (FieldDetector.clean_label text) = true
  ∧ (single_spaced text = true → ends_in (Re.one_of ":*") text = false →
     FieldDetector.clean_label text = text).
Proof.
  rewrite clean_label_runs. split; [apply strip_collapse_spaced|].
  intros Hs He. rewrite (single_spaced_strip text Hs).
  destruct text as [|c text]; [done|].
  unfold single_spaced in Hs.
  rewrite without_final_id; [|done|by apply (spaced_no_trail true)].
  rewrite collapse_id.
  - by apply single_spaced_strip.
  - apply spaced_spaces_single in Hs. simpl in *.
    destruct (PyStr.isspace c); [|done]. by rewrite andb_false_r in Hs.
Qed.

Lemma clean_label_single_spaced_witness :
  FieldDetector.clean_label "Date of birth" = "Date of birth".
Proof.
  apply (proj2 (clean_label_single_spaced "Date of birth")); reflexivity.
Defined.

(** ** Required labels *)

Section Search.
Import Re.

Lemma search_from_occurs (icase : bool) (r : regex) (prev : option ascii)
      (s : string) :
  search_from icase r prev s
  = occurs (λ prev' s', is_Some_b (match_here icase r prev' s')) prev s.
Proof.
  revert prev. induction s as [|c s IH]; intros prev; simpl.
  - destruct (match_here icase r prev EmptyString); by simpl.
  - rewrite <- IH. by destruct (match_here icase r prev (String c s)).
Qed.

Lemma occurs_ext (f g : option ascii → string → bool)
      (prev : option ascii) (s : string) :
  (∀ a t, f a t = g a t) → occurs f prev s = occurs g prev s.
Proof.
  intros Hfg. revert prev. induction s as [|c s IH]; intros prev; simpl.
  - by rewrite Hfg.
  - by rewrite Hfg, IH.
Qed.

Lemma occurs_or (f g : option ascii → string → bool)
      (prev : option ascii) (s : string) :
  occurs (λ a t, f a t || g a t) prev s = occurs f prev s || occurs g prev s.
Proof.
  revert prev. induction s as [|c s IH]; intros prev; simpl.
  - by rewrite !orb_false_r.
  - rewrite IH. destruct (f prev _), (g prev _), (occurs f _ _); done.
Qed.

Lemma occurs_char (q : ascii → bool) (prev : option ascii) (s : string) :
  occurs (λ _ t, match t with String x _ => q x | EmptyString => false end)
         prev s
  = has_char q s.
Proof.
  revert prev. induction s as [|c s IH]; intros prev; [done|]. simpl.
  by rewrite IH.
Qed.

Lemma exec_str_ci {R} (w : string) :
  w ≠ EmptyString →
  ∀ (prev : option ascii) (s : string)
    (k : option ascii → string → option R),
    exec true (Str w) prev s k
    = match after_prefix_ci w prev s with
      | Some (last, rest) => k last rest
      | None => None
      end.
Proof.
  induction w as [|a w IH]; intros Hne prev s k; [done|].
  destruct w as [|b w].
  - simpl. destruct s as [|x s]; [done|].
    by destruct (Ascii.eqb _ _).
  - change (Str (String a (String b w)))
      with (Cat (Lit a) (Str (String b w))).
    cbn [exec after_prefix_ci]. destruct s as [|x s]; [done|].
    destruct (lit_match true a x); [|done].
    by rewrite IH.
Qed.

End Search.

Section Required.
Import Re.

Lemma is_word_lower (x : ascii) :
  PyStr.is_word (PyStr.lower_char x) = PyStr.is_word x.
Proof. destruct x as [[] [] [] [] [] [] [] []]; vm_compute; done. Qed.

Lemma lit_match_word (a x : ascii) :
  lit_match true a x = true → PyStr.is_word a = true →
  PyStr.is_word x = true.
Proof.
  unfold lit_match. intros H Ha. apply Ascii.eqb_eq in H.
  by rewrite <- is_word_lower, <- H, is_word_lower.
Qed.

Lemma after_prefix_ci_first (a : ascii) (w : string) (prev : option ascii)
      (s : string) (r : option ascii * string) :
  after_prefix_ci (String a w) prev s = Some r → PyStr.is_word a = true →
  word_after s = true.
Proof.
  destruct s as [|x s]; [done|]. cbn [after_prefix_ci word_after].
  destruct (lit_match true a x) eqn:Hx; [|done]. intros _ Ha.
  by eapply lit_match_word.
Qed.

Lemma after_prefix_ci_last (w : string) :
  ∀ (prev : option ascii) (s : string) (last : option ascii)
    (rest : string),
    after_prefix_ci w prev s = Some (last, rest) →
    word_before (last_char prev w) = true →
    word_before last = true.
Proof.
  induction w as [|a w IH]; intros prev s last rest H Hw.
  - simpl in *. injection H as <- <-. done.
  - cbn [after_prefix_ci] in H. destruct s as [|x s]; [done|].
    destruct (lit_match true a x) eqn:Hx; [|done].
    destruct w as [|b w].
    + cbn [after_prefix_ci last_char] in *. injection H as <- <-.
      cbn [word_before] in *. by eapply lit_match_word.
    + eapply (IH (Some x)); [exact H|].
      cbn [last_char] in *. done.
Qed.

Lemma word_pattern (w : string) (a b : ascii) (w' : string)
      (prev : option ascii) (s : string) :
  w = String a w' → PyStr.is_word a = true →
  last_char None w = Some b → PyStr.is_word b = true →
  is_Some_b (match_here true (FieldDetector.word w) prev s)
  = word_here w prev s.
Proof.
  intros Hw Ha Hlast Hb. unfold match_here, FieldDetector.word, Seq.
  cbn [foldr exec]. unfold word_here.
  rewrite exec_str_ci by (by rewrite Hw).
  destruct (after_prefix_ci w prev s) as [[last rest]|] eqn:Hp.
  - rewrite Hw in Hp. rewrite (after_prefix_ci_first _ _ _ _ _ Hp Ha).
    rewrite <- Hw in Hp.
    assert (word_before last = true) as ->.
    { eapply after_prefix_ci_last; [exact Hp|].
      rewrite Hw in Hlast |- *. simpl in *. rewrite Hlast. exact Hb. }
    rewrite xorb_true_r. simpl.
    destruct (word_before prev); [done|]. simpl.
    by destruct (word_after rest).
  - rewrite andb_false_r. by destruct (xorb _ _).
Qed.

Lemma is_required_like (label_text : string) :
  FieldDetector.is_required label_text = required_like label_text.
Proof.
  unfold FieldDetector.is_required, search, required_like.
  rewrite search_from_occurs.
  rewrite <- (occurs_char (Ascii.eqb "*") None).
  rewrite <- !occurs_or. apply occurs_ext. intros prev t.
  unfold match_here at 1. cbn [exec Str].
  rewrite !is_Some_orelse.
  rewrite <- (word_pattern "required" "r" "d" "equired") by done.
  rewrite <- (word_pattern "mandatory" "m" "y" "andatory") by done.
  rewrite orb_assoc. f_equal. f_equal.
  destruct t as [|x t]; [done|]. unfold lit_match.
  replace (PyStr.lower_char "*") with "*"%char by done.
  destruct (Ascii.eqb_spec "*" x) as [<-|Hx]; [done|].
  destruct (Ascii.eqb_spec "*" (PyStr.lower_char x)) as [He|_]; [|done].
  exfalso. revert He Hx. clear.
  destruct x as [[] [] [] [] [] [] [] []]; vm_compute; congruence.
Qed.

End Required.

(** X16: [is_required] holds of a label exactly when it has an asterisk,
    or has the word "required" or the word "mandatory", in any case, with
    no letter, digit or underscore right before or right after the word:
    "Name *" and "Age (Required)" are required, "prerequired" and
    "required_field" are not. *)
Theorem is_required_spec (label_text : string) :
  FieldDetector.is_required label_text = required_like label_text.
Proof. apply is_required_like. Qed.

Example is_required_examples :
  FieldDetector.is_required "Name *" = true
  ∧ FieldDetector.is_required "Age (Required)" = true
  ∧ FieldDetector.is_required "MANDATORY: id" = true
  ∧ FieldDetector.is_required "prerequired" = false
  ∧ FieldDetector.is_required "required_field" = false
  ∧ FieldDetector.is_required "Name" = false.
Proof. repeat split; reflexivity. Qed.

(** ** Validation of answers *)

Lemma validate_message_iff (field_type : Models.FieldType)
      (answer : string) :
  (Validators.validate_field field_type answer).1 = true
  ↔ (Validators.validate_field field_type answer).2 = None.
Proof.
  unfold Validators.validate_field.
  destruct (PyStr.truthy (PyStr.strip answer)); simpl; [|done].
  destruct field_type; simpl; try done;
    match goal with |- context [if ?b then _ else _] => destruct b end;
    simpl; done.
Qed.

(** X17: [validate_field] returns a message exactly when the answer is
    invalid; a blank answer (empty or white space only) is valid for every
    field type, and every answer is valid for the types TEXT and
    CHECKBOX; white space around an answer never matters: the answer and
    the same answer stripped get the same verdict and the same message. *)
Theorem validate_field_message (field_type : Models.FieldType)
        (answer : string) :
  ((Validators.validate_field field_type answer).1 = true
   ↔ (Validators.validate_field field_type answer).2 = None)
  ∧ (PyStr.strip answer = EmptyString →
     Validators.validate_field field_type answer = (true, None))
  ∧ (field_type = Models.TEXT ∨ field_type = Models.CHECKBOX →
     Validators.validate_field field_type answer = (true, None))
  ∧ Validators.validate_field field_type (PyStr.strip answer)
    = Validators.validate_field field_type answer.
Proof.
  split; [apply validate_message_iff|].
  unfold Validators.validate_field. split; [|split].
  - by intros ->.
  - intros Hft. destruct (PyStr.truthy (PyStr.strip answer)); simpl; [|done].
    by destruct Hft as [-> | ->].
  - by rewrite strip_idem.
Qed.

Lemma validate_field_message_witness :
  Validators.validate_field Models.EMAIL "   " = (true, None)
  ∧ Validators.validate_field Models.TEXT "anything" = (true, None).
Proof.
  split.
  - apply (proj1 (proj2 (validate_field_message Models.EMAIL "   "))).
    reflexivity.
  - apply (proj1 (proj2 (proj2 (validate_field_message Models.TEXT
                                                        "anything")))).
    by left.
Defined.

Section Number.

Lemma remove_chars_without (s : string) :
  PyStr.remove_char ","%char
    (PyStr.remove_char "-"%char (PyStr.remove_char "."%char s))
  = without (Re.one_of ".-,") s.
Proof.
  induction s as [|c s IH]; [done|]. unfold Re.one_of in *. simpl in *.
  destruct (Ascii.eqb_spec c "."%char) as [->|H1]; simpl; [done|].
  destruct (Ascii.eqb_spec c "-"%char) as [->|H2]; simpl; [done|].
  destruct (Ascii.eqb_spec c ","%char) as [->|H3]; simpl; [done|].
  by rewrite IH.
Qed.

Lemma digit_not_separator (c : ascii) :
  PyStr.isdigit_char c = true → Re.one_of ".-," c = false.
Proof.
  destruct c as [[] [] [] [] [] [] [] []]; vm_compute; done.
Qed.

Lemma isdigit_without (p : ascii → bool) (s : string) :
  (∀ c, PyStr.isdigit_char c = true → p c = false) →
  PyStr.isdigit (without p s)
  = all_chars (λ c, PyStr.isdigit_char c || p c) s
    && has_char PyStr.isdigit_char s.
Proof.
  intros Hp.
  assert (∀ t, PyStr.isdigit t
               = PyStr.all_digits t && PyStr.truthy t) as Hd.
  { intros [|c t]; simpl; [done|]. by rewrite andb_true_r. }
  rewrite Hd. induction s as [|c s IH]; [done|]. simpl.
  destruct (p c) eqn:Hpc.
  - rewrite orb_true_r. simpl.
    destruct (PyStr.isdigit_char c) eqn:Hdc;
      [by rewrite (Hp c Hdc) in Hpc|]. simpl. exact IH.
  - rewrite orb_false_r. simpl.
    destruct (PyStr.isdigit_char c) eqn:Hdc; simpl; [|done].
    rewrite !andb_true_r.
    clear IH. induction s as [|d s IH]; [done|]. simpl.
    destruct (p d) eqn:Hpd; [by rewrite orb_true_r|].
    rewrite orb_false_r. simpl. by rewrite IH.
Qed.

End Number.

(** X18: a NUMBER answer is valid exactly when it is blank, or when,
    stripped, it consists of digits, periods, minus signs and commas only
    and holds at least one digit; the separators may stand anywhere and
    in any number. *)
Theorem validate_number (answer : string) :
  (Validators.validate_field Models.NUMBER answer).1
  = negb (PyStr.truthy (PyStr.strip answer))
    || (all_chars number_char (PyStr.strip answer)
        && has_char PyStr.isdigit_char (PyStr.strip answer)).
Proof.
  unfold Validators.validate_field.
  destruct (PyStr.truthy (PyStr.strip answer)); [|done]. simpl.
  rewrite remove_chars_without, (isdigit_without _ _ digit_not_separator).
  fold number_char.
  by destruct (all_chars number_char (PyStr.strip answer)
               && has_char PyStr.isdigit_char (PyStr.strip answer)).
Qed.

Example validate_number_examples :
  (λ a, (Validators.validate_field Models.NUMBER a).1)
    <$> ["1,234.50"; "-12"; "1-2-3"; "..5"; "-"; "12a"; "1 2"]
  = [true; true; true; true; false; false; false].
Proof. reflexivity. Qed.

(** ** Bounded repetitions of a character class *)

Section Repetitions.
Import Re.
Context {R : Type}.
Variable icase : bool.
Variable p : ascii → bool.
Variable k : option ascii → string → option R.
(** What comes after does not look behind, and does not start with a
    character of the class. *)
Hypothesis Hprev : ∀ a b s, k a s = k b s.
Hypothesis Hstart : ∀ a x s, p x = true → k a (String x s) = None.

Lemma exec_rep_opt (n : nat) (prev : option ascii) (s : string) :
  exec icase (RepOpt n (Cls p)) prev s k
  = if (run_length p s <=? n)%nat then k prev (skip p s) else None.
Proof using Hprev Hstart.
  revert prev s. induction n as [|n IH]; intros prev s.
  - cbn [RepOpt exec]. destruct s as [|x s]; [done|]. simpl.
    destruct (p x) eqn:Hx; [by apply Hstart|done].
  - cbn [RepOpt]. unfold Opt. cbn [exec].
    destruct s as [|x s]; [done|]. cbn [run_length skip].
    destruct (p x) eqn:Hx; [|done].
    rewrite IH, (Hstart prev x s Hx), orelse_none.
    change (S (run_length p s) <=? S n)%nat
      with (run_length p s <=? n)%nat.
    destruct (run_length p s <=? n)%nat; [apply Hprev|done].
Qed.

Lemma exec_rep_range (m n : nat) (prev : option ascii) (s : string) :
  (m ≤ n)%nat →
  exec icase (RepRange m n (Cls p)) prev s k
  = match run_then p m n s with
    | Some rest => k prev rest
    | None => None
    end.
Proof using Hprev Hstart.
  unfold RepRange, run_then. cbn [exec].
  revert n prev s. induction m as [|m IH]; intros n prev s Hle.
  - cbn [Rep exec]. rewrite Nat.sub_0_r, exec_rep_opt. simpl.
    by destruct (run_length p s <=? n)%nat.
  - destruct n as [|n]; [lia|]. rewrite Nat.sub_succ. cbn [Rep exec].
    destruct s as [|x s]; [done|]. cbn [run_length skip].
    destruct (p x); [|done].
    rewrite IH by lia.
    change (S m <=? S (run_length p s))%nat
      with (m <=? run_length p s)%nat.
    change (S (run_length p s) <=? S n)%nat
      with (run_length p s <=? n)%nat.
    destruct (_ && _); [apply Hprev|done].
Qed.

End Repetitions.

Section Dates.
Import Re Validators.

Lemma decimal_not_sep (c : ascii) :
  PyStr.isdecimal c = true → one_of "/-" c = false.
Proof. destruct c as [[] [] [] [] [] [] [] []]; vm_compute; done. Qed.

Lemma decimal_not_newline (c : ascii) :
  PyStr.isdecimal c = true → (PyStr.code c =? 10)%N = false.
Proof. destruct c as [[] [] [] [] [] [] [] []]; vm_compute; done. Qed.

Lemma exec_digits_sep {R} (lo hi : nat) (prev : option ascii) (s : string)
      (k : option ascii → string → option R) :
  (lo ≤ hi)%nat → (∀ a b s', k a s' = k b s') →
  exec false (RepRange lo hi digit) prev s
       (λ prev' s', exec false sep prev' s' k)
  = match run_then PyStr.isdecimal lo hi s ≫= char_then (one_of "/-") with
    | Some rest => k None rest
    | None => None
    end.
Proof.
  intros Hle Hk. unfold digit, sep. rewrite exec_rep_range; [|done| |].
  - destruct (run_then PyStr.isdecimal lo hi s) as [rest|]; [|done].
    simpl. destruct rest as [|x rest]; [done|]. simpl.
    destruct (one_of "/-" x); [apply Hk|done].
  - intros a x s' Hx. simpl. by rewrite (decimal_not_sep x Hx).
  - done.
Qed.

Lemma exec_digits_end (lo hi : nat) (prev : option ascii) (s : string) :
  (lo ≤ hi)%nat →
  exec false (RepRange lo hi digit) prev s
       (λ _ s', if at_end s' then Some s' else None)
  = match run_then PyStr.isdecimal lo hi s with
    | Some rest => if at_end rest then Some rest else None
    | None => None
    end.
Proof.
  intros Hle. unfold digit. rewrite exec_rep_range; [done|done| |done].
  intros a x s' Hx.
  by rewrite (at_end_cls PyStr.isdecimal decimal_not_newline x s' Hx).
Qed.

Lemma date_pattern (lo1 hi1 lo2 hi2 lo3 hi3 : nat) (s : string) :
  (lo1 ≤ hi1)%nat → (lo2 ≤ hi2)%nat → (lo3 ≤ hi3)%nat →
  match_ false
         (Seq [Bol; RepRange lo1 hi1 digit; sep; RepRange lo2 hi2 digit;
               sep; RepRange lo3 hi3 digit; Eol]) s
  = date_order at_end lo1 hi1 lo2 hi2 lo3 hi3 s.
Proof.
  intros H1 H2 H3. unfold match_, match_here, Seq, date_order.
  cbn [foldr]. cbn [exec].
  assert (∀ a b s',
             exec false (RepRange lo3 hi3 digit) a s'
                  (λ _ s'', if at_end s'' then Some s'' else None)
             = exec false (RepRange lo3 hi3 digit) b s'
                    (λ _ s'', if at_end s'' then Some s'' else None))
    as Hk3 by (intros a b s'; by rewrite !exec_digits_end).
  assert (∀ a b s',
             exec false (RepRange lo2 hi2 digit) a s'
                  (λ prev' s'',
                     exec false sep prev' s''
                          (λ prev'' s3,
                             exec false (RepRange lo3 hi3 digit) prev'' s3
                                  (λ _ s4,
                                     if at_end s4 then Some s4 else None)))
             = exec false (RepRange lo2 hi2 digit) b s'
                  (λ prev' s'',
                     exec false sep prev' s''
                          (λ prev'' s3,
                             exec false (RepRange lo3 hi3 digit) prev'' s3
                                  (λ _ s4,
                                     if at_end s4 then Some s4 else None))))
    as Hk2 by (intros a b s'; by rewrite !exec_digits_sep).
  rewrite exec_digits_sep by done.
  destruct (run_then PyStr.isdecimal lo1 hi1 s ≫= char_then (one_of "/-"))
    as [s1|]; [|done].
  cbn [mbind option_bind].
  rewrite exec_digits_sep by done.
  destruct (run_then PyStr.isdecimal lo2 hi2 s1 ≫= char_then (one_of "/-"))
    as [s2|]; [|done].
  cbn [mbind option_bind].
  rewrite exec_digits_end by done.
  destruct (run_then PyStr.isdecimal lo3 hi3 s2) as [s3|]; [|done].
  simpl. by destruct (at_end s3).
Qed.

Lemma rep_4_range (s : string) :
  match_ false
         (Seq [Bol; Rep 4 digit; sep; RepRange 1 2 digit; sep;
               RepRange 1 2 digit; Eol]) s
  = match_ false
           (Seq [Bol; RepRange 4 4 digit; sep; RepRange 1 2 digit; sep;
                 RepRange 1 2 digit; Eol]) s.
Proof. reflexivity. Qed.

End Dates.

Section Tails.

Lemma rstrip_no_trail (s : string) :
  ends_in PyStr.isspace (PyStr.rstrip s) = false.
Proof.
  induction s as [|c s IH]; [done|]. simpl.
  destruct (PyStr.rstrip s) as [|d r].
  - by destruct (PyStr.isspace c) eqn:Hc.
  - exact IH.
Qed.

Lemma strip_no_trail (s : string) :
  ends_in PyStr.isspace (PyStr.strip s) = false.
Proof. apply rstrip_no_trail. Qed.

Lemma no_trail_tail (x : ascii) (s : string) :
  ends_in PyStr.isspace (String x s) = false →
  ends_in PyStr.isspace s = false.
Proof. by destruct s. Qed.

Lemma no_trail_skip (p : ascii → bool) (s : string) :
  ends_in PyStr.isspace s = false →
  ends_in PyStr.isspace (skip p s) = false.
Proof.
  induction s as [|x s IH]; [done|]. intros H. cbn [skip].
  destruct (p x); [|done]. by eapply IH, no_trail_tail.
Qed.

Lemma no_trail_run_then (p : ascii → bool) (lo hi : nat) (s r : string) :
  run_then p lo hi s = Some r →
  ends_in PyStr.isspace s = false → ends_in PyStr.isspace r = false.
Proof.
  unfold run_then. destruct (_ && _); [|done]. intros [= <-].
  apply no_trail_skip.
Qed.

Lemma no_trail_char_then (q : ascii → bool) (s r : string) :
  char_then q s = Some r →
  ends_in PyStr.isspace s = false → ends_in PyStr.isspace r = false.
Proof.
  destruct s as [|x s]; [done|]. simpl. destruct (q x); [|done].
  intros [= <-]. apply no_trail_tail.
Qed.

Lemma no_trail_at_end (s : string) :
  ends_in PyStr.isspace s = false → Re.at_end s = is_empty s.
Proof.
  destruct s as [|c [|d s]]; [done| |done]. simpl. intros Hc.
  destruct (PyStr.code c =? 10)%N eqn:Hnl; [|done].
  apply newline_isspace in Hnl. congruence.
Qed.

Lemma date_order_end (lo1 hi1 lo2 hi2 lo3 hi3 : nat) (s : string) :
  ends_in PyStr.isspace s = false →
  date_order Re.at_end lo1 hi1 lo2 hi2 lo3 hi3 s
  = date_order is_empty lo1 hi1 lo2 hi2 lo3 hi3 s.
Proof.
  intros Hs. unfold date_order.
  destruct (run_then PyStr.isdecimal lo1 hi1 s) as [s1|] eqn:H1; [|done].
  apply no_trail_run_then in H1; [|done]. cbn [mbind option_bind].
  destruct (char_then (Re.one_of "/-") s1) as [s2|] eqn:H2; [|done].
  apply no_trail_char_then in H2; [|done]. cbn [mbind option_bind].
  destruct (run_then PyStr.isdecimal lo2 hi2 s2) as [s3|] eqn:H3; [|done].
  apply no_trail_run_then in H3; [|done]. cbn [mbind option_bind].
  destruct (char_then (Re.one_of "/-") s3) as [s4|] eqn:H4; [|done].
  apply no_trail_char_then in H4; [|done]. cbn [mbind option_bind].
  destruct (run_then PyStr.isdecimal lo3 hi3 s4) as [s5|] eqn:H5; [|done].
  apply no_trail_run_then in H5; [|done].
  by apply no_trail_at_end.
Qed.

End Tails.

(** X19: a DATE answer is accepted exactly when, stripped, it is empty or
    is made of three runs of decimal digits with one "/" or "-" after the
    first and one after the second, and nothing else, the runs being of
    1 to 2, 1 to 2 and 2 to 4 digits, or of 4, 1 to 2 and 1 to 2.  No
    range is checked and the two separators need not be the same: so
    "99/99/99" and "1-2/345" are accepted, and "2024-1-1" is, while
    "1/2/3" is not. *)
Theorem validate_date (answer : string) :
  (Validators.validate_field Models.DATE answer).1
  = negb (PyStr.truthy (PyStr.strip answer)) || date_like (PyStr.strip answer).
Proof.
  unfold Validators.validate_field, date_like.
  destruct (PyStr.truthy (PyStr.strip answer)); [|done].
  unfold Validators.date_res. cbn [existsb negb orb].
  rewrite rep_4_range, !date_pattern by lia.
  rewrite !date_order_end by apply strip_no_trail.
  rewrite orb_false_r.
  by destruct (_ || _).
Qed.

Example validate_date_examples :
  (Validators.validate_field Models.DATE "99/99/99").1 = true
  ∧ (Validators.validate_field Models.DATE "1-2/345").1 = true
  ∧ (Validators.validate_field Models.DATE " 2024-1-1 ").1 = true
  ∧ (Validators.validate_field Models.DATE "1/2/3").1 = false
  ∧ (Validators.validate_field Models.DATE "12/12/20245").1 = false.
Proof. repeat split; reflexivity. Qed.

(** ** The shape of an NRIC *)

Section Nric.
Import Re Validators.

Lemma letter_not_decimal (c : ascii) :
  PyStr.isdecimal c = true → PyStr.in_range 65 90 c = false.
Proof. destruct c as [[] [] [] [] [] [] [] []]; vm_compute; done. Qed.

Lemma nric_pattern (u : string) : match_ false nric_re u = nric_shape u.
Proof.
  unfold match_, match_here, nric_re, Seq, nric_shape.
  cbn [foldr]. cbn [exec].
  destruct u as [|x u]; [done|]. cbn [char_then].
  destruct (one_of "STFGM" x); [|done]. cbn [mbind option_bind].
  change (exec false (Rep 7 digit) (Some x) u ?k)
    with (exec false (RepRange 7 7 (Cls PyStr.isdecimal)) (Some x) u k).
  rewrite exec_rep_range; [|done| |done].
  - destruct (run_then PyStr.isdecimal 7 7 u) as [t|]; [|done].
    cbn [mbind option_bind]. destruct t as [|y t]; [done|]. simpl.
    destruct (PyStr.in_range 65 90 y); [|done]. by destruct (at_end t).
  - intros a y t Hy. by rewrite (letter_not_decimal y Hy).
Qed.

End Nric.

(** X20: an NRIC answer is accepted exactly when it is blank, or when,
    stripped and put in upper case by [str.upper], it is one of the
    letters S, T, F, G, M, seven decimal digits and a letter A to Z, and
    then ends.  The shape is asked of the upper-cased answer, not of the
    answer: a lower-case letter passes, and so does any other character
    that [str.upper] turns into one of these letters. *)
Theorem validate_nric (answer : string) :
  (Validators.validate_field Models.NRIC answer).1
  = negb (PyStr.truthy (PyStr.strip answer))
    || nric_shape (Validators.upper (PyStr.strip answer)).
Proof.
  unfold Validators.validate_field.
  destruct (PyStr.truthy (PyStr.strip answer)); [|done].
  rewrite nric_pattern. cbn [negb orb]. by destruct (nric_shape _).
Qed.

Example validate_nric_examples :
  (Validators.validate_field Models.NRIC " s1234567a ").1 = true
  ∧ (Validators.validate_field Models.NRIC "S1234567A").1 = true
  ∧ (Validators.validate_field Models.NRIC "A1234567A").1 = false
  ∧ (Validators.validate_field Models.NRIC "S123456A").1 = false
  ∧ (Validators.validate_field Models.NRIC "S12345678A").1 = false.
Proof. repeat split; reflexivity. Qed.

(** ** The shape of an email address *)

Section Email.
Import Re Validators.

Lemma mail_char_not_at (c : ascii) :
  mail_char c = true → Ascii.eqb "@" c = false.
Proof.
  destruct c as [[] [] [] [] [] [] [] []]; vm_compute; done.
Qed.

Lemma mail_char_not_newline (c : ascii) :
  mail_char c = true → (PyStr.code c =? 10)%N = false.
Proof.
  unfold mail_char. intros H.
  destruct (PyStr.code c =? 10)%N eqn:Hn; [|done].
  apply newline_isspace in Hn. rewrite Hn, orb_true_r in H. done.
Qed.

Lemma mail_char_dot : mail_char "." = true.
Proof. reflexivity. Qed.

Lemma run_then_plus (p : ascii → bool) (s : string) :
  run_then p 1 (String.length s) s
  = match s with
    | String x s' => if p x then Some (skip p s') else None
    | EmptyString => None
    end.
Proof.
  unfold run_then. destruct s as [|x s]; [done|]. cbn [run_length skip].
  destruct (p x); [|done].
  assert (run_length p s ≤ String.length s)%nat as Hle.
  { clear. induction s as [|y s IH]; simpl; [done|].
    destruct (p y); lia. }
  simpl. destruct (Nat.leb_spec (run_length p s) (String.length s)); [done|].
  lia.
Qed.

Lemma any_split_ext (p : ascii → bool) (f g : string → bool) (s : string) :
  (∀ t, f t = g t) → any_split p f s = any_split p g s.
Proof.
  intros Hfg. induction s as [|x s IH]; cbn [any_split].
  - by rewrite Hfg.
  - by rewrite Hfg, IH.
Qed.

(** The end of the pattern: a dot, and characters up to the end. *)
Lemma email_tail (prev : option ascii) (t : string) :
  is_Some_b
    (exec false (Lit ".") prev t
          (λ prev' s',
             exec false (Plus (Cls mail_char)) prev' s'
                  (λ _ s'', if at_end s'' then Some s'' else None)))
  = dot_tail at_end t.
Proof.
  unfold dot_tail. destruct t as [|c t]; [done|]. cbn [exec char_then].
  unfold lit_match. destruct (Ascii.eqb "." c); [|done].
  cbn [mbind option_bind]. rewrite exec_plus_cls.
  destruct t as [|y t]; [done|]. cbn [char_then].
  destruct (mail_char y); [|done].
  rewrite greedy_reject; [by destruct (at_end _)|done|].
  intros a x s Hx.
  by rewrite (at_end_cls mail_char mail_char_not_newline x s Hx).
Qed.

Lemma email_pattern (s : string) :
  match_ false email_re s
  = match
      (run_then mail_char 1 (String.length s) s
       ≫= char_then (Ascii.eqb "@"))
      ≫= char_then mail_char
    with
    | Some rest => any_split mail_char (dot_tail at_end) rest
    | None => false
    end.
Proof.
  unfold match_, match_here, email_re, Seq, not_at_space.
  cbn [foldr Str]. cbn [exec]. fold mail_char.
  rewrite run_then_plus, exec_plus_cls.
  destruct s as [|x s]; [done|]. destruct (mail_char x); [|done].
  cbn [mbind option_bind].
  rewrite greedy_reject; [|done|].
  2:{ intros a y t Hy. unfold lit_match.
      by rewrite (mail_char_not_at y Hy). }
  destruct (skip mail_char s) as [|c s1]; [done|]. cbn [char_then].
  unfold lit_match at 1. destruct (Ascii.eqb "@" c); [|done].
  cbn [mbind option_bind]. rewrite exec_plus_cls.
  destruct s1 as [|z s2]; [done|]. cbn [char_then].
  destruct (mail_char z); [|done].
  match goal with
  | |- match ?x with Some _ => true | None => false end = ?r =>
      change (is_Some_b x = r)
  end.
  rewrite greedy_any_split.
  - apply any_split_ext. intros t. apply (email_tail None t).
  - intros a b t. cbn [exec]. done.
Qed.

Lemma skip_is_empty (p : ascii → bool) (s : string) :
  is_empty (skip p s) = all_chars p s.
Proof.
  induction s as [|x s IH]; [done|]. simpl. by destruct (p x).
Qed.

Lemma any_split_dots (t : string) :
  any_split mail_char (dot_tail is_empty) t
  = all_chars mail_char t && dot_not_last t.
Proof.
  induction t as [|c t IH]; [done|]. cbn [any_split all_chars dot_not_last].
  rewrite IH. unfold dot_tail. cbn [char_then].
  rewrite (Ascii.eqb_sym "." c).
  destruct (Ascii.eqb_spec c ".") as [->|Hc].
  - cbn [mbind option_bind]. rewrite mail_char_dot. simpl.
    destruct t as [|y t]; [done|]. cbn [char_then PyStr.truthy all_chars].
    destruct (mail_char y); [|done]. cbn [mbind option_bind].
    rewrite skip_is_empty. simpl.
    by destruct (all_chars mail_char t).
  - cbn [mbind option_bind]. simpl. by rewrite andb_assoc.
Qed.

Lemma any_split_end (t : string) :
  ends_in PyStr.isspace t = false →
  any_split mail_char (dot_tail at_end) t
  = any_split mail_char (dot_tail is_empty) t.
Proof.
  induction t as [|c t IH]; intros Ht; [done|]. cbn [any_split].
  rewrite IH by (by eapply no_trail_tail). f_equal.
  unfold dot_tail.
  destruct (char_then (Ascii.eqb ".") (String c t)) as [t1|] eqn:H1;
    [|done].
  apply no_trail_char_then in H1; [|done]. cbn [mbind option_bind].
  destruct (char_then mail_char t1) as [t2|] eqn:H2; [|done].
  apply no_trail_char_then in H2; [|done].
  by apply no_trail_at_end, no_trail_skip.
Qed.

Lemma email_pattern_like (s : string) :
  ends_in PyStr.isspace s = false →
  match_ false email_re s = email_like s.
Proof.
  intros Hs. rewrite email_pattern. unfold email_like.
  destruct (run_then mail_char 1 (String.length s) s) as [s1|] eqn:H1;
    [|done].
  apply no_trail_run_then in H1; [|done]. cbn [mbind option_bind].
  destruct (char_then (Ascii.eqb "@") s1) as [s2|] eqn:H2; [|done].
  apply no_trail_char_then in H2; [|done]. cbn [mbind option_bind].
  destruct s2 as [|z s3]; [done|]. cbn [char_then all_chars has_mid_dot].
  destruct (mail_char z); [|done]. cbn [mbind option_bind].
  rewrite any_split_end by (by eapply no_trail_tail).
  apply any_split_dots.
Qed.

End Email.

(** X21: an EMAIL answer is accepted exactly when, stripped, it is empty
    or has the form local@domain where local is not empty, neither part
    holds an "@" or white space, and the domain has a "." that is neither
    its first nor its last character.  Nothing else is asked of any
    character: "a@b.c" and "!@#.$" are accepted, "a@b." and "a@.c" are
    not. *)
Theorem validate_email (answer : string) :
  (Validators.validate_field Models.EMAIL answer).1
  = negb (PyStr.truthy (PyStr.strip answer))
    || email_like (PyStr.strip answer).
Proof.
  unfold Validators.validate_field.
  destruct (PyStr.truthy (PyStr.strip answer)); [|done].
  rewrite email_pattern_like by apply strip_no_trail.
  cbn [negb orb]. by destruct (email_like _).
Qed.

Example validate_email_examples :
  (Validators.validate_field Models.EMAIL " a@b.c ").1 = true
  ∧ (Validators.validate_field Models.EMAIL "!@#.$").1 = true
  ∧ (Validators.validate_field Models.EMAIL "a@b.c.d").1 = true
  ∧ (Validators.validate_field Models.EMAIL "a@b.").1 = false
  ∧ (Validators.validate_field Models.EMAIL "a@.c").1 = false
  ∧ (Validators.validate_field Models.EMAIL "a b@c.d").1 = false
  ∧ (Validators.validate_field Models.EMAIL "a@b@c.d").1 = false.
Proof. repeat split; reflexivity. Qed.

Section FieldTypes.
Import Models LlmFilters.

Lemma field_type_values (v : string) :
  v ∈ _FIELD_TYPE_VALUES ↔ ∃ ft, value ft = v.
Proof.
  unfold _FIELD_TYPE_VALUES. rewrite elem_of_list_to_set, list_elem_of_fmap.
  split.
  - intros (ft & -> & _). by exists ft.
  - intros (ft & <-). exists ft. split; [done|].
    destruct ft; compute_done.
Qed.

Lemma field_type_of_value (ft : FieldType) :
  FieldType_of_value (value ft) = Some ft.
Proof. by destruct ft. Qed.

Lemma field_type_of_value_None (v : string) :
  (∀ ft, value ft ≠ v) → FieldType_of_value v = None.
Proof.
  intros Hv. unfold FieldType_of_value, members. cbn [List.find].
  repeat match goal with
         | |- context [String.eqb (value ?ft) v] =>
             destruct (String.eqb_spec (value ft) v) as [He|_];
             [by apply Hv in He|]
         end.
  done.
Qed.

End FieldTypes.

Section Rounding.
Import LlmFilters.

Lemma py_round_cases (v : Q) :
  let f := Qfloor v in
  (inject_Z f <= v)%Q ∧ (v < inject_Z f + 1)%Q
  ∧ ((v - inject_Z f < 1 # 2)%Q ∧ py_round v = f
     ∨ (1 # 2 < v - inject_Z f)%Q ∧ py_round v = (f + 1)%Z
     ∨ (v - inject_Z f == 1 # 2)%Q ∧ Z.even (py_round v) = true
       ∧ (py_round v = f ∨ py_round v = (f + 1)%Z)).
Proof.
  intros f. split; [apply Qfloor_le|]. split.
  { pose proof (Qlt_floor v) as H. by rewrite inject_Z_plus in H. }
  unfold py_round. fold f.
  destruct (Qcompare_spec (v - inject_Z f) (1 # 2)) as [He|Hl|Hg].
  - right. right. split; [done|].
    destruct (Z.even f) eqn:Hf; [by auto|]. split; [|by right].
    rewrite Z.even_add, Hf. done.
  - left. by split.
  - right. left. by split.
Qed.

Lemma py_round_nearest (v : Q) : nearest_int v (py_round v).
Proof.
  unfold nearest_int.
  destruct (py_round_cases v) as (Hlo & Hhi & [(H & ->)|[(H & ->)|(H & _ & [->| ->])]]);
    try rewrite inject_Z_plus; change (inject_Z 1) with 1%Q;
    apply Qabs_case; intros _; lra.
Qed.

Lemma py_round_tie (v : Q) (z : Z) :
  nearest_int v z → z ≠ py_round v → Z.even (py_round v) = true.
Proof.
  unfold nearest_int. intros Hz Hne.
  destruct (py_round_cases v) as (Hlo & Hhi & [(H & Hr)|[(H & Hr)|(H & He & _)]]);
    [| |done]; exfalso; apply Hne; rewrite Hr; clear Hne Hr.
  - apply Qabs_Qle_condition in Hz as [Hz1 Hz2].
    assert (inject_Z (Qfloor v) < inject_Z (z + 1))%Q as H1
        by (rewrite inject_Z_plus; change (inject_Z 1) with 1%Q; lra).
    assert (inject_Z z < inject_Z (Qfloor v + 1))%Q as H2
        by (rewrite inject_Z_plus; change (inject_Z 1) with 1%Q; lra).
    rewrite <- Zlt_Qlt in H1, H2. lia.
  - apply Qabs_Qle_condition in Hz as [Hz1 Hz2].
    assert (inject_Z (Qfloor v) < inject_Z z)%Q as H1 by lra.
    assert (inject_Z z < inject_Z (Qfloor v + 2))%Q as H2
        by (rewrite inject_Z_plus; change (inject_Z 2) with 2%Q; lra).
    rewrite <- Zlt_Qlt in H1, H2. lia.
Qed.

Lemma py_round_int (z : Z) : py_round (inject_Z z) = z.
Proof.
  unfold py_round. rewrite Qfloor_Z.
  assert ((inject_Z z - inject_Z z ?= 1 # 2)%Q = Lt) as ->; [|done].
  rewrite <- Qlt_alt. lra.
Qed.

End Rounding.

(** X22: _field_type_from_value is the inverse of FieldType.value on the
    seven values of the enumeration, exactly as written (the comparison
    is case-sensitive), and gives TEXT for every other string; a result
    other than TEXT therefore always carries the string it was read
    from. *)
Theorem field_type_from_value_spec (v : string) :
  (∀ ft, LlmFilters._field_type_from_value (LlmFilters.value ft) = ft)
  ∧ ((v ∈ LlmFilters._FIELD_TYPE_VALUES
      ∧ LlmFilters.value (LlmFilters._field_type_from_value v) = v)
     ∨ ((v ∉ LlmFilters._FIELD_TYPE_VALUES)
        ∧ LlmFilters._field_type_from_value v = Models.TEXT))
  ∧ LlmFilters._field_type_from_value "Email" = Models.TEXT.
Proof.
  split; [|split; [|done]].
  - intros ft. unfold LlmFilters._field_type_from_value.
    by rewrite field_type_of_value.
  - destruct (decide (v ∈ LlmFilters._FIELD_TYPE_VALUES)) as [Hin|Hnin].
    + left. split; [done|]. apply field_type_values in Hin as [ft <-].
      unfold LlmFilters._field_type_from_value.
      by rewrite field_type_of_value.
    + right. split; [done|]. unfold LlmFilters._field_type_from_value.
      rewrite field_type_of_value_None; [done|].
      intros ft Hft. apply Hnin, field_type_values. by exists ft.
Qed.

(** X23: _as_int_bbox turns a list of exactly four numbers into the box
    of their roundings, each an integer nearest to the number and the
    even one when two integers are equally near; four integers come back
    unchanged; a list of any other length gives (0, 0, 0, 0). *)
Theorem as_int_bbox_spec (values : list Q) :
  (∀ a b c d : Z,
      LlmFilters._as_int_bbox (inject_Z <$> [a; b; c; d]) = (a, b, c, d))
  ∧ match values with
    | [a; b; c; d] =>
        ∃ x1 y1 x2 y2,
          LlmFilters._as_int_bbox values = (x1, y1, x2, y2)
          ∧ Forall2 (λ v z, nearest_int v z
                            ∧ ∀ z', nearest_int v z' → z' ≠ z →
                                    Z.even z = true)
                    values [x1; y1; x2; y2]
    | _ => LlmFilters._as_int_bbox values = (0, 0, 0, 0)%Z
    end.
Proof.
  split.
  - intros a b c d. unfold LlmFilters._as_int_bbox. simpl.
    by rewrite !py_round_int.
  - destruct values as [|a [|b [|c [|d [|e values]]]]]; try done.
    exists (LlmFilters.py_round a), (LlmFilters.py_round b),
           (LlmFilters.py_round c), (LlmFilters.py_round d).
    split; [done|].
    repeat (constructor;
            [split; [apply py_round_nearest|
                     intros z'; apply py_round_tie]|]).
    constructor.
Qed.

(** ** Labels that look like instructions *)

Section Words.
Import Re LlmFilters.

Lemma words_skip (s : string) :
  words_from false (skip PyStr.isspace s) = words_from false s.
Proof.
  induction s as [|c s IH]; [done|]. simpl.
  destruct (PyStr.isspace c) eqn:Hc; [done|]. simpl. by rewrite Hc.
Qed.

Lemma truthy_rev_app (s1 s2 : string) :
  PyStr.truthy (String.rev_app s1 s2) = PyStr.truthy s1 || PyStr.truthy s2.
Proof.
  revert s2. induction s1 as [|c s1 IH]; intros s2; [done|]. simpl.
  rewrite IH. simpl. apply orb_true_r.
Qed.

Lemma truthy_rev (piece : string) :
  PyStr.truthy (String.rev piece) = PyStr.truthy piece.
Proof. unfold String.rev. rewrite truthy_rev_app. apply orb_false_r. Qed.

Lemma split_from_words (fuel : nat) (prev : option ascii)
      (piece s : string) :
  String.length s < fuel →
  length (filter (λ w, PyStr.truthy w = true)
                 (split_from fuel false (Plus (Cls PyStr.isspace)) prev
                             piece s))
  = (if PyStr.truthy piece then 1 else 0)
    + words_from (PyStr.truthy piece) s.
Proof.
  revert prev piece s.
  induction fuel as [|fuel IH]; intros prev piece s Hlen; [lia|].
  cbn [split_from]. destruct s as [|c s].
  - rewrite filter_cons, filter_nil, truthy_rev. simpl.
    destruct (PyStr.truthy piece); by simpl.
  - simpl in Hlen. rewrite match_here_plus_cls. cbn [words_from].
    destruct (PyStr.isspace c).
    + pose proof (skip_length PyStr.isspace s) as Hskip.
      replace (String.length (skip PyStr.isspace s)
               <? String.length (String c s))%nat
        with true by (symmetry; apply Nat.ltb_lt; simpl; lia).
      rewrite filter_cons, truthy_rev.
      destruct (PyStr.truthy piece); simpl;
        rewrite IH by lia; simpl; by rewrite words_skip.
    + rewrite IH by lia. simpl. destruct (PyStr.truthy piece); simpl; lia.
Qed.

Lemma word_count_words (t : string) : word_count t = words t.
Proof. unfold word_count, split. by rewrite split_from_words by lia. Qed.

End Words.

Section Prefixes.
Import Re.
Context {R : Type}.

Lemma exec_str (w : string) :
  ∀ (prev : option ascii) (s : string)
    (k : option ascii → string → option R),
    exec false (Str w) prev s k
    = match after_prefix w s with
      | Some rest => k (last_char prev w) rest
      | None => None
      end.
Proof.
  induction w as [|a w IH]; intros prev s k; [done|].
  destruct w as [|b w].
  - simpl. destruct s as [|x s]; [done|].
    by destruct (Ascii.eqb_spec a x) as [->|].
  - change (Str (String a (String b w)))
      with (Cat (Lit a) (Str (String b w))).
    cbn [exec after_prefix]. destruct s as [|x s]; [done|].
    unfold lit_match. destruct (Ascii.eqb_spec a x) as [->|]; [|done].
    by rewrite IH.
Qed.

End Prefixes.

Section Instruction.
Import Re LlmFilters.

Lemma word_alt (w : string) (c : ascii) (s : string) (a : option string) :
  last_char None w = Some c → PyStr.is_word c = true →
  is_Some_b
    (orelse (exec false (Str w) None s
                  (λ prev' s',
                     if xorb (word_before prev') (word_after s')
                     then Some s' else None))
            a)
  = starts_with_word w s || is_Some_b a.
Proof.
  intros Hlast Hc. rewrite exec_str. unfold starts_with_word.
  destruct (after_prefix w s) as [rest|]; [|done].
  rewrite Hlast. simpl. rewrite Hc. simpl.
  by destruct (word_after rest).
Qed.

Lemma sentence_start_words (t : string) :
  match_ false sentence_start t
  = existsb (λ w, starts_with_word w t) ["The"; "This"; "These"; "Those"].
Proof.
  unfold match_, match_here, sentence_start, Seq. cbn [foldr exec existsb].
  match goal with
  | |- match ?x with Some _ => true | None => false end = ?r =>
      change (is_Some_b x = r)
  end.
  rewrite <- (orelse_none (exec false (Str "Those") _ _ _)).
  rewrite (word_alt "The" "e") by done.
  rewrite (word_alt "This" "s") by done.
  rewrite (word_alt "These" "e") by done.
  rewrite (word_alt "Those" "e") by done.
  done.
Qed.

Lemma looks_like_instruction_words (text : string) :
  _looks_like_instruction text = instruction_like (PyStr.strip text).
Proof.
  unfold _looks_like_instruction, instruction_like.
  rewrite word_count_words, sentence_start_words.
  set (t := PyStr.strip text).
  destruct (9 <=? words t)%nat, (6 <=? words t)%nat,
    (char_in ":" t), (char_in "_" t), (char_in "," t), (endswith "." t),
    (existsb (λ w, starts_with_word w t) ["The"; "This"; "These"; "Those"]);
    reflexivity.
Qed.

End Instruction.

(** X24: [_looks_like_instruction] without regular expressions, on the
    stripped text and the number of its words (the maximal runs of
    characters that are no white space): nine words or more with neither
    colon nor underscore; or six words or more and a full stop at the end,
    or a comma and no underscore, or "The", "This", "These" or "Those" as
    the first word.  A text of fewer than six words is never taken for an
    instruction. *)
Theorem looks_like_instruction_spec (text : string) :
  LlmFilters._looks_like_instruction text
  = instruction_like (PyStr.strip text)
  ∧ (LlmFilters._looks_like_instruction text = true →
     (6 ≤ words (PyStr.strip text))%nat).
Proof.
  split; [apply looks_like_instruction_words|].
  rewrite looks_like_instruction_words. unfold instruction_like.
  destruct (Nat.leb_spec 9 (words (PyStr.strip text))) as [H9|H9],
    (Nat.leb_spec 6 (words (PyStr.strip text))) as [H6|H6];
    try done; try lia.
Qed.

Lemma looks_like_instruction_spec_witness :
  (6 ≤ words (PyStr.strip "This form must be completed in ink"))%nat.
Proof.
  apply (proj2 (looks_like_instruction_spec
                  "This form must be completed in ink")).
  reflexivity.
Defined.

(** ** The loop over the fields of the extractor *)

Section LlmLoop.
Import Models LlmFilters.
Variable stop_labels : gset string.
Variable round2 : Q → Qc.
Variable page : Ocr.PageData.
Variable input_regions : list bbox.

Lemma clean_label_stripped (text : string) :
  PyStr.strip (FieldDetector.clean_label text)
  = FieldDetector.clean_label text.
Proof. unfold FieldDetector.clean_label. apply strip_idem. Qed.

Lemma find_nearest_cases (label : bbox) :
  (FieldDetector.find_nearest_input_region label input_regions 200 = None
   ∧ none_within label input_regions 200)
  ∨ ∃ c, FieldDetector.find_nearest_input_region label input_regions 200
         = Some c
         ∧ c ∈ input_regions.
Proof.
  unfold FieldDetector.find_nearest_input_region.
  destruct (nearest_fold label input_regions None 200)
    as [[Heq Hnone]|(i & c & d & Heq & Hi & _)]; rewrite Heq; simpl.
  - by left.
  - right. exists c. split; [done|]. by eapply list_elem_of_lookup_2.
Qed.

Lemma llm_item_spec (fields : list FormField) (idx : nat) (item : RawItem) :
  llm_item stop_labels round2 page input_regions fields idx item = fields
  ∨ ∃ f, llm_item stop_labels round2 page input_regions fields idx item
         = fields ++ [f]
         ∧ from_item round2 page input_regions idx item f
         ∧ item_kept stop_labels page input_regions f.
Proof.
  unfold llm_item.
  set (label := FieldDetector.clean_label
                  (PyStr.strip (default EmptyString (raw_label_text item)))).
  set (box := _as_int_bbox (default [] (raw_label_bbox item))).
  destruct (PyStr.truthy label) eqn:Hl; simpl; [|by left].
  destruct (bool_decide_reflect
              (PyStr.lower (PyStr.strip label) ∈ stop_labels))
    as [|Hstop]; [by left|].
  destruct (_looks_like_instruction label) eqn:Hinstr; [by left|].
  destruct (bool_decide_reflect (box = (0, 0, 0, 0)%Z)) as [|Hbox];
    [by left|].
  assert (label_kept stop_labels label) as Hkept.
  { split; [|split; [|split]]; [|apply clean_label_stripped| |done].
    - intros He. by rewrite He in Hl.
    - unfold label in Hstop |- *.
      by rewrite clean_label_stripped in Hstop. }
  destruct (find_nearest_cases box) as [[Hfound Hnone]|(c & Hfound & Hc)];
    rewrite Hfound; simpl.
  - destruct (bool_decide_reflect
                (is_Some (FieldDetector.classify_label label)))
      as [Hcls|Hcls]; simpl; [|by left].
    right. eexists. split; [done|]. split.
    + unfold from_item, FieldDetector.target_region. fold label box.
      rewrite Hfound. f_equal.
      by destruct (default false (raw_required item)).
    + split; [done|]. split; [done|]. simpl. by right.
  - right. eexists. split; [done|]. split.
    + unfold from_item, FieldDetector.target_region. fold label box.
      rewrite Hfound. f_equal.
      by destruct (default false (raw_required item)).
    + split; [done|]. split; [done|]. simpl. by left.
Qed.

Lemma llm_loop_spec (raw_fields : list RawItem) (fields : list FormField)
      (idx : nat) :
  ∃ idxs new,
    llm_loop stop_labels round2 page input_regions fields idx raw_fields
    = fields ++ new
    ∧ StronglySorted lt idxs
    ∧ Forall2 (λ i f, ∃ item, (idx ≤ i)%nat
                              ∧ raw_fields !! (i - idx)%nat = Some item
                              ∧ from_item round2 page input_regions i item f
                              ∧ item_kept stop_labels page input_regions f)
              idxs new.
Proof.
  revert fields idx.
  induction raw_fields as [|item raw_fields IH]; intros fields idx.
  - exists [], []. rewrite app_nil_r.
    split; [done|]. split; constructor.
  - cbn [llm_loop].
    assert (∀ idxs new,
               Forall2 (λ i f, ∃ item, (S idx ≤ i)%nat
                              ∧ raw_fields !! (i - S idx)%nat = Some item
                              ∧ from_item round2 page input_regions i item f
                              ∧ item_kept stop_labels page input_regions f)
                       idxs new →
               Forall2 (λ i f, ∃ item0, (idx ≤ i)%nat
                              ∧ (item :: raw_fields) !! (i - idx)%nat
                                = Some item0
                              ∧ from_item round2 page input_regions i item0 f
                              ∧ item_kept stop_labels page input_regions f)
                       idxs new
               ∧ Forall (lt idx) idxs) as Hshift.
    { intros idxs new Hall. split.
      - eapply Forall2_impl; [exact Hall|]. simpl.
        intros i g (item0 & Hle & Hi & Hg). exists item0.
        split; [lia|]. split; [|done].
        by replace (i - idx)%nat with (S (i - S idx)) by lia.
      - induction Hall as [|i g idxs new (item0 & Hle & _) _ IHall];
          constructor; [lia|done]. }
    destruct (llm_item_spec fields idx item) as [->|(f & -> & Hf & Hk)].
    + destruct (IH fields (S idx)) as (idxs & new & -> & Hs & Hall).
      exists idxs, new. split; [done|]. split; [done|].
      by apply Hshift.
    + destruct (IH (fields ++ [f]) (S idx)) as (idxs & new & -> & Hs & Hall).
      exists (idx :: idxs), (f :: new). rewrite <- app_assoc.
      split; [done|]. apply Hshift in Hall as [Hall Hlt].
      split; [by constructor|]. constructor; [|done].
      exists item. split; [lia|]. split; [|done].
      by rewrite Nat.sub_diag.
Qed.

Lemma llm_id_inj (i j : nat) : llm_id i = llm_id j → i = j.
Proof.
  unfold llm_id. intros H. apply format_03d_inj. by injection H.
Qed.

End LlmLoop.

Section LlmFields.
Import Models LlmFilters.
Variable stop_labels : gset string.
Variable round2 : Q → Qc.
Variable cv : string → Regions.CvResult.
Variable page : Ocr.PageData.

Lemma fields_of_raw_spec (raw_fields : list RawItem) :
  let input_regions :=
    Regions.detect_input_regions cv (Ocr.image_bytes page) in
  ∃ idxs,
    StronglySorted lt idxs
    ∧ Forall2 (λ i f, ∃ item, raw_fields !! i = Some item
                              ∧ from_item round2 page input_regions i item f
                              ∧ item_kept stop_labels page input_regions f)
              idxs
              (fields_of_raw stop_labels round2 cv page raw_fields).
Proof.
  intros input_regions. unfold fields_of_raw. fold input_regions.
  destruct (llm_loop_spec stop_labels round2 page input_regions
                          raw_fields [] 0)
    as (idxs & new & -> & Hs & Hall).
  exists idxs. split; [done|]. simpl.
  eapply Forall2_impl; [exact Hall|]. simpl.
  intros i f (item & _ & Hi & Hf). exists item.
  by rewrite Nat.sub_0_r in Hi.
Qed.

Lemma llm_fields_key (raw_fields : list RawItem) :
  Forall (λ f, LlmExtractor.label_key f ≠ EmptyString)
         (fields_of_raw stop_labels round2 cv page raw_fields).
Proof.
  destruct (fields_of_raw_spec raw_fields) as (idxs & _ & Hall).
  induction Hall as [|i f idxs fs (item & _ & _ & Hk) _ IH];
    constructor; [|done].
  destruct Hk as ((Hne & Hs & _) & _). unfold LlmExtractor.label_key.
  rewrite Hs. by destruct (label_text f).
Qed.

End LlmFields.

Lemma lower_empty (s : string) : PyStr.lower s = EmptyString → s = EmptyString.
Proof. by destruct s. Qed.

Lemma item_kept_key (stop_labels : gset string) (page : Ocr.PageData)
      (input_regions : list Models.bbox) (f : Models.FormField) :
  item_kept stop_labels page input_regions f →
  LlmExtractor.label_key f ≠ EmptyString
  ∧ LlmExtractor.label_key f ∉ stop_labels.
Proof.
  intros ((Hne & Hs & Hstop & _) & _). unfold LlmExtractor.label_key.
  rewrite Hs. split; [|done]. intros He. by apply lower_empty in He.
Qed.

(** X25: once the service has answered, [detect_fields_llm] returns at most
    one field for each item of the answer, in the order of the items: there
    are strictly increasing positions of the answer, one for each field,
    such that the field is the one read from the item at that position;
    it carries the identifier made of that position, the page index, the
    cleaned label, the type named by the item (TEXT when missing or
    unknown), the rounded label box, the target associated with it, the
    required flag of the item or of the label, the rounded confidence
    (that of 0.7 when missing) and an empty answer. *)
Theorem llm_fields_items (stop_labels : gset string) (round2 : Q → Qc)
        (cv : string → Regions.CvResult) (page : Ocr.PageData)
        (raw_fields : list LlmFilters.RawItem) :
  ∃ idxs,
    StronglySorted lt idxs
    ∧ read_from round2 page
                (Regions.detect_input_regions cv (Ocr.image_bytes page))
                raw_fields idxs
                (LlmFilters.fields_of_raw stop_labels round2 cv page
                                          raw_fields)
    ∧ (length (LlmFilters.fields_of_raw stop_labels round2 cv page raw_fields)
       ≤ length raw_fields)%nat.
Proof.
  destruct (fields_of_raw_spec stop_labels round2 cv page raw_fields)
    as (idxs & Hs & Hall).
  exists idxs. split; [done|]. split.
  - eapply Forall2_impl; [exact Hall|]. simpl.
    intros i f (item & Hi & Hf & _). by exists item.
  - rewrite <- (Forall2_length _ _ _ Hall).
    assert (Forall (λ i, i < length raw_fields)%nat idxs) as Hlt.
    { clear Hs. induction Hall as [|i f idxs fs (item & Hi & _) _ IH];
        constructor; [by eapply lookup_lt_Some|done]. }
    assert (NoDup idxs) as Hnd.
    { clear Hall Hlt. induction Hs as [|i idxs Hs IH Hi]; constructor; [|done].
      intros Hin. pose proof (proj1 (Forall_forall _ _) Hi i Hin). simpl in *.
      lia. }
    rewrite <- (length_seq (length raw_fields) 0).
    apply submseteq_length, NoDup_submseteq; [done|].
    intros i Hi. apply elem_of_seq.
    pose proof (proj1 (Forall_forall _ _) Hlt i Hi). simpl in *. lia.
Qed.

(** X26: the identifiers of the fields [detect_fields_llm] returns are
    pairwise distinct; each is "llm" followed by the position, in three
    digits at least, of an item of the answer, and none is an identifier
    of the heuristic detector ("f" followed by a number). *)
Theorem llm_fields_ids (stop_labels : gset string) (round2 : Q → Qc)
        (cv : string → Regions.CvResult) (page : Ocr.PageData)
        (raw_fields : list LlmFilters.RawItem) :
  NoDup (Models.field_id
           <$> LlmFilters.fields_of_raw stop_labels round2 cv page raw_fields)
  ∧ Forall (λ f, (∃ idx, (idx < length raw_fields)%nat
                         ∧ Models.field_id f = llm_id idx)
                 ∧ ∀ i, Models.field_id f ≠ FieldOrdering.new_id i)
           (LlmFilters.fields_of_raw stop_labels round2 cv page raw_fields).
Proof.
  destruct (fields_of_raw_spec stop_labels round2 cv page raw_fields)
    as (idxs & Hs & Hall).
  assert (Models.field_id
            <$> LlmFilters.fields_of_raw stop_labels round2 cv page raw_fields
          = llm_id <$> idxs) as Hids.
  { induction Hall as [|i f idxs fs (item & _ & -> & _) _ IH]; [done|].
    csimpl. by rewrite IH by (by inversion Hs). }
  split.
  - rewrite Hids. apply NoDup_fmap_2; [intros i j; apply llm_id_inj|].
    clear Hall Hids. induction Hs as [|i idxs Hs IH Hi]; constructor; [|done].
    intros Hin. pose proof (proj1 (Forall_forall _ _) Hi i Hin). simpl in *.
    lia.
  - clear Hids Hs.
    induction Hall as [|i f idxs fs (item & Hi & -> & _) _ IH];
      constructor; [|done].
    split; [|done]. exists i. split; [by eapply lookup_lt_Some|done].
Qed.

(** X27: every field [detect_fields_llm] returns passed the filters of
    the loop.  Its label is not empty, has no white space at either end,
    is not a stop label and does not look like an instruction, so that
    its normalized key is not empty; its label box is not (0, 0, 0, 0);
    and its target is one of the regions detected in the page image, or
    else no detected region is within the 200px cap of the label box, the
    target is the region inferred from the label box and the page width,
    and the label is one that [classify_label] recognises: a label that
    classifies as nothing is only kept with a detected region. *)
Theorem llm_fields_kept (stop_labels : gset string) (round2 : Q → Qc)
        (cv : string → Regions.CvResult) (page : Ocr.PageData)
        (raw_fields : list LlmFilters.RawItem) :
  Forall (λ f,
            label_kept stop_labels (Models.label_text f)
            ∧ LlmExtractor.label_key f ≠ EmptyString
            ∧ (LlmExtractor.label_key f ∉ stop_labels)
            ∧ Models.label_bbox f ≠ (0, 0, 0, 0)%Z
            ∧ (Models.target_bbox f
               ∈ Regions.detect_input_regions cv (Ocr.image_bytes page)
               ∨ (none_within
                    (Models.label_bbox f)
                    (Regions.detect_input_regions cv (Ocr.image_bytes page))
                    200
                  ∧ Models.target_bbox f
                    = FieldDetector.infer_answer_region (Models.label_bbox f)
                                                        (Ocr.width page)
                  ∧ is_Some (FieldDetector.classify_label
                               (Models.label_text f)))))
         (LlmFilters.fields_of_raw stop_labels round2 cv page raw_fields).
Proof.
  destruct (fields_of_raw_spec stop_labels round2 cv page raw_fields)
    as (idxs & _ & Hall).
  induction Hall as [|i f idxs fs (item & _ & _ & Hk) _ IH];
    constructor; [|done].
  destruct (item_kept_key _ _ _ _ Hk) as [Hkey Hstop].
  destruct Hk as (Hl & Hbox & Ht). done.
Qed.

(** X28: fusing the fields of [detect_fields_llm] into a heuristic list
    whose normalized keys are pairwise distinct never raises and loses no
    field of the extractor: none of them is skipped for a blank key, so
    each is represented in the fused list by an entry under its key whose
    confidence is not lower; the fused list has pairwise distinct keys and
    holds nothing but fields of the two lists. *)
Theorem merge_llm_fields (stop_labels : gset string) (round2 : Q → Qc)
        (cv : string → Regions.CvResult) (page : Ocr.PageData)
        (raw_fields : list LlmFilters.RawItem)
        (heuristic : list Models.FormField) :
  NoDup (keys heuristic) →
  ∃ merged,
    LlmExtractor.merge_fields
      heuristic
      (LlmFilters.fields_of_raw stop_labels round2 cv page raw_fields)
    = Some merged
    ∧ NoDup (keys merged)
    ∧ (∀ f, f ∈ LlmFilters.fields_of_raw stop_labels round2 cv page raw_fields
            → covers merged f)
    ∧ (∀ f, f ∈ heuristic → covers merged f)
    ∧ (∀ f, f ∈ merged →
            f ∈ heuristic
            ∨ f ∈ LlmFilters.fields_of_raw stop_labels round2 cv page
                                           raw_fields).
Proof.
  intros Hnd.
  pose proof (llm_fields_key stop_labels round2 cv page raw_fields) as Hkeys.
  destruct (LlmFilters.fields_of_raw stop_labels round2 cv page raw_fields)
    as [|e0 llm].
  { exists heuristic. split; [done|]. split; [done|]. split; [|split].
    - intros f Hf. by apply elem_of_nil in Hf.
    - intros f Hf. by apply covers_self.
    - auto. }
  destruct (merge_loop_inv (e0 :: llm) heuristic
              (LlmExtractor.seen_of heuristic) Hnd
              (seen_of_indexed heuristic Hnd))
    as (merged & seen & Hloop & Hnd' & Hidx' & Hfrom & Hcov & Hnew).
  exists merged. unfold LlmExtractor.merge_fields. rewrite Hloop.
  split; [done|]. split; [done|]. split; [|split].
  - intros f Hf. apply Hnew; [done|].
    exact (proj1 (Forall_forall _ _) Hkeys f Hf).
  - intros f Hf. by apply Hcov, covers_self.
  - intros f Hf. destruct (Hfrom f Hf) as [?|[? _]]; auto.
Qed.

Lemma merge_llm_fields_witness :
  ∃ merged,
    LlmExtractor.merge_fields
      sample_fields
      (LlmFilters.fields_of_raw ∅ sample_round2 sample_cv sample_page
                                [sample_item])
    = Some merged
    ∧ NoDup (keys merged)
    ∧ (∀ f, f ∈ LlmFilters.fields_of_raw ∅ sample_round2 sample_cv
                                         sample_page [sample_item]
            → covers merged f)
    ∧ (∀ f, f ∈ sample_fields → covers merged f)
    ∧ (∀ f, f ∈ merged →
            f ∈ sample_fields
            ∨ f ∈ LlmFilters.fields_of_raw ∅ sample_round2 sample_cv
                                           sample_page [sample_item]).
Proof.
  apply (merge_llm_fields ∅ sample_round2 sample_cv sample_page [sample_item]
                          sample_fields).
  compute_done.
Defined.

(** ** The translation cache *)

(** X29: [translate_text] and its cache.  A call never removes or changes
    an entry of the cache and adds at most the entry of its own text and
    language; for the language "en" or a blank text it returns the text
    and leaves the cache alone; when the call leaves no entry for its
    text and language (the service failed, or nothing was to translate)
    it returns the text as it is, so a failure is not remembered; and
    once there is an entry, the same call again gives the same result and
    the same cache whatever the service would answer. *)
Theorem translate_text_cache
        (service service' : string → string → option string)
        (_cache : Translator.cache) (text target_lang : string) :
  let r := (Translator.translate_text service _cache text target_lang).1 in
  let c := (Translator.translate_text service _cache text target_lang).2 in
  _cache ⊆ c
  ∧ dom c ⊆ dom _cache ∪ {[ (text, target_lang) ]}
  ∧ (target_lang = "en" ∨ PyStr.strip text = EmptyString →
     r = text ∧ c = _cache)
  ∧ (c !! (text, target_lang) = None → r = text ∧ c = _cache)
  ∧ (is_Some (c !! (text, target_lang)) →
     Translator.translate_text service' c text target_lang = (r, c)).
Proof.
  unfold Translator.translate_text.
  destruct (String.eqb_spec target_lang "en") as [Hen|Hen]; simpl.
  { split; [done|]. split; [apply union_subseteq_l|]. by destruct (_ !! _). }
  destruct (PyStr.truthy (PyStr.strip text)) eqn:Hblank; simpl.
  2:{ split; [done|]. split; [apply union_subseteq_l|].
      by destruct (_ !! _). }
  destruct (_cache !! (text, target_lang)) as [cached|] eqn:Hc; simpl.
  { split; [done|]. split; [apply union_subseteq_l|]. split; [|split].
    - intros [?|He]; [done|]. by rewrite He in Hblank.
    - congruence.
    - intros _. by rewrite Hc. }
  destruct (service _ text) as [result|]; simpl.
  - split; [by apply insert_subseteq|].
    split; [rewrite dom_insert; apply union_least;
            [apply union_subseteq_r|apply union_subseteq_l]|].
    split; [|split].
    + intros [?|He]; [done|]. by rewrite He in Hblank.
    + by rewrite lookup_insert_eq.
    + intros _. by rewrite lookup_insert_eq.
  - split; [done|]. split; [apply union_subseteq_l|].
    split; [|split]; try done.
    intros [? ?]. congruence.
Qed.

Lemma translate_text_cache_witness :
  Translator.translate_text
    service_down
    (Translator.translate_text sample_service ∅ "Name" "zh").2 "Name" "zh"
  = ("zh-CN:Name", (Translator.translate_text sample_service ∅ "Name" "zh").2).
Proof.
  assert (is_Some ((Translator.translate_text sample_service ∅ "Name" "zh").2
                   !! ("Name", "zh"))) as Hs by (by eexists).
  exact (proj2 (proj2 (proj2 (proj2
    (translate_text_cache sample_service service_down ∅ "Name" "zh")))) Hs).
Defined.

(** ** The route /validate *)

Section Route.
Import Json.

Lemma find_field_some (fields : list Models.FormField)
      (field_id : option value) (f : Models.FormField) :
  App.find_field fields field_id = Some f →
  f ∈ fields ∧ field_id = Some (JStr (Models.field_id f)).
Proof.
  unfold App.find_field.
  destruct field_id as [[|b|n|fid|items|members]|]; try done.
  intros Hf. apply find_some in Hf as [Hin Heq].
  apply String.eqb_eq in Heq.
  split; [by apply list_elem_of_In|by rewrite Heq].
Qed.

Lemma find_field_none (fields : list Models.FormField)
      (field_id : option value) (f : Models.FormField) :
  App.find_field fields field_id = None → f ∈ fields →
  field_id ≠ Some (JStr (Models.field_id f)).
Proof.
  intros Hf Hin ->. simpl in Hf. apply list_elem_of_In in Hin.
  pose proof (find_none _ _ Hf f Hin) as Hne. simpl in Hne.
  by apply String.eqb_neq in Hne.
Qed.

End Route.

(** X30: the route /validate, on what the request holds.  It answers 500
    (an exception it does not catch) exactly when the JSON body is truthy
    and no object, or the session identifier is a list or an object, or
    session and field are found and the answer is no string.  It answers
    404 exactly when, these apart, the session is unknown (any identifier
    that is no string is) or no field of the session has the identifier.
    Otherwise it judges the answer, a string, by the first field with
    that identifier: a blank answer is valid exactly when that field is
    not required, any other answer gets the verdict and message of
    [validate_field]; there is a message exactly when the answer is
    invalid, and a confirmation, which repeats the answer as it was sent,
    exactly when the answer is valid and not blank. *)
Theorem validate_route (sessions : gmap string (list Models.FormField))
        (body : option Json.value) :
  match App.validate sessions body with
  | App.Error500 =>
      App.request_data body = None
      ∨ ∃ data,
          App.request_data body = Some data
          ∧ (Json.hashable (default Json.JNull (Json.get data "session_id"))
             = false
             ∨ ∃ fields f,
                 App.session_of sessions (Json.get data "session_id")
                 = Some fields
                 ∧ App.find_field fields (Json.get data "field_id") = Some f
                 ∧ ∀ answer,
                     default (Json.JStr EmptyString) (Json.get data "answer")
                     ≠ Json.JStr answer)
  | App.Error404 _ =>
      ∃ data,
        App.request_data body = Some data
        ∧ Json.hashable (default Json.JNull (Json.get data "session_id"))
          = true
        ∧ (App.session_of sessions (Json.get data "session_id") = None
           ∨ ∃ fields,
               App.session_of sessions (Json.get data "session_id")
               = Some fields
               ∧ ∀ f, f ∈ fields →
                      Json.get data "field_id"
                      ≠ Some (Json.JStr (Models.field_id f)))
  | App.Validation valid message confirmation =>
      ∃ data fields f answer,
        App.request_data body = Some data
        ∧ App.session_of sessions (Json.get data "session_id") = Some fields
        ∧ App.find_field fields (Json.get data "field_id") = Some f
        ∧ f ∈ fields
        ∧ Json.get data "field_id" = Some (Json.JStr (Models.field_id f))
        ∧ default (Json.JStr EmptyString) (Json.get data "answer")
          = Json.JStr answer
        ∧ (valid = true ↔ message = None)
        ∧ confirmation
          = (if valid && PyStr.truthy (PyStr.strip answer)
             then Some ("You entered: " +:+ answer) else None)
        ∧ (if PyStr.truthy (PyStr.strip answer)
           then (valid, message)
                = Validators.validate_field (Models.field_type f) answer
           else valid = negb (Models.required f))
  end.
Proof.
  unfold App.validate.
  destruct (App.request_data body) as [data|] eqn:Hdata; [|by left].
  destruct (Json.hashable (default Json.JNull (Json.get data "session_id")))
    eqn:Hhash; cbn [negb].
  2:{ right. exists data. split; [done|]. by left. }
  destruct (App.session_of sessions (Json.get data "session_id"))
    as [fields|] eqn:Hs.
  2:{ exists data. split; [done|]. split; [done|]. by left. }
  destruct (App.find_field fields (Json.get data "field_id")) as [f|] eqn:Hf.
  2:{ exists data. split; [done|]. split; [done|]. right.
      exists fields. split; [done|]. intros f Hin.
      by apply (find_field_none fields). }
  destruct (find_field_some _ _ _ Hf) as [Hin Hid].
  destruct (default (Json.JStr EmptyString) (Json.get data "answer"))
    as [|b|n|answer|items|members] eqn:Ha;
    try (right; exists data; split; [done|]; right; exists fields, f;
         split; [done|]; split; [done|]; intros answer; by rewrite Ha).
  pose proof (validate_message_iff (Models.field_type f) answer) as Hm.
  destruct (PyStr.truthy (PyStr.strip answer)) eqn:Hblank.
  - rewrite andb_false_r.
    destruct (Validators.validate_field (Models.field_type f) answer)
      as [v m] eqn:Hv.
    exists data, fields, f, answer. rewrite Hblank.
    repeat (split; [done|]). done.
  - rewrite andb_true_r. destruct (Models.required f) eqn:Hreq.
    + exists data, fields, f, answer. rewrite Hblank, Hreq.
      repeat (split; [done|]). done.
    + assert (Validators.validate_field (Models.field_type f) answer
              = (true, None)) as ->.
      { unfold Validators.validate_field. by rewrite Hblank. }
      exists data, fields, f, answer. rewrite Hblank, Hreq.
      repeat (split; [done|]). done.
Qed.

Example validate_route_examples :
  App.validate sample_sessions (Some number_answer) = App.Error500
  ∧ App.validate sample_sessions (Some (Json.JArr [Json.JNull]))
    = App.Error500
  ∧ App.validate sample_sessions (Some (Json.JArr []))
    = App.Error404 "Session not found."
  ∧ App.validate sample_sessions None = App.Error404 "Session not found."
  ∧ App.validate sample_sessions
                 (Some (Json.JObj [("session_id", Json.JStr "s1");
                                   ("field_id", Json.JStr "f001");
                                   ("answer", Json.JStr " 12 ")]))
    = App.Validation true None (Some "You entered:  12 ").
Proof. repeat split; reflexivity. Qed.
